(** * Ring: block production and Hive proof validation

    A shallow embedding of [src/pow.cpp] and [src/miner.cpp]: the two
    difficulty retargets, the Hive proof validator, the block assembler's
    package loop and template construction, the extra-nonce update, the
    nonce scanner and the Hive miner's pre-checks.

    Conventions.
    - C++ integers are [Z] with the wrap-around of their width written out
      ([Int.u32], [Int.i32], [Int.i64], [Int.u256]).
    - A [CBlockIndex*] is the list of index entries reachable through
      [pprev], nearest first: [[]] is [nullptr], the head is the pointee and
      the tail is [pprev].
    - A computation that can dereference null, fail an [assert], divide by
      zero or throw is in the [Exec] monad.
    - Code of the node that is not part of the two files (script encoding,
      hashing, the UTXO view, the mempool container) is an interface: a
      type class whose methods the embedding calls where the source does. *)

From Stdlib Require Import ZArith Lia Bool.
From stdpp Require Import base option list sorting strings gmap.

Local Open Scope Z_scope.

(** ** Machine integers *)

Module Int.

Definition wrap_u (w x : Z) : Z := x mod 2 ^ w.
Definition wrap_s (w x : Z) : Z := (x + 2 ^ (w - 1)) mod 2 ^ w - 2 ^ (w - 1).

(** [unsigned int], [uint32_t] *)
Definition u32 : Z -> Z := wrap_u 32.
(** [int] *)
Definition i32 : Z -> Z := wrap_s 32.
(** [uint64_t] *)
Definition u64 : Z -> Z := wrap_u 64.
(** [int64_t], [CAmount] *)
Definition i64 : Z -> Z := wrap_s 64.
(** [arith_uint256] *)
Definition u256 : Z -> Z := wrap_u 256.

Definition INT64_MIN : Z := - 2 ^ 63.

End Int.

(** ** Outcomes of a call *)

(** [Done a]: the call ran to its end with [a].  [Reject log]: a
    [bool] function logged [log] and returned [false].  [Crash why]: null
    dereference, failed [assert], out-of-range index or integer trap.
    [Raise what]: a C++ exception left the function. *)
Inductive Exec (A : Type) : Type :=
| Done (a : A)
| Reject (log : string)
| Crash (why : string)
| Raise (what : string).

Arguments Done {A} a.
Arguments Reject {A} log.
Arguments Crash {A} why.
Arguments Raise {A} what.

Definition bind {A B : Type} (m : Exec A) (k : A -> Exec B) : Exec B :=
  match m with
  | Done a => k a
  | Reject log => Reject log
  | Crash why => Crash why
  | Raise what => Raise what
  end.

Notation "'let*' x ':=' m 'in' k" := (bind m (fun x => k))
  (at level 10, x name, m at level 100, k at level 200, only parsing).
Notation "'let*' ' p ':=' m 'in' k" := (bind m (fun p => k))
  (at level 10, p pattern, m at level 100, k at level 200, only parsing).

(** [if (c) { LogPrintf(log); return false; }] *)
Definition rejectIf (c : bool) (log : string) : Exec unit :=
  if c then Reject log else Done tt.

(** [assert(c)] *)
Definition assert (c : bool) (what : string) : Exec unit :=
  if c then Done tt else Crash what.

(** Signed 64-bit division as the hardware does it: truncation toward zero,
    a trap on a zero divisor and on [INT64_MIN / -1]. *)
Definition div64 (a b : Z) : Exec Z :=
  if b =? 0 then Crash "integer division by zero"
  else if (a =? Int.INT64_MIN) && (b =? -1) then Crash "integer division overflow"
  else Done (Z.quot a b).

(** ** Consensus parameters and the block index *)

(** The fields of [Consensus::Params] that the two files read.  The
    limits are [uint256] values, [nPowTargetSpacing] is an [int64_t],
    [dwarfCost] a [CAmount], the heights, counts, window sizes and the
    contribution factor are [int]s. *)
Record Params : Type := {
  powLimit : Z;
  powLimitInitialDistribution : Z;
  powLimitHive : Z;
  lastInitialDistributionHeight : Z;
  fPowAllowMinDifficultyBlocks : bool;
  nPowTargetSpacing : Z;
  hiveDifficultyWindow : Z;
  minHiveCheckBlock : Z;
  hiveBlockSpacingTarget : Z;
  slowStartBlocks : Z;
  maxConsecutiveHiveBlocks : Z;
  dwarfGestationBlocks : Z;
  dwarfLifespanBlocks : Z;
  dwarfCost : Z;
  communityContribFactor : Z;
  dwarfCreationAddress : string;
  hiveCommunityAddress : string;
  hiveNonceMarker : Z;
  popNonceMarker : Z
}.

Record CBlockIndex : Type := {
  nHeight : Z;
  nBits : Z;
  nTime : Z;
  nNonce : Z;
  hashBlock : Z
}.

(** A [CBlockIndex*]. *)
Abbreviation pindex := (list CBlockIndex).

(** ** Scripts, transactions, blocks and the chain state *)

Abbreviation bytes := (list Byte.byte).
Abbreviation CScript := (list Byte.byte).

Definition byteZ (b : Byte.byte) : Z := Z.of_N (Byte.to_N b).

#[global] Instance byte_eq_decision : EqDecision Byte.byte := Byte.byte_eq_dec.

Record CTxOut : Type := {
  nValue : Z;
  scriptPubKey : CScript
}.

Record CTxIn : Type := {
  prevoutNull : bool;
  scriptSig : CScript
}.

Record CTransaction : Type := {
  vin : list CTxIn;
  vout : list CTxOut
}.

Record CBlock : Type := {
  nVersion : Z;
  hashPrevBlock : Z;
  hashMerkleRoot : Z;
  blockTime : Z;
  blockBits : Z;
  blockNonce : Z;
  vtx : list CTransaction
}.

(** A UTXO entry. *)
Record Coin : Type := {
  out : CTxOut;
  coinHeight : Z
}.

(** [cs_main]-guarded globals read by the validator: [mapBlockIndex]
    (a stored pointer may be null) and [pcoinsTip] ([None] is a null
    [pcoinsTip]; the map is keyed by outpoint [(txid, n)]). *)
Record ChainState : Type := {
  mapBlockIndex : gmap Z pindex;
  pcoinsTip : option (gmap (Z * Z) Coin)
}.

(** [v[i]] on a [std::vector] or [CScript]: out of range is undefined. *)
Definition at_ {A : Type} (v : list A) (i : nat) : Exec A :=
  match v !! i with
  | Some x => Done x
  | None => Crash "index out of range"
  end.

(** ** Interface of [arith_uint256] and of the block header

    [SetCompact] and [GetCompact] are the compact target codec of
    [arith_uint256.cpp]; [IsHiveMined] and [IsPopMined] are the header
    predicates of [primitives/block.h]. *)

Class Header : Type := {
  SetCompact : Z -> Z;
  GetCompact : Z -> Z;
  IsHiveMined : Params -> CBlockIndex -> bool;
  IsPopMined : Params -> CBlockIndex -> bool
}.

(** ** Interface of the validator's collaborators

    Script and key handling ([script/standard.h], [pubkey.h], [key_io.h]),
    the header's hash primitive, the deterministic random string and the
    block-database lookup of [validation.h].  Hash values are read as
    [arith_uint256] numbers. *)

Class Node : Type := {
  CTxDestination : Type;
  CTxDestination_eq :: EqDecision CTxDestination;
  CKeyID : Type;
  CKeyID_eq :: EqDecision CKeyID;
  CPubKey : Type;
  OP_RETURN : Byte.byte;
  OP_DWARF : Byte.byte;
  OP_TRUE : Byte.byte;
  (** [ReadLE32] of [crypto/common.h], on the four bytes at a position *)
  ReadLE32 : bytes -> Z;
  GetDeterministicRandString : pindex -> bytes;
  (** [arith_uint256(MinotaurHashArbitrary(s.c_str()).ToString())] *)
  MinotaurHashArbitrary : bytes -> Z;
  (** [arith_uint256::ToString] *)
  ToString : Z -> bytes;
  (** [std::to_string] on a [uint32_t] *)
  to_string : Z -> bytes;
  ExtractDestination : CScript -> option CTxDestination;
  IsValidDestination : CTxDestination -> bool;
  (** [boost::get<CKeyID>(&dest)] *)
  getKeyID : CTxDestination -> option CKeyID;
  (** [CHashWriter ss(SER_GETHASH, 0); ss << s; ss.GetHash()] *)
  hashString : bytes -> Z;
  RecoverCompact : Z -> bytes -> option CPubKey;
  GetID : CPubKey -> CKeyID;
  uint256S : bytes -> Z;
  (** [GetScriptForDestination(DecodeDestination(address))] *)
  GetScriptForAddress : string -> CScript;
  IsCoinBase : CTransaction -> bool;
  (** [tx->IsDCT(consensusParams, scriptPubKeyBCF)] *)
  IsDCT : Params -> CTransaction -> CScript -> bool;
  (** [CScript::IsDCTScript(script, scriptPubKeyBCF, &reward)] *)
  IsDCTScript : CScript -> CScript -> option CScript;
  (** [GetTxByHashAndHeight(hash, height, tx, foundAt, pindexPrev, params)] *)
  GetTxByHashAndHeight : Z -> Z -> pindex -> Params -> option (CTransaction * CBlockIndex)
}.

(** [arith_uint256] arithmetic.  [a *= n] with an integer [n] selects
    [operator*=(uint32_t)]; [a /= n] converts [n] through the
    [uint64_t] constructor and throws [uint_error] on a zero divisor. *)
Module Arith256.

Definition add (a b : Z) : Z := Int.u256 (a + b).
Definition mul32 (a n : Z) : Z := Int.u256 (a * Int.u32 n).
Definition div (a n : Z) : Exec Z :=
  let d := Int.u64 n in
  if d =? 0 then Raise "Division by zero" else Done (a / d).

End Arith256.

(** ** [pow.cpp] *)

Module Pow.
Section WithHeader.
Context `{Header}.
Variable params : Params.

(** [while (pindex->GetBlockHeader().IsHiveMined(params)) {
       assert(pindex->pprev); pindex = pindex->pprev; }] *)
Fixpoint skipHiveMined (p : pindex) : Exec pindex :=
  match p with
  | [] => Crash "null CBlockIndex dereferenced"
  | b :: prev =>
      if IsHiveMined params b then
        match prev with
        | [] => Crash "assert(pindex->pprev)"
        | _ :: _ => skipHiveMined prev
        end
      else Done p
  end.

Definition nPastBlocks : Z := 24.

(** The [for (i = 1; i <= nPastBlocks; i++)] loop of [GetNextWorkRequired]:
    [n] iterations are left, [avg] is [bnPastTargetAvg]. *)
Fixpoint pastTargetAvg (n : nat) (p : pindex) (avg : Z) : Exec (Z * pindex) :=
  match n with
  | O => Done (avg, p)
  | S n' =>
      let* q := skipHiveMined p in
      match q with
      | [] => Crash "null CBlockIndex dereferenced"
      | b :: prev =>
          let bnTarget := SetCompact (nBits b) in
          let* t := Arith256.div bnTarget nPastBlocks in
          let avg' := Arith256.add avg t in
          let* _ := assert (bool_decide (prev ≠ [])) "assert(pindex->pprev)" in
          pastTargetAvg n' prev avg'
      end
  end.

Definition GetBlockTime (b : CBlockIndex) : Z := nTime b.

(** [pblockTime] is [pblock->GetBlockTime()]. *)
Definition GetNextWorkRequired (pindexLast : pindex) (pblockTime : Z) : Exec Z :=
  match pindexLast with
  | [] => Crash "assert(pindexLast != nullptr)"
  | tip :: _ =>
      if nHeight tip <? lastInitialDistributionHeight params then
        Done (GetCompact (powLimitInitialDistribution params))
      else
        let bnPowLimit := powLimit params in
        if fPowAllowMinDifficultyBlocks params
           && (Int.i64 (GetBlockTime tip + Int.i64 (nPowTargetSpacing params * 10)) <? pblockTime)
        then Done (GetCompact bnPowLimit)
        else
          let* last := skipHiveMined pindexLast in
          let* '(bnPastTargetAvg, old) := pastTargetAvg (Z.to_nat nPastBlocks) last 0 in
          match last, old with
          | lastb :: _, oldb :: _ =>
              let nActualTimespan := Int.i64 (GetBlockTime lastb - GetBlockTime oldb) in
              let nTargetTimespan := Int.i64 (nPastBlocks * nPowTargetSpacing params) in
              let t3 := Z.quot nTargetTimespan 3 in
              let nActualTimespan :=
                if nActualTimespan <? t3 then t3 else nActualTimespan in
              let nActualTimespan :=
                if Int.i64 (nTargetTimespan * 3) <? nActualTimespan
                then Int.i64 (nTargetTimespan * 3) else nActualTimespan in
              let bnNew := Arith256.mul32 bnPastTargetAvg nActualTimespan in
              let* bnNew := Arith256.div bnNew nTargetTimespan in
              let bnNew := if bnPowLimit <? bnNew then bnPowLimit else bnNew in
              Done (GetCompact bnNew)
          | _, _ => Crash "null CBlockIndex dereferenced"
          end
  end.

(** The [while] loop of [GetNextHiveWorkRequired]; the result is
    [(dwarfHashTarget, hiveBlockCount, totalBlockCount)]. *)
Fixpoint hiveWindow (p : pindex) (target hiveBlockCount totalBlockCount : Z)
  : Exec (Z * Z * Z) :=
  if hiveBlockCount <? hiveDifficultyWindow params then
    match p with
    | [] => Crash "null CBlockIndex dereferenced"
    | b :: prev =>
        if bool_decide (prev ≠ []) && (minHiveCheckBlock params <=? nHeight b)
        then
          let '(target', count') :=
            if IsHiveMined params b
            then (Arith256.add target (SetCompact (nBits b)), Int.i32 (hiveBlockCount + 1))
            else (target, hiveBlockCount) in
          hiveWindow prev target' count' (Int.i32 (totalBlockCount + 1))
        else Done (target, hiveBlockCount, totalBlockCount)
    end
  else Done (target, hiveBlockCount, totalBlockCount).

Definition GetNextHiveWorkRequired (pindexLast : pindex) : Exec Z :=
  let bnPowLimit := powLimitHive params in
  let* '(dwarfHashTarget, hiveBlockCount, totalBlockCount) := hiveWindow pindexLast 0 0 0 in
  if hiveBlockCount =? 0 then Done (GetCompact bnPowLimit)
  else
    let* dwarfHashTarget := Arith256.div dwarfHashTarget hiveBlockCount in
    let targetTotalBlockCount := Int.i32 (hiveBlockCount * hiveBlockSpacingTarget params) in
    let dwarfHashTarget := Arith256.mul32 dwarfHashTarget totalBlockCount in
    let* dwarfHashTarget := Arith256.div dwarfHashTarget targetTotalBlockCount in
    let dwarfHashTarget :=
      if bnPowLimit <? dwarfHashTarget then bnPowLimit else dwarfHashTarget in
    Done (GetCompact dwarfHashTarget).

(** *** [CheckHiveProof] *)

Context `{Node}.

(** [mapBlockIndex[hash]]: a missing key yields a null pointer (and
    [operator[]] stores it). *)
Definition lookupBlockIndex (st : ChainState) (hash : Z) : pindex :=
  default [] (mapBlockIndex st !! hash).

(** [p->nHeight] *)
Definition deref (p : pindex) : Exec CBlockIndex :=
  match p with
  | [] => Crash "null CBlockIndex dereferenced"
  | b :: _ => Done b
  end.

(** The [while] loop counting Hive blocks since the last PoW block. *)
Fixpoint hiveBlocksSincePow (p : pindex) (count : Z) : Exec Z :=
  match p with
  | [] => Crash "null CBlockIndex dereferenced"
  | b :: prev =>
      if IsHiveMined params b then
        let count' := Int.i32 (count + 1) in
        match prev with
        | [] => Crash "assert(pindexTemp->pprev)"
        | _ :: _ => hiveBlocksSincePow prev count'
        end
      else Done count
  end.

(** [pcoinsTip && pcoinsTip->GetCoin(outpoint, coin)] *)
Definition GetCoin (st : ChainState) (outpoint : Z * Z) : option Coin :=
  view ← pcoinsTip st; view !! outpoint.

(** "Check for valid donation amount" and "Update amount paid": the new
    [dctValue]. *)
Definition checkDonationAmount (dctValue donationAmount : Z) : Exec Z :=
  let* expectedDonationAmount :=
    div64 (Int.i64 (dctValue + donationAmount)) (communityContribFactor params) in
  let* _ := rejectIf (negb (donationAmount =? expectedDonationAmount))
    "CheckHiveProof: DCT pays community fund incorrect amount %i (expected %i)" in
  Done (Int.i64 (dctValue + donationAmount)).

(** The [if (communityContrib)] block up to the amount check: the
    [donationAmount] found.  [dct] is the transaction found by the first
    deep drill, if that path was taken. *)
Definition findDonation (st : ChainState) (pindexPrev : pindex)
    (txidStr : bytes) (dctClaimedHeight : Z) (dct : option CTransaction)
  : Exec Z :=
  let scriptPubKeyCF := GetScriptForAddress (hiveCommunityAddress params) in
  let outCommFund := (uint256S txidStr, 1) in
  let* '(dct, fromCoin) :=
    match dct with
    | Some d => Done (Some d, @None Z)
    | None =>
        match GetCoin st outCommFund with
        | Some coin =>
            let* _ := rejectIf
              (negb (bool_decide (scriptPubKey (out coin) = scriptPubKeyCF)))
              "CheckHiveProof: Community contrib was indicated but not found" in
            Done (None, Some (nValue (out coin)))
        | None =>
            match GetTxByHashAndHeight (uint256S txidStr) dctClaimedHeight pindexPrev params with
            | None => Reject "CheckHiveProof: Couldn't locate indicated DCT"
            | Some (d, _) => Done (Some d, @None Z)
            end
        end
    end in
  match dct with
  | Some d =>
      match vout d !! 1%nat with
      | Some o =>
          let* _ := rejectIf
            (negb (bool_decide (scriptPubKey o = scriptPubKeyCF)))
            "CheckHiveProof: Community contrib was indicated but not found" in
          Done (nValue o)
      | None => Reject "CheckHiveProof: Community contrib was indicated but not found"
      end
  | None =>
      match fromCoin with
      | Some v => Done v
      | None => Crash "donationAmount read uninitialised"
      end
  end.

(** The [if (communityContrib)] block: the new [dctValue]. *)
Definition communityContribution (st : ChainState) (pindexPrev : pindex)
    (txidStr : bytes) (dctClaimedHeight : Z) (dct : option CTransaction)
    (dctValue : Z) : Exec Z :=
  let* donationAmount := findDonation st pindexPrev txidStr dctClaimedHeight dct in
  checkDonationAmount dctValue donationAmount.

(** "Grab the DCT utxo": [(dctFoundHeight, dctValue, dctScriptPubKey)]. *)
Definition grabDCT (st : ChainState) (pindexPrev : pindex) (txidStr : bytes)
    (dctClaimedHeight : Z) (communityContrib : bool) : Exec (Z * Z * CScript) :=
  let outDwarfCreation := (uint256S txidStr, 0) in
  let* '(dct, dctFoundHeight, dctValue, dctScriptPubKey) :=
    match GetCoin st outDwarfCreation with
    | Some coin =>
        Done (None, Int.u32 (coinHeight coin), nValue (out coin), scriptPubKey (out coin))
    | None =>
        match GetTxByHashAndHeight (uint256S txidStr) dctClaimedHeight pindexPrev params with
        | None => Reject "CheckHiveProof: Couldn't locate indicated DCT"
        | Some (d, foundAt) =>
            let* o := at_ (vout d) 0 in
            Done (Some d, Int.u32 (nHeight foundAt), nValue o, scriptPubKey o)
        end
    end in
  let* dctValue :=
    if communityContrib
    then communityContribution st pindexPrev txidStr dctClaimedHeight dct dctValue
    else Done dctValue in
  Done (dctFoundHeight, dctValue, dctScriptPubKey).

(** "Find dwarf count" and "Check enough dwarves were bought to include
    claimed dwarfNonce". *)
Definition checkDwarfCount (dctValue dwarfNonce : Z) : Exec unit :=
  let* _ := rejectIf (dctValue <? dwarfCost params)
    "CheckHiveProof: DCT fee is less than the cost for a single dwarf" in
  let* q := div64 dctValue (dwarfCost params) in
  let dwarfCount := Int.u32 q in
  let* _ := rejectIf (dwarfCount <=? dwarfNonce)
    "CheckHiveProof: DCT did not create enough dwarves for claimed nonce!" in
  Done tt.

(** From the DCT lookup to the reward address comparison: the [dctValue]
    that the dwarf count is computed from. *)
Definition checkDCT (st : ChainState) (pindexPrev : pindex) (blockHeight : Z)
    (scriptPubKeyBCF : CScript) (rewardDestination : CTxDestination)
    (txidStr : bytes) (dctClaimedHeight : Z) (communityContrib : bool)
  : Exec Z :=
  let* '(dctFoundHeight, dctValue, dctScriptPubKey) :=
    grabDCT st pindexPrev txidStr dctClaimedHeight communityContrib in
  let* _ := rejectIf (negb (dctFoundHeight =? dctClaimedHeight))
    "CheckHiveProof: Claimed DCT height of %i conflicts with found height of %i" in
  let dctDepth := Int.i32 (blockHeight - dctFoundHeight) in
  let* _ := rejectIf (dctDepth <? dwarfGestationBlocks params)
    "CheckHiveProof: Indicated DCT is immature." in
  let* _ := rejectIf
    (Int.i32 (dwarfGestationBlocks params + dwarfLifespanBlocks params) <? dctDepth)
    "CheckHiveProof: Indicated DCT is too old." in
  match IsDCTScript dctScriptPubKey scriptPubKeyBCF with
  | None => Reject "CheckHiveProof: Indicated utxo is not a valid DCT script"
  | Some scriptPubKeyReward =>
      match ExtractDestination scriptPubKeyReward with
      | None => Reject "CheckHiveProof: Couldn't extract reward address from DCT UTXO"
      | Some rewardDestinationDCT =>
          let* _ := rejectIf
            (negb (bool_decide (rewardDestination = rewardDestinationDCT)))
            "CheckHiveProof: DCT's reward address does not match claimed reward address!" in
          Done dctValue
      end
  end.

(** "Grab the reward address from the reward vout" and "Verify the message
    sig". *)
Definition checkRewardSignature (rewardScript : CScript)
    (deterministicRandString messageSig : bytes) : Exec CTxDestination :=
  match ExtractDestination rewardScript with
  | None => Reject "CheckHiveProof: Couldn't extract reward address"
  | Some rewardDestination =>
      let* _ := rejectIf (negb (IsValidDestination rewardDestination))
        "CheckHiveProof: Reward address is invalid" in
      match getKeyID rewardDestination with
      | None => Reject "CheckHiveProof: Can't get pubkey for reward address"
      | Some keyID =>
          let mhash := hashString deterministicRandString in
          match RecoverCompact mhash messageSig with
          | None => Reject "CheckHiveProof: Couldn't recover pubkey from hash"
          | Some pubkey =>
              let* _ := rejectIf (negb (bool_decide (GetID pubkey = keyID)))
                "CheckHiveProof: Signature mismatch! GetID() = %s, *keyID = %s" in
              Done rewardDestination
          end
      end
  end.

(** [CheckHiveProof] up to the dwarf count: the [dctValue] and the
    [dwarfNonce] that reach it. *)
Definition proofChecks (st : ChainState) (pblock : CBlock) : Exec (Z * Z) :=
  let pindexPrev := lookupBlockIndex st (hashPrevBlock pblock) in
  let* prev := deref pindexPrev in
  let blockHeight := Int.i32 (nHeight prev + 1) in
  let* _ := rejectIf (bool_decide (pindexPrev = []))
    "CheckHiveProof: Couldn't get previous block's CBlockIndex!" in
  let* _ := rejectIf
    (blockHeight <? Int.i32 (lastInitialDistributionHeight params + slowStartBlocks params))
    "CheckHiveProof: No hive blocks accepted by network until after slowstart!" in
  let* hiveCount := hiveBlocksSincePow pindexPrev 0 in
  let* _ := rejectIf (maxConsecutiveHiveBlocks params <=? hiveCount)
    "CheckHiveProof: Too many Hive blocks without a POW block." in
  let scriptPubKeyBCF := GetScriptForAddress (dwarfCreationAddress params) in
  let* _ := rejectIf
    (existsb (fun tx => IsDCT params tx scriptPubKeyBCF) (drop 1 (vtx pblock)))
    "CheckHiveProof: Hivemined block contains DCTs!" in
  let* txCoinbase := at_ (vtx pblock) 0 in
  let* _ := rejectIf (negb (IsCoinBase txCoinbase))
    "CheckHiveProof: Coinbase tx isn't valid!" in
  let* _ := rejectIf
    ((length (vout txCoinbase) <? 2)%nat || (3 <? length (vout txCoinbase))%nat)
    "CheckHiveProof: Didn't expect %i vouts!" in
  let* vout0 := at_ (vout txCoinbase) 0 in
  let proof := scriptPubKey vout0 in
  let* _ := rejectIf (length proof <? 144)%nat
    "CheckHiveProof: vout[0].scriptPubKey isn't long enough to contain hive proof encodings" in
  let* b0 := at_ proof 0 in
  let* b1 := at_ proof 1 in
  let* _ := rejectIf
    (negb (bool_decide (b0 = OP_RETURN)) || negb (bool_decide (b1 = OP_DWARF)))
    "CheckHiveProof: vout[0].scriptPubKey doesn't start OP_RETURN OP_DWARF" in
  let dwarfNonce := ReadLE32 (take 4 (drop 3 proof)) in
  let dctClaimedHeight := ReadLE32 (take 4 (drop 8 proof)) in
  let* b12 := at_ proof 12 in
  let communityContrib := bool_decide (b12 = OP_TRUE) in
  let txidStr := take 64 (drop 14 proof) in
  let deterministicRandString := GetDeterministicRandString pindexPrev in
  let* bits := GetNextHiveWorkRequired pindexPrev in
  let dwarfHashTarget := SetCompact bits in
  let dwarfHash :=
    MinotaurHashArbitrary (deterministicRandString ++ txidStr ++ to_string dwarfNonce) in
  let dwarfHash := MinotaurHashArbitrary (ToString dwarfHash) in
  let* _ := rejectIf (dwarfHashTarget <=? dwarfHash)
    "CheckHiveProof: Dwarf does not meet hash target!" in
  let messageSig := take 65 (drop 79 proof) in
  let* vout1 := at_ (vout txCoinbase) 1 in
  let* rewardDestination :=
    checkRewardSignature (scriptPubKey vout1) deterministicRandString messageSig in
  let* dctValue :=
    checkDCT st pindexPrev blockHeight scriptPubKeyBCF rewardDestination
      txidStr dctClaimedHeight communityContrib in
  Done (dctValue, dwarfNonce).

(** [Done tt] is [return true]. *)
Definition CheckHiveProof (st : ChainState) (pblock : CBlock) : Exec unit :=
  let* '(dctValue, dwarfNonce) := proofChecks st pblock in
  checkDwarfCount dctValue dwarfNonce.

End WithHeader.
End Pow.

(** ** [miner.cpp] *)

(** Interface of the miner's collaborators: script serialisation
    ([script/script.h]), the coinbase flags, the merkle root
    ([consensus/merkle.h]) and the header's PoW hash. *)
Class MinerEnv : Type := {
  (** [CScript() << n] for an integer [n] *)
  pushInt : Z -> bytes;
  (** [CScript() << CScriptNum(n)] *)
  pushScriptNum : Z -> bytes;
  OP_0 : Byte.byte;
  COINBASE_FLAGS : bytes;
  BlockMerkleRoot : CBlock -> Z;
  (** [pblock->GetPowHash()], a [uint256] read as a number *)
  GetPowHash : CBlock -> Z;
  (** whether [boost::this_thread::interruption_point()] finds an
      interruption requested when it is polled at a nonce *)
  interruption_requested : Z -> bool
}.

(** [hash.ByteAt(i)]: byte [i] of the 32-byte little-endian value. *)
Definition ByteAt (hash : Z) (i : Z) : Z := Z.land (Z.shiftr hash (8 * i)) 255.

Definition setNonce (pblock : CBlock) (n : Z) : CBlock :=
  {| nVersion := nVersion pblock; hashPrevBlock := hashPrevBlock pblock;
     hashMerkleRoot := hashMerkleRoot pblock; blockTime := blockTime pblock;
     blockBits := blockBits pblock; blockNonce := n; vtx := vtx pblock |}.

Definition setTime (pblock : CBlock) (t : Z) : CBlock :=
  {| nVersion := nVersion pblock; hashPrevBlock := hashPrevBlock pblock;
     hashMerkleRoot := hashMerkleRoot pblock; blockTime := t;
     blockBits := blockBits pblock; blockNonce := blockNonce pblock;
     vtx := vtx pblock |}.

Definition setMerkleRoot (pblock : CBlock) (h : Z) : CBlock :=
  {| nVersion := nVersion pblock; hashPrevBlock := hashPrevBlock pblock;
     hashMerkleRoot := h; blockTime := blockTime pblock;
     blockBits := blockBits pblock; blockNonce := blockNonce pblock;
     vtx := vtx pblock |}.

Definition setVtx (pblock : CBlock) (txs : list CTransaction) : CBlock :=
  {| nVersion := nVersion pblock; hashPrevBlock := hashPrevBlock pblock;
     hashMerkleRoot := hashMerkleRoot pblock; blockTime := blockTime pblock;
     blockBits := blockBits pblock; blockNonce := blockNonce pblock;
     vtx := txs |}.

Module Miner.
Section WithEnv.
Context `{Header} `{Node} `{MinerEnv}.
Variable params : Params.

(** *** [ScanHash] (the [GetPowHash] definition) *)

(** What one call of [ScanHash] leaves behind: the value returned, the
    header with its [nNonce] field, the caller's [nNonce] and [*phash]. *)
Record ScanResult : Type := {
  scanFound : Exec bool;
  scanBlock : CBlock;
  scanNonce : Z;
  scanHash : Z
}.

(** The [while (true)] loop, [fuel] iterations at most. *)
Fixpoint ScanHash_loop (fuel : nat) (pblock : CBlock) (nNonce phash : Z)
  : option ScanResult :=
  match fuel with
  | O => None
  | S fuel' =>
      let nNonce := Int.u32 (nNonce + 1) in
      let pblock := setNonce pblock nNonce in
      let hash := GetPowHash pblock in
      if (ByteAt hash 31 =? 0) && (ByteAt hash 30 =? 0) then
        Some {| scanFound := Done true; scanBlock := pblock;
                scanNonce := nNonce; scanHash := hash |}
      else if Z.land nNonce 65535 =? 0 then
        Some {| scanFound := Done false; scanBlock := pblock;
                scanNonce := nNonce; scanHash := phash |}
      else if (Z.land nNonce 4095 =? 0) && interruption_requested nNonce then
        Some {| scanFound := Raise "boost::thread_interrupted"; scanBlock := pblock;
                scanNonce := nNonce; scanHash := phash |}
      else ScanHash_loop fuel' pblock nNonce phash
  end.

(** No call runs the loop more than 65536 times. *)
Definition ScanHash (pblock : CBlock) (nNonce phash : Z) : option ScanResult :=
  ScanHash_loop (Z.to_nat 65536) pblock nNonce phash.

(** *** [IncrementExtraNonce] *)

Definition setScriptSig (tx : CTransaction) (s : CScript) : Exec CTransaction :=
  match vin tx with
  | [] => Crash "index out of range"
  | i :: rest =>
      Done {| vin := {| prevoutNull := prevoutNull i; scriptSig := s |} :: rest;
              vout := vout tx |}
  end.

(** [static_hashPrevBlock] is the function's [static uint256 hashPrevBlock]
    (all zero before the first call).  The result is the new static, the
    block and the new [nExtraNonce]. *)
Definition IncrementExtraNonce (static_hashPrevBlock : Z) (pblock : CBlock)
    (pindexPrev : pindex) (nExtraNonce : Z) : Exec (Z * CBlock * Z) :=
  let '(nExtraNonce, static_hashPrevBlock) :=
    if bool_decide (static_hashPrevBlock ≠ hashPrevBlock pblock)
    then (0, hashPrevBlock pblock)
    else (nExtraNonce, static_hashPrevBlock) in
  let nExtraNonce := Int.u32 (nExtraNonce + 1) in
  let* prev := Pow.deref pindexPrev in
  let nHeight := Int.u32 (nHeight prev + 1) in
  let* tx0 := at_ (vtx pblock) 0 in
  let script := pushInt nHeight ++ pushScriptNum nExtraNonce ++ COINBASE_FLAGS in
  let* txCoinbase := setScriptSig tx0 script in
  let* _ := assert (length script <=? 100)%nat
    "assert(txCoinbase.vin[0].scriptSig.size() <= 100)" in
  let pblock := setVtx pblock (txCoinbase :: drop 1 (vtx pblock)) in
  let pblock := setMerkleRoot pblock (BlockMerkleRoot pblock) in
  Done (static_hashPrevBlock, pblock, nExtraNonce).

(** *** [BusyDwarves]: the checks before the wallet is consulted *)

(** [g_connman] ([None] when P2P is disabled, otherwise the node count)
    and [IsInitialBlockDownload()]. *)
Record NetState : Type := {
  g_connman : option Z;
  isInitialBlockDownload : bool
}.

(** The [while] loop of [BusyDwarves] counting Hive blocks since the last
    PoW block. *)
Fixpoint minerHiveBlocksSincePow (p : pindex) (count : Z) : Exec Z :=
  match p with
  | [] => Crash "null CBlockIndex dereferenced"
  | b :: prev =>
      if IsPopMined params b || IsHiveMined params b then
        let count' := if IsHiveMined params b then Int.i32 (count + 1) else count in
        match prev with
        | [] => Crash "assert(pindexTemp->pprev)"
        | _ :: _ => minerHiveBlocksSincePow prev count'
        end
      else Done count
  end.

(** [BusyDwarves] up to the wallet lookup: [Reject] is [return false],
    [Done tt] means the function goes on to the dwarves. *)
Definition BusyDwarves_prechecks (net : NetState) (tip : pindex) (height : Z)
  : Exec unit :=
  let* _ := assert (bool_decide (tip ≠ [])) "assert(pindexPrev != nullptr)" in
  match g_connman net with
  | None =>
      Reject "BusyDwarves: Skipping hive check: Peer-to-peer functionality missing or disabled"
  | Some nodeCount =>
      let* _ := rejectIf (nodeCount =? 0)
        "BusyDwarves: Skipping hive check (not connected)" in
      let* _ := rejectIf (isInitialBlockDownload net)
        "BusyDwarves: Skipping hive check (in initial block download)" in
      let* _ := rejectIf
        (height <? Int.i32 (lastInitialDistributionHeight params + slowStartBlocks params))
        "BusyDwarves: Skipping hive check (slow start has not finished)" in
      let* hiveCount := minerHiveBlocksSincePow tip 0 in
      let* _ := rejectIf (maxConsecutiveHiveBlocks params <=? hiveCount)
        "BusyDwarves: Skipping hive check (max Hive blocks without a POW block reached)" in
      Done tt
  end.

End WithEnv.
End Miner.

(** ** [miner.cpp]: the block assembler *)

(** A [CTxMemPool::txiter]. *)
Abbreviation txiter := nat.

Record CTxMemPoolModifiedEntry : Type := {
  iter : txiter;
  nSizeWithAncestors : Z;
  nModFeesWithAncestors : Z;
  nSigOpCostWithAncestors : Z
}.

(** [indexed_modified_transaction_set]: the entries in the order of the
    [ancestor_score] index, at most one per [iter]. *)
Abbreviation modset := (list CTxMemPoolModifiedEntry).

Record CBlockTemplate : Type := {
  block : CBlock;
  vTxFees : list Z;
  vTxSigOpsCost : list Z;
  vchCoinbaseCommitment : bytes
}.

(** Interface of the assembler's collaborators: the mempool
    ([txmempool.h]: entry accessors, the [ancestor_score] index of [mapTx]
    in iteration order, ancestor and descendant closure, the two
    comparators of [miner.h]), the consensus constants, and the chain
    services of [validation.h] that [CreateNewBlock] calls. *)
Class AssemblerEnv : Type := {
  WITNESS_SCALE_FACTOR : Z;
  MAX_BLOCK_WEIGHT : Z;
  MAX_BLOCK_SIGOPS_COST : Z;
  mapTx_ancestor_score : list txiter;
  GetSharedTx : txiter -> CTransaction;
  GetTxSize : txiter -> Z;
  GetTxWeight : txiter -> Z;
  GetFee : txiter -> Z;
  GetModifiedFee : txiter -> Z;
  GetSigOpCost : txiter -> Z;
  GetSizeWithAncestors : txiter -> Z;
  GetModFeesWithAncestors : txiter -> Z;
  GetSigOpCostWithAncestors : txiter -> Z;
  CalculateMemPoolAncestors : txiter -> gset txiter;
  CalculateDescendants : txiter -> gset txiter;
  CompareTxMemPoolEntryByAncestorFee :
    CTxMemPoolModifiedEntry -> CTxMemPoolModifiedEntry -> bool;
  CompareTxIterByAncestorCount : txiter -> txiter -> bool;
  IsFinalTx : CTransaction -> Z -> Z -> bool;
  HasWitness : CTransaction -> bool;
  (** [CFeeRate(rate).GetFee(size)] *)
  FeeRate_GetFee : Z -> Z -> Z;
  (** [chainActive.Tip()] *)
  chainActive_Tip : pindex;
  GetAdjustedTime : Z;
  GetMedianTimePast : pindex -> Z;
  ComputeBlockVersion : pindex -> Z;
  MineBlocksOnDemand : bool;
  (** [gArgs.GetArg("-blockversion", dflt)] *)
  blockversionArg : Z -> Z;
  (** [STANDARD_LOCKTIME_VERIFY_FLAGS & LOCKTIME_MEDIAN_TIME_PAST] *)
  lockTimeMedianTimePast : bool;
  IsWitnessEnabled : pindex -> bool;
  GetBlockSubsidyHive : Z;
  GetBlockSubsidyPopPrivate : Z;
  GetBlockSubsidyPopPublic : Z;
  GetBlockSubsidyPow : Z -> Z;
  (** appends the commitment output to the coinbase of the block *)
  GenerateCoinbaseCommitment : CBlock -> pindex -> CBlock * bytes;
  GetLegacySigOpCount : CTransaction -> Z;
  (** [None] when the block is valid, otherwise
      [FormatStateMessage(state)] *)
  TestBlockValidity : CBlock -> pindex -> option string
}.

Module Assembler.
Section WithEnv.
Context `{Header} `{Node} `{MinerEnv} `{AssemblerEnv}.
Variable params : Params.

(** The members of [BlockAssembler] and the template it is filling. *)
Record State : Type := {
  blockMinFeeRate : Z;
  nBlockMaxWeight : Z;
  nBlockWeight : Z;
  nBlockTx : Z;
  nBlockSigOpsCost : Z;
  nFees : Z;
  inBlock : gset txiter;
  fIncludeWitness : bool;
  fIncludeDCTs : bool;
  asmHeight : Z;
  nLockTimeCutoff : Z;
  pblocktemplate : CBlockTemplate
}.

(** [BlockAssembler::BlockAssembler(params, options)]: the weight limit
    kept by the constructor. *)
Definition clampBlockMaxWeight (optionsMaxWeight : Z) : Z :=
  Z.max 4000 (Z.min (MAX_BLOCK_WEIGHT - 4000) optionsMaxWeight).

Definition emptyBlock : CBlock :=
  {| nVersion := 0; hashPrevBlock := 0; hashMerkleRoot := 0; blockTime := 0;
     blockBits := 0; blockNonce := 0; vtx := [] |}.

Definition emptyTx : CTransaction := {| vin := []; vout := [] |}.

(** [resetBlock()] followed by the fresh template with its dummy coinbase
    entry. *)
Definition resetBlock (minFeeRate maxWeight : Z) : State :=
  {| blockMinFeeRate := minFeeRate; nBlockMaxWeight := maxWeight;
     nBlockWeight := 4000; nBlockTx := 0; nBlockSigOpsCost := 400; nFees := 0;
     inBlock := ∅; fIncludeWitness := false; fIncludeDCTs := true;
     asmHeight := 0; nLockTimeCutoff := 0;
     pblocktemplate :=
       {| block := setVtx emptyBlock [emptyTx]; vTxFees := [-1];
          vTxSigOpsCost := [-1]; vchCoinbaseCommitment := [] |} |}.

(** Both sums are [uint64_t]: [nBlockWeight] and [nBlockSigOpsCost] are,
    and the [int64_t] operands are converted. *)
Definition TestPackage (s : State) (packageSize packageSigOpsCost : Z) : bool :=
  if nBlockMaxWeight s <=? Int.u64 (nBlockWeight s + WITNESS_SCALE_FACTOR * packageSize)
  then false
  else if Int.u64 MAX_BLOCK_SIGOPS_COST
          <=? Int.u64 (nBlockSigOpsCost s + packageSigOpsCost)
  then false
  else true.

Definition TestPackageTransactions (s : State) (package : gset txiter) : bool :=
  forallb
    (fun it =>
       let tx := GetSharedTx it in
       if negb (IsFinalTx tx (asmHeight s) (nLockTimeCutoff s)) then false
       else if negb (fIncludeWitness s) && HasWitness tx then false
       else if negb (fIncludeDCTs s)
               && IsDCT params tx (GetScriptForAddress (dwarfCreationAddress params))
       then false
       else true)
    (elements package).

Definition AddToBlock (s : State) (it : txiter) : State :=
  let t := pblocktemplate s in
  {| blockMinFeeRate := blockMinFeeRate s; nBlockMaxWeight := nBlockMaxWeight s;
     nBlockWeight := Int.u64 (nBlockWeight s + GetTxWeight it);
     nBlockTx := Int.u64 (nBlockTx s + 1);
     nBlockSigOpsCost := Int.u64 (nBlockSigOpsCost s + GetSigOpCost it);
     nFees := Int.i64 (nFees s + GetFee it);
     inBlock := {[ it ]} ∪ inBlock s;
     fIncludeWitness := fIncludeWitness s; fIncludeDCTs := fIncludeDCTs s;
     asmHeight := asmHeight s; nLockTimeCutoff := nLockTimeCutoff s;
     pblocktemplate :=
       {| block := setVtx (block t) (vtx (block t) ++ [GetSharedTx it]);
          vTxFees := vTxFees t ++ [GetFee it];
          vTxSigOpsCost := vTxSigOpsCost t ++ [GetSigOpCost it];
          vchCoinbaseCommitment := vchCoinbaseCommitment t |} |}.

Definition modFind (it : txiter) (m : modset) : option CTxMemPoolModifiedEntry :=
  List.find (fun e => bool_decide (iter e = it)) m.

Definition modErase (it : txiter) (m : modset) : modset :=
  List.filter (fun e => negb (bool_decide (iter e = it))) m.

(** Insertion keeps the index order: before the first entry that the new
    one precedes. *)
Fixpoint modInsert (e : CTxMemPoolModifiedEntry) (m : modset) : modset :=
  match m with
  | [] => [e]
  | x :: rest =>
      if CompareTxMemPoolEntryByAncestorFee e x then e :: m
      else x :: modInsert e rest
  end.

(** [CTxMemPoolModifiedEntry(entry)] *)
Definition modEntry (it : txiter) : CTxMemPoolModifiedEntry :=
  {| iter := it; nSizeWithAncestors := GetSizeWithAncestors it;
     nModFeesWithAncestors := GetModFeesWithAncestors it;
     nSigOpCostWithAncestors := GetSigOpCostWithAncestors it |}.

(** [update_for_parent_inclusion(it)], and the same three subtractions on
    a fresh entry. *)
Definition parentIncluded (it : txiter) (e : CTxMemPoolModifiedEntry)
  : CTxMemPoolModifiedEntry :=
  {| iter := iter e;
     nSizeWithAncestors := Int.u64 (nSizeWithAncestors e - GetTxSize it);
     nModFeesWithAncestors := Int.i64 (nModFeesWithAncestors e - GetModifiedFee it);
     nSigOpCostWithAncestors := Int.i64 (nSigOpCostWithAncestors e - GetSigOpCost it) |}.

Definition updateDescendant (alreadyAdded : gset txiter) (it : txiter)
    (acc : Z * modset) (desc : txiter) : Z * modset :=
  if bool_decide (desc ∈ alreadyAdded) then acc
  else
    let '(n, m) := acc in
    match modFind desc m with
    | None => (Int.i32 (n + 1), modInsert (parentIncluded it (modEntry desc)) m)
    | Some e => (Int.i32 (n + 1), modInsert (parentIncluded it e) (modErase desc m))
    end.

(** The result is [(nDescendantsUpdated, mapModifiedTx)]. *)
Definition UpdatePackagesForAdded (alreadyAdded : gset txiter) (m : modset)
  : Z * modset :=
  foldl
    (fun acc it =>
       foldl (updateDescendant alreadyAdded it) acc (elements (CalculateDescendants it)))
    (0, m) (elements alreadyAdded).

Definition SkipMapTxEntry (s : State) (it : txiter) (m : modset)
    (failedTx : gset txiter) : bool :=
  bool_decide (is_Some (modFind it m))
  || bool_decide (it ∈ inBlock s) || bool_decide (it ∈ failedTx).

Definition SortForBlock (package : gset txiter) : list txiter :=
  merge_sort (fun a b => Is_true (negb (CompareTxIterByAncestorCount b a)))
    (elements package).

Definition MAX_CONSECUTIVE_FAILURES : Z := 1000.

(** The locals of [addPackageTxs] around the assembler. *)
Record Loop : Type := {
  asm : State;
  mi : list txiter;
  mapModifiedTx : modset;
  failedTx : gset txiter;
  nConsecutiveFailed : Z;
  nPackagesSelected : Z;
  nDescendantsUpdated : Z
}.

Inductive Step : Type :=
| Continue (l : Loop)
| Stop (l : Loop).

(** A failed candidate taken from [mapModifiedTx] is erased from it and
    remembered in [failedTx]. *)
Definition dropFailed (l : Loop) (mi' : list txiter) (it : txiter)
    (fUsingModified : bool) (failed : Z) : Loop :=
  {| asm := asm l; mi := mi';
     mapModifiedTx :=
       if fUsingModified then drop 1 (mapModifiedTx l) else mapModifiedTx l;
     failedTx := if fUsingModified then {[ it ]} ∪ failedTx l else failedTx l;
     nConsecutiveFailed := failed;
     nPackagesSelected := nPackagesSelected l;
     nDescendantsUpdated := nDescendantsUpdated l |}.

(** The part of the loop body after the candidate is chosen. *)
Definition evaluatePackage (l : Loop) (mi' : list txiter) (it : txiter)
    (modit : option CTxMemPoolModifiedEntry) (fUsingModified : bool) : Exec Step :=
  let s := asm l in
  let* _ := assert (negb (bool_decide (it ∈ inBlock s))) "assert(!inBlock.count(iter))" in
  let '(packageSize, packageFees, packageSigOpsCost) :=
    match fUsingModified, modit with
    | true, Some e =>
        (nSizeWithAncestors e, nModFeesWithAncestors e, nSigOpCostWithAncestors e)
    | _, _ =>
        (GetSizeWithAncestors it, GetModFeesWithAncestors it, GetSigOpCostWithAncestors it)
    end in
  if packageFees <? FeeRate_GetFee (blockMinFeeRate s) packageSize then Done (Stop l)
  else if negb (TestPackage s packageSize packageSigOpsCost) then
    let failed := Int.i64 (nConsecutiveFailed l + 1) in
    let l' := dropFailed l mi' it fUsingModified failed in
    if (MAX_CONSECUTIVE_FAILURES <? failed)
       && (Int.u32 (nBlockMaxWeight s - 4000) <? nBlockWeight s)
    then Done (Stop l')
    else Done (Continue l')
  else
    let ancestors := {[ it ]} ∪ (CalculateMemPoolAncestors it ∖ inBlock s) in
    if negb (TestPackageTransactions s ancestors) then
      Done (Continue (dropFailed l mi' it fUsingModified (nConsecutiveFailed l)))
    else
      let sortedEntries := SortForBlock ancestors in
      let '(s', m') :=
        foldl (fun '(s, m) e => (AddToBlock s e, modErase e m))
          (s, mapModifiedTx l) sortedEntries in
      let '(updated, m'') := UpdatePackagesForAdded ancestors m' in
      Done (Continue
        {| asm := s'; mi := mi'; mapModifiedTx := m''; failedTx := failedTx l;
           nConsecutiveFailed := 0;
           nPackagesSelected := Int.i32 (nPackagesSelected l + 1);
           nDescendantsUpdated := Int.i32 (nDescendantsUpdated l + updated) |}).

(** One evaluation of the [while] condition and, when it holds, of the
    loop body. *)
Definition addPackageTxs_step (l : Loop) : Exec Step :=
  match mi l, mapModifiedTx l with
  | [], [] => Done (Stop l)
  | [], e :: _ => evaluatePackage l [] (iter e) (Some e) true
  | it :: rest, m =>
      if SkipMapTxEntry (asm l) it m (failedTx l) then
        Done (Continue
          {| asm := asm l; mi := rest; mapModifiedTx := m; failedTx := failedTx l;
             nConsecutiveFailed := nConsecutiveFailed l;
             nPackagesSelected := nPackagesSelected l;
             nDescendantsUpdated := nDescendantsUpdated l |})
      else
        match m with
        | e :: _ =>
            if CompareTxMemPoolEntryByAncestorFee e (modEntry it)
            then evaluatePackage l (it :: rest) (iter e) (Some e) true
            else evaluatePackage l rest it (Some e) false
        | [] => evaluatePackage l rest it None false
        end
  end.

(** The [while] loop, [fuel] iterations at most; [None] when they do not
    suffice. *)
Fixpoint addPackageTxs_loop (fuel : nat) (l : Loop) : option (Exec Loop) :=
  match fuel with
  | O => None
  | S fuel' =>
      match addPackageTxs_step l with
      | Done (Continue l') => addPackageTxs_loop fuel' l'
      | Done (Stop l') => Some (Done l')
      | Reject log => Some (Reject log)
      | Crash why => Some (Crash why)
      | Raise what => Some (Raise what)
      end
  end.

(** The loop after [n] iterations: [Continue] while it is still going. *)
Fixpoint addPackageTxs_iterations (n : nat) (l : Loop) : Exec Step :=
  match n with
  | O => Done (Continue l)
  | S n' =>
      let* st := addPackageTxs_step l in
      match st with
      | Continue l' => addPackageTxs_iterations n' l'
      | Stop l' => Done (Stop l')
      end
  end.

(** The locals as [addPackageTxs] initialises them. *)
Definition enterLoop (s : State) (nPackagesSelected nDescendantsUpdated : Z) : Loop :=
  let '(_, m) := UpdatePackagesForAdded (inBlock s) [] in
  {| asm := s; mi := mapTx_ancestor_score; mapModifiedTx := m; failedTx := ∅;
     nConsecutiveFailed := 0; nPackagesSelected := nPackagesSelected;
     nDescendantsUpdated := nDescendantsUpdated |}.

(** [addPackageTxs(nPackagesSelected, nDescendantsUpdated)] *)
Definition addPackageTxs (fuel : nat) (s : State)
    (nPackagesSelected nDescendantsUpdated : Z) : option (Exec Loop) :=
  addPackageTxs_loop fuel (enterLoop s nPackagesSelected nDescendantsUpdated).

(** *** [UpdateTime] and [CreateNewBlock] *)

(** The result is the block with its new time and the value returned. *)
Definition UpdateTime (pblock : CBlock) (pindexPrev : pindex) : CBlock * Z :=
  let nOldTime := blockTime pblock in
  let nNewTime := Z.max (Int.i64 (GetMedianTimePast pindexPrev + 1)) GetAdjustedTime in
  let pblock := if nOldTime <? nNewTime then setTime pblock (Int.u32 nNewTime) else pblock in
  (pblock, Int.i64 (nNewTime - nOldTime)).

Definition setHeader (pblock : CBlock) (version prev time bits nonce : Z) : CBlock :=
  {| nVersion := version; hashPrevBlock := prev;
     hashMerkleRoot := hashMerkleRoot pblock; blockTime := time;
     blockBits := bits; blockNonce := nonce; vtx := vtx pblock |}.

(** The coinbase of a Hive or Pop block: one input with a null prevout,
    the proof in [vout[0]] and the reward in [vout[1]]. *)
Definition proofCoinbase (height : Z) (proofScript scriptPubKeyIn : CScript)
    (reward : Z) : CTransaction :=
  {| vin := [ {| prevoutNull := true; scriptSig := pushInt height ++ [OP_0] |} ];
     vout := [ {| nValue := 0; scriptPubKey := proofScript |};
               {| nValue := reward; scriptPubKey := scriptPubKeyIn |} ] |}.

Definition powCoinbase (height : Z) (scriptPubKeyIn : CScript) (reward : Z)
  : CTransaction :=
  {| vin := [ {| prevoutNull := true; scriptSig := pushInt height ++ [OP_0] |} ];
     vout := [ {| nValue := reward; scriptPubKey := scriptPubKeyIn |} ] |}.

(** "Create coinbase transaction": the transaction for the requested
    mode. *)
Definition coinbaseFor (s : State) (scriptPubKeyIn : CScript)
    (hiveProofScript popProofScript : option CScript) : Exec CTransaction :=
  match hiveProofScript, popProofScript with
  | Some hive, _ =>
      Done (proofCoinbase (asmHeight s) hive scriptPubKeyIn
              (Int.i64 (nFees s + GetBlockSubsidyHive)))
  | None, Some pop =>
      let* b36 := at_ pop 36 in
      let isPrivate := bool_decide (b36 = OP_TRUE) in
      let subsidy := if isPrivate then GetBlockSubsidyPopPrivate
                     else GetBlockSubsidyPopPublic in
      Done (proofCoinbase (asmHeight s) pop scriptPubKeyIn (Int.i64 (nFees s + subsidy)))
  | None, None =>
      Done (powCoinbase (asmHeight s) scriptPubKeyIn
              (Int.i64 (nFees s + GetBlockSubsidyPow (asmHeight s))))
  end.

(** "Choose correct nBits depending on whether a Hive block is requested" *)
Definition bitsFor (pindexPrev : pindex) (pblock : CBlock)
    (hiveProofScript popProofScript : option CScript) : Exec Z :=
  match hiveProofScript, popProofScript with
  | Some _, _ => Pow.GetNextHiveWorkRequired params pindexPrev
  | None, Some _ => Done (GetCompact (powLimit params))
  | None, None => Pow.GetNextWorkRequired params pindexPrev (blockTime pblock)
  end.

Definition nonceFor (hiveProofScript popProofScript : option CScript) : Z :=
  match hiveProofScript, popProofScript with
  | Some _, _ => hiveNonceMarker params
  | None, Some _ => popNonceMarker params
  | None, None => 0
  end.

(** The end of [CreateNewBlock]: the validity test and what the function
    hands back ([None] is the null template). *)
Definition finishTemplate (t : CBlockTemplate) (pindexPrev : pindex)
    (popProofScript : option CScript) : Exec (option CBlockTemplate) :=
  match TestBlockValidity (block t) pindexPrev with
  | Some stateMessage =>
      if bool_decide (is_Some popProofScript) then Done None
      else Raise ("CreateNewBlock: TestBlockValidity failed: " ++ stateMessage)
  | None => Done (Some t)
  end.

(** [CreateNewBlock] from the point where [addPackageTxs] has returned
    with assembler state [s], up to the validity test: the template. *)
Definition buildTemplate (s : State) (pindexPrev : pindex)
    (scriptPubKeyIn : CScript) (hiveProofScript popProofScript : option CScript)
  : Exec CBlockTemplate :=
  let t := pblocktemplate s in
  let* coinbaseTx := coinbaseFor s scriptPubKeyIn hiveProofScript popProofScript in
  let pblock := setVtx (block t) (coinbaseTx :: drop 1 (vtx (block t))) in
  let '(pblock, commitment) := GenerateCoinbaseCommitment pblock pindexPrev in
  let fees := Int.i64 (- nFees s) :: drop 1 (vTxFees t) in
  let* prev := Pow.deref pindexPrev in
  let pblock := setHeader pblock (nVersion pblock) (hashBlock prev)
                  (blockTime pblock) (blockBits pblock) (blockNonce pblock) in
  let '(pblock, _) := UpdateTime pblock pindexPrev in
  let* bits := bitsFor pindexPrev pblock hiveProofScript popProofScript in
  let pblock := setHeader pblock (nVersion pblock) (hashPrevBlock pblock)
                  (blockTime pblock) bits (nonceFor hiveProofScript popProofScript) in
  let* cb := at_ (vtx pblock) 0 in
  let sigops := WITNESS_SCALE_FACTOR * GetLegacySigOpCount cb :: drop 1 (vTxSigOpsCost t) in
  Done {| block := pblock; vTxFees := fees; vTxSigOpsCost := sigops;
          vchCoinbaseCommitment := commitment |}.

Definition assembleTemplate (s : State) (pindexPrev : pindex)
    (scriptPubKeyIn : CScript) (hiveProofScript popProofScript : option CScript)
  : Exec (option CBlockTemplate) :=
  let* t := buildTemplate s pindexPrev scriptPubKeyIn hiveProofScript popProofScript in
  finishTemplate t pindexPrev popProofScript.

(** The assembler as [CreateNewBlock] has set it up when it calls
    [addPackageTxs]: [resetBlock], the header fields known so far, the
    height, the lock-time cutoff and the two inclusion flags. *)
Definition beforePackages (minFeeRate maxWeight : Z) (tip : CBlockIndex)
    (pindexPrev : pindex) (hiveProofScript popProofScript : option CScript) : State :=
  let s := resetBlock minFeeRate maxWeight in
  let height := Int.i32 (nHeight tip + 1) in
  let version := ComputeBlockVersion pindexPrev in
  let version := if MineBlocksOnDemand then blockversionArg version else version in
  let time := Int.u32 GetAdjustedTime in
  let nMedianTimePast := GetMedianTimePast pindexPrev in
  let t := pblocktemplate s in
  let pblock := setHeader (block t) version 0 time 0 0 in
  {| blockMinFeeRate := blockMinFeeRate s; nBlockMaxWeight := nBlockMaxWeight s;
     nBlockWeight := nBlockWeight s; nBlockTx := nBlockTx s;
     nBlockSigOpsCost := nBlockSigOpsCost s; nFees := nFees s;
     inBlock := inBlock s;
     fIncludeWitness := IsWitnessEnabled pindexPrev;
     fIncludeDCTs :=
       if bool_decide (is_Some hiveProofScript) || bool_decide (is_Some popProofScript)
       then false else fIncludeDCTs s;
     asmHeight := height;
     nLockTimeCutoff := if lockTimeMedianTimePast then nMedianTimePast else time;
     pblocktemplate :=
       {| block := pblock; vTxFees := vTxFees t;
          vTxSigOpsCost := vTxSigOpsCost t;
          vchCoinbaseCommitment := vchCoinbaseCommitment t |} |}.

(** [minFeeRate] and [maxWeight] are the assembler's [blockMinFeeRate] and
    [nBlockMaxWeight]; [fuel] bounds the package loop ([None]: the bound
    was too small). *)
Definition CreateNewBlock (fuel : nat) (minFeeRate maxWeight : Z)
    (scriptPubKeyIn : CScript) (hiveProofScript popProofScript : option CScript)
  : option (Exec (option CBlockTemplate)) :=
  let pindexPrev := chainActive_Tip in
  match pindexPrev with
  | [] => Some (Crash "assert(pindexPrev != nullptr)")
  | tip :: _ =>
      let s := beforePackages minFeeRate maxWeight tip pindexPrev
                 hiveProofScript popProofScript in
      match addPackageTxs fuel s 0 0 with
      | None => None
      | Some r =>
          Some (let* l := r in
                assembleTemplate (asm l) pindexPrev scriptPubKeyIn
                  hiveProofScript popProofScript)
      end
  end.

End WithEnv.
End Assembler.

(** ** [pow.cpp]: [CheckProofOfWork] *)

(** The two flags [arith_uint256::SetCompact] reports besides the target. *)
Class CompactFlags : Type := {
  compactNegative : Z -> bool;
  compactOverflow : Z -> bool
}.

Module ProofOfWork.
Section WithHeader.
Context `{Header} `{CompactFlags}.
Variable params : Params.

(** [hash] is [UintToArith256(hash)]. *)
Definition CheckProofOfWork (hash nBits : Z) : bool :=
  let fNegative := compactNegative nBits in
  let fOverflow := compactOverflow nBits in
  let bnTarget := SetCompact nBits in
  if fNegative || (bnTarget =? 0) || fOverflow
     || (powLimitInitialDistribution params <? bnTarget)
  then false
  else if bnTarget <? hash then false
  else true.

End WithHeader.
End ProofOfWork.

(** ** [miner.cpp]: the Hive miner's work units *)

Module CDwarfCreationTransactionInfo.
Record t : Type := {
  txid : bytes;
  rewardAddress : string;
  communityContrib : bool;
  dwarfCount : Z;
  dwarfStatus : string
}.
End CDwarfCreationTransactionInfo.

Module CDwarfRange.
Record t : Type := {
  txid : bytes;
  rewardAddress : string;
  communityContrib : bool;
  offset : Z;
  count : Z
}.
End CDwarfRange.

(** Modelled from the spec: [WriteLE32] of [crypto/common.h] and the
    vector push of [script/script.h], which are not part of the two files.
    A 32-bit number is written as four little-endian bytes, and each field
    of the proof is preceded by a one-byte push length; a push of 76 bytes
    or more has another form, which is left out ([None]). *)
Definition byteOfZ (n : Z) : Byte.byte :=
  default Byte.x00 (Byte.of_N (Z.to_N (n mod 256))).

Definition WriteLE32 (n : Z) : bytes :=
  [byteOfZ n; byteOfZ (n / 256); byteOfZ (n / 65536); byteOfZ (n / 16777216)].

Definition pushData (v : bytes) : option bytes :=
  if (length v <? 76)%nat then Some (byteOfZ (Z.of_nat (length v)) :: v) else None.

Module HiveMiner.
Section WithEnv.
Context `{Header} `{Node} `{MinerEnv}.
Variable params : Params.

Abbreviation dctInfo := CDwarfCreationTransactionInfo.t.
Abbreviation dwarfRange := CDwarfRange.t.

Definition isMature (dct : dctInfo) : bool :=
  bool_decide (CDwarfCreationTransactionInfo.dwarfStatus dct = "mature").

(** "Find bin size": the mature DCTs, in order, and [totalDwarves]. *)
Definition matureDcts (potentialDcts : list dctInfo) : list dctInfo * Z :=
  foldl
    (fun '(dcts, totalDwarves) dct =>
       if isMature dct
       then (dcts ++ [dct],
             Int.i32 (totalDwarves + CDwarfCreationTransactionInfo.dwarfCount dct))
       else (dcts, totalDwarves))
    ([], 0) potentialDcts.

(** [threadCount] from the [-hivecheckthreads] argument and the number of
    cores. *)
Definition hiveThreadCount (arg coreCount : Z) : Z :=
  if arg =? -2 then Z.max 1 (Int.i32 (coreCount - 1))
  else if (arg <? 0) || (coreCount <? arg) then coreCount
  else if arg =? 0 then 1
  else arg.

Definition rangeOf (dct : dctInfo) (offset count : Z) : dwarfRange :=
  {| CDwarfRange.txid := CDwarfCreationTransactionInfo.txid dct;
     CDwarfRange.rewardAddress := CDwarfCreationTransactionInfo.rewardAddress dct;
     CDwarfRange.communityContrib := CDwarfCreationTransactionInfo.communityContrib dct;
     CDwarfRange.offset := offset;
     CDwarfRange.count := count |}.

(** [do { dctIterator++; if (dctIterator == dcts.end()) break;
         dct = *dctIterator; } while (dct.dwarfStatus != "mature")],
    from the position after the increment. *)
Fixpoint nextMature (rest : list dctInfo) : list dctInfo :=
  match rest with
  | [] => rest
  | dct :: rest' => if isMature dct then rest else nextMature rest'
  end.

(** The inner [while]: "keep filling it until full".  [n] bounds the
    iterations; each takes a DCT off [dcts] or ends the loop, so
    [length dcts] is enough.  The result is the bin, the DCTs from the
    iterator on and [dwarfOffset]. *)
Fixpoint fillBin (n : nat) (dwarvesPerBin : Z) (dcts : list dctInfo)
    (dwarfOffset : Z) (currentBin : list dwarfRange) (dwarvesInBin : Z)
  : list dwarfRange * list dctInfo * Z :=
  match n, dcts with
  | S n', dct :: rest =>
      let spaceLeft := Int.i32 (dwarvesPerBin - dwarvesInBin) in
      let left := Int.i32 (CDwarfCreationTransactionInfo.dwarfCount dct - dwarfOffset) in
      if left <=? spaceLeft then
        fillBin n' dwarvesPerBin (nextMature rest) 0
          (currentBin ++ [rangeOf dct dwarfOffset left])
          (Int.i32 (dwarvesInBin + left))
      else
        (currentBin ++ [rangeOf dct dwarfOffset spaceLeft], dcts,
         Int.i32 (dwarfOffset + spaceLeft))
  | _, _ => (currentBin, dcts, dwarfOffset)
  end.

(** The outer [while]: "until we're out of DCTs"; [None] when [fuel] bins
    do not exhaust them. *)
Fixpoint binLoop (fuel : nat) (dwarvesPerBin : Z) (dcts : list dctInfo)
    (dwarfOffset : Z) (dwarfBins : list (list dwarfRange))
  : option (list (list dwarfRange)) :=
  match dcts with
  | [] => Some dwarfBins
  | _ :: _ =>
      match fuel with
      | O => None
      | S fuel' =>
          let '(currentBin, dcts', dwarfOffset') :=
            fillBin (length dcts) dwarvesPerBin dcts dwarfOffset [] 0 in
          binLoop fuel' dwarvesPerBin dcts' dwarfOffset' (dwarfBins ++ [currentBin])
      end
  end.

(** "Bin the dwarves according to desired thread count", with as many
    bins allowed as there are DCTs and dwarves counted in
    [totalDwarves]. *)
Definition binDwarves (dwarvesPerBin totalDwarves : Z) (dcts : list dctInfo)
  : option (list (list dwarfRange)) :=
  binLoop (S (length dcts + Z.to_nat totalDwarves)) dwarvesPerBin dcts 0 [].

(** *** [CheckBin] *)

(** The hash of dwarf [i] of the DCT [txid]. *)
Definition dwarfHashOf (deterministicRandString txid : bytes) (i : Z) : Z :=
  MinotaurHashArbitrary
    (ToString (MinotaurHashArbitrary (deterministicRandString ++ txid ++ to_string i))).

Inductive BinOutcome : Type :=
| Solved (solvingRange : dwarfRange) (solvingDwarf : Z)
| Stopped
| OutOfTasks.

(** The loop over the dwarves of one range, [n] of them left from [i] on.
    [stopRequested c] is what [solutionFound.load() || earlyAbort.load()]
    gives when it is read with [checkCount = c].  [inr c] is the range
    exhausted with [checkCount = c]. *)
Fixpoint checkDwarves (stopRequested : Z -> bool) (deterministicRandString : bytes)
    (dwarfHashTarget : Z) (range : dwarfRange) (n : nat) (i checkCount : Z)
  : BinOutcome + Z :=
  match n with
  | O => inr checkCount
  | S n' =>
      if (Z.rem checkCount 1000 =? 0) && stopRequested checkCount then inl Stopped
      else if dwarfHashOf deterministicRandString (CDwarfRange.txid range) i
              <? dwarfHashTarget
      then inl (Solved range i)
      else checkDwarves stopRequested deterministicRandString dwarfHashTarget
             range n' (Int.i32 (i + 1)) (Int.i32 (checkCount + 1))
  end.

Fixpoint checkRanges (stopRequested : Z -> bool) (deterministicRandString : bytes)
    (dwarfHashTarget : Z) (bin : list dwarfRange) (checkCount : Z) : BinOutcome :=
  match bin with
  | [] => OutOfTasks
  | range :: rest =>
      let first := CDwarfRange.offset range in
      let last := Int.i32 (CDwarfRange.offset range + CDwarfRange.count range) in
      match checkDwarves stopRequested deterministicRandString dwarfHashTarget
              range (Z.to_nat (last - first)) first checkCount with
      | inl outcome => outcome
      | inr checkCount' =>
          checkRanges stopRequested deterministicRandString dwarfHashTarget
            rest checkCount'
      end
  end.

Definition CheckBin (stopRequested : Z -> bool) (bin : list dwarfRange)
    (deterministicRandString : bytes) (dwarfHashTarget : Z) : BinOutcome :=
  checkRanges stopRequested deterministicRandString dwarfHashTarget bin 0.

(** *** "Assemble the Hive proof script" *)

(** [hiveProofScript << OP_RETURN << OP_DWARF << dwarfNonceVec <<
     dctHeightVec << communityContribFlag << txidVec << messageProofVec];
    [OP_FALSE] is [OP_0]. *)
Definition hiveProofScript (solvingDwarf dctHeight : Z) (communityContrib : bool)
    (txidVec messageProofVec : bytes) : option CScript :=
  nonce ← pushData (WriteLE32 solvingDwarf);
  height ← pushData (WriteLE32 dctHeight);
  txid ← pushData txidVec;
  sig ← pushData messageProofVec;
  Some ([OP_RETURN; OP_DWARF] ++ nonce ++ height
        ++ [if communityContrib then OP_TRUE else OP_0] ++ txid ++ sig).

End WithEnv.
End HiveMiner.

(** ** [pow.cpp]: the RandomX [ScanHash] *)

(** [randomx_create_vm] (whether it yields a VM when called for a nonce)
    and [randomx_calculate_hash] on the serialised header, a [uint256]
    read as a number. *)
Class RandomXEnv : Type := {
  randomx_create_vm : Z -> bool;
  randomx_calculate_hash : CBlock -> Z
}.

Module RandomX.
Section WithEnv.
Context `{MinerEnv} `{RandomXEnv}.

(** The [while (true)] loop, [fuel] iterations at most; the result is as
    for the [ScanHash] of [miner.cpp]. *)
Fixpoint ScanHash_loop (fuel : nat) (pblock : CBlock) (nNonce phash : Z)
  : option Miner.ScanResult :=
  match fuel with
  | O => None
  | S fuel' =>
      let nNonce := Int.u32 (nNonce + 1) in
      let pblock := setNonce pblock nNonce in
      if negb (randomx_create_vm nNonce) then
        Some {| Miner.scanFound := Done false; Miner.scanBlock := pblock;
                Miner.scanNonce := nNonce; Miner.scanHash := phash |}
      else
        let hash := randomx_calculate_hash pblock in
        if (ByteAt hash 31 =? 0) && (ByteAt hash 30 =? 0) then
          Some {| Miner.scanFound := Done true; Miner.scanBlock := pblock;
                  Miner.scanNonce := nNonce; Miner.scanHash := hash |}
        else if Z.land nNonce 65535 =? 0 then
          Some {| Miner.scanFound := Done false; Miner.scanBlock := pblock;
                  Miner.scanNonce := nNonce; Miner.scanHash := phash |}
        else if (Z.land nNonce 4095 =? 0) && interruption_requested nNonce then
          Some {| Miner.scanFound := Raise "boost::thread_interrupted";
                  Miner.scanBlock := pblock;
                  Miner.scanNonce := nNonce; Miner.scanHash := phash |}
        else ScanHash_loop fuel' pblock nNonce phash
  end.

(** No call runs the loop more than 65536 times. *)
Definition ScanHash (pblock : CBlock) (nNonce phash : Z) : option Miner.ScanResult :=
  ScanHash_loop (Z.to_nat 65536) pblock nNonce phash.

End WithEnv.
End RandomX.

(** ** [miner.cpp]: [MinerThread], the RNG block

    The fields of [Consensus::Params] that the fragment reads: the
    spacing and the confirmations are used as [int]s, the amounts and the
    vote ratio as [CAmount]s. *)
Record RngParams : Type := {
  nRNGBlockSpacing : Z;
  nBurnBlockConfirmations : Z;
  nMinBurnAmount : Z;
  nBurnVoteRatio : Z
}.

Record CTxBurn : Type := {
  amount : Z
}.

(** [a % b] on [int]s: a trap on a zero divisor and on [INT_MIN % -1]. *)
Definition rem32 (a b : Z) : Exec Z :=
  if b =? 0 then Crash "integer division by zero"
  else if (a =? - 2 ^ 31) && (b =? -1) then Crash "integer division overflow"
  else Done (Z.rem a b).

(** [a % b] on [uint64_t]s. *)
Definition urem64 (a b : Z) : Exec Z :=
  if b =? 0 then Crash "integer division by zero" else Done (a mod b).

Module RngBlock.
Section WithParams.
Variable rng : RngParams.

(** "Calculate total burn amount and votes": [(totalBurned, totalVotes)]. *)
Fixpoint tally (vBurns : list CTxBurn) (totalBurned totalVotes : Z) : Exec (Z * Z) :=
  match vBurns with
  | [] => Done (totalBurned, totalVotes)
  | burn :: rest =>
      if nMinBurnAmount rng <=? amount burn then
        let* votes := div64 (amount burn) (nBurnVoteRatio rng) in
        tally rest (Int.i64 (totalBurned + amount burn)) (Int.u64 (totalVotes + votes))
      else tally rest totalBurned totalVotes
  end.

(** "Find winning burn transaction": [winner]. *)
Fixpoint findWinner (vBurns : list CTxBurn) (winningVote voteCount : Z)
  : Exec (option CTxBurn) :=
  match vBurns with
  | [] => Done None
  | burn :: rest =>
      let* q := div64 (amount burn) (nBurnVoteRatio rng) in
      let votes := Int.u64 q in
      if (voteCount <=? winningVote) && (winningVote <? Int.u64 (voteCount + votes))
      then Done (Some burn)
      else findWinner rest winningVote (Int.u64 (voteCount + votes))
  end.

(** The block "Check if this is an RNG block" over the burns [vBurns];
    [pindexBurn] is computed and not used. *)
Definition selectWinner (tip : CBlockIndex) (vBurns : list CTxBurn)
  : Exec (option CTxBurn) :=
  let* r := rem32 (nHeight tip) (nRNGBlockSpacing rng) in
  if r =? 0 then
    let* '(totalBurned, totalVotes) := tally vBurns 0 0 in
    let rand := Int.u64 (hashBlock tip) in
    let* winningVote := urem64 rand totalVotes in
    findWinner vBurns winningVote 0
  else Done None.

(** As [MinerThread] has it: [vBurns] is declared and never filled. *)
Definition rngBlock (tip : CBlockIndex) : Exec (option CTxBurn) :=
  selectWinner tip [].

End WithParams.
End RngBlock.

(** ** [pow.cpp]: [GetNetworkHiveInfo] *)

Module HiveInfo.

(** One point of the global [dwarfPopGraph]. *)
Record CDwarfPopGraphPoint : Type := {
  immaturePop : Z;
  maturePop : Z
}.

(** The five reference parameters. *)
Record Counts : Type := {
  immatureDwarves : Z;
  immatureDCTs : Z;
  matureDwarves : Z;
  matureDCTs : Z;
  potentialLifespanRewards : Z
}.

(** What the function reads besides [Params] and the validator's
    collaborators: two more [int] fields of [Consensus::Params], the Hive
    subsidy, the node's download and pruning state, the block index
    entry's [nStatus & BLOCK_HAVE_DATA] and [nTx], the block store, the
    dwarf cost at a height, and [IsDCT] with its fee result
    ([tx->IsDCT(consensusParams, scriptPubKeyBCF, &dwarfFeePaid)]). *)
Class Env : Type := {
  hiveBlockSpacingTargetTypical : Z;
  popBlocksPerHive : Z;
  GetBlockSubsidyHive : Z;
  IsInitialBlockDownload : bool;
  fHavePruned : bool;
  haveData : CBlockIndex -> bool;
  nTx : CBlockIndex -> Z;
  ReadBlockFromDisk : CBlockIndex -> option CBlock;
  GetDwarfCost : Z -> Z;
  IsDCT : CTransaction -> CScript -> option Z
}.

Section WithEnv.
Context `{Header} `{Node} `{Env}.
Variable params : Params.

(** [dwarfPopGraph] is an array: a write outside it is undefined. *)
Definition setPoint (graph : list CDwarfPopGraphPoint) (i : Z)
    (f : CDwarfPopGraphPoint -> CDwarfPopGraphPoint) : Exec (list CDwarfPopGraphPoint) :=
  if (0 <=? i) && (i <? Z.of_nat (length graph))
  then Done (alter f (Z.to_nat i) graph)
  else Crash "index out of range".

(** The [if (recalcGraph)] loop that clears the graph, [n] points left
    from [i] on. *)
Fixpoint clearGraph (n : nat) (i : Z) (graph : list CDwarfPopGraphPoint)
  : Exec (list CDwarfPopGraphPoint) :=
  match n with
  | O => Done graph
  | S n' =>
      let* graph := setPoint graph i (fun _ => {| immaturePop := 0; maturePop := 0 |}) in
      clearGraph n' (i + 1) graph
  end.

(** "Add these dwarves to pop graph": the loop over [j], [n] heights left. *)
Fixpoint graphDwarves (n : nat) (j tipHeight dwarfMaturesBlock totalDwarfLifespan
    dwarfCount : Z) (graph : list CDwarfPopGraphPoint)
  : Exec (list CDwarfPopGraphPoint) :=
  match n with
  | O => Done graph
  | S n' =>
      let graphPos := Int.i32 (j - tipHeight) in
      let* graph :=
        if (0 <? graphPos) && (graphPos <? totalDwarfLifespan) then
          if j <? dwarfMaturesBlock then
            setPoint graph graphPos
              (fun p => {| immaturePop := Int.i32 (immaturePop p + dwarfCount);
                           maturePop := maturePop p |})
          else
            setPoint graph graphPos
              (fun p => {| immaturePop := immaturePop p;
                           maturePop := Int.i32 (maturePop p + dwarfCount) |})
        else Done graph in
      graphDwarves n' (j + 1) tipHeight dwarfMaturesBlock totalDwarfLifespan
        dwarfCount graph
  end.

(** "If it has a community fund contrib... check for valid donation
    amount": [None] is [continue], otherwise the new [dwarfFeePaid]. *)
Definition withDonation (dwarfFeePaid donationAmount : Z) : Exec (option Z) :=
  let* expectedDonationAmount :=
    div64 (Int.i64 (dwarfFeePaid + donationAmount)) (communityContribFactor params) in
  if negb (donationAmount =? expectedDonationAmount) then Done None
  else Done (Some (Int.i64 (dwarfFeePaid + donationAmount))).

(** The body of the loop over the transactions of a block [i] blocks
    behind the tip. *)
Definition countTx (recalcGraph : bool) (i blockHeight tipHeight totalDwarfLifespan
    dwarfCost : Z) (acc : Counts * list CDwarfPopGraphPoint) (tx : CTransaction)
  : Exec (Counts * list CDwarfPopGraphPoint) :=
  let scriptPubKeyBCF := GetScriptForAddress (dwarfCreationAddress params) in
  let scriptPubKeyCF := GetScriptForAddress (hiveCommunityAddress params) in
  match IsDCT tx scriptPubKeyBCF with
  | None => Done acc
  | Some dwarfFeePaid =>
      let* paid :=
        match vout tx !! 1%nat with
        | Some o =>
            if bool_decide (scriptPubKey o = scriptPubKeyCF)
            then withDonation dwarfFeePaid (nValue o)
            else Done (Some dwarfFeePaid)
        | None => Done (Some dwarfFeePaid)
        end in
      match paid with
      | None => Done acc
      | Some dwarfFeePaid =>
          let* q := div64 dwarfFeePaid dwarfCost in
          let dwarfCount := Int.i32 q in
          let '(c, graph) := acc in
          let c :=
            if i <? dwarfGestationBlocks params then
              {| immatureDwarves := Int.i32 (immatureDwarves c + dwarfCount);
                 immatureDCTs := Int.i32 (immatureDCTs c + 1);
                 matureDwarves := matureDwarves c; matureDCTs := matureDCTs c;
                 potentialLifespanRewards := potentialLifespanRewards c |}
            else
              {| immatureDwarves := immatureDwarves c; immatureDCTs := immatureDCTs c;
                 matureDwarves := Int.i32 (matureDwarves c + dwarfCount);
                 matureDCTs := Int.i32 (matureDCTs c + 1);
                 potentialLifespanRewards := potentialLifespanRewards c |} in
          if recalcGraph then
            let dwarfBornBlock := blockHeight in
            let dwarfMaturesBlock := Int.i32 (dwarfBornBlock + dwarfGestationBlocks params) in
            let dwarfDiesBlock := Int.i32 (dwarfMaturesBlock + dwarfLifespanBlocks params) in
            let* graph :=
              graphDwarves (Z.to_nat (dwarfDiesBlock - dwarfBornBlock)) dwarfBornBlock
                tipHeight dwarfMaturesBlock totalDwarfLifespan dwarfCount graph in
            Done (c, graph)
          else Done (c, graph)
      end
  end.

Fixpoint countTxs (recalcGraph : bool) (i blockHeight tipHeight totalDwarfLifespan
    dwarfCost : Z) (txs : list CTransaction) (acc : Counts * list CDwarfPopGraphPoint)
  : Exec (Counts * list CDwarfPopGraphPoint) :=
  match txs with
  | [] => Done acc
  | tx :: rest =>
      let* acc := countTx recalcGraph i blockHeight tipHeight totalDwarfLifespan
                    dwarfCost acc tx in
      countTxs recalcGraph i blockHeight tipHeight totalDwarfLifespan dwarfCost rest acc
  end.

(** "Count dwarves in next blockCount blocks": the loop over [i], [n]
    iterations left.  The result is the value returned with the
    counters and the graph. *)
Fixpoint scan (recalcGraph : bool) (n : nat) (i tipHeight totalDwarfLifespan : Z)
    (pindexPrev : pindex) (acc : Counts * list CDwarfPopGraphPoint)
  : Exec (bool * (Counts * list CDwarfPopGraphPoint)) :=
  match n with
  | O => Done (true, acc)
  | S n' =>
      match pindexPrev with
      | [] => Crash "null CBlockIndex dereferenced"
      | b :: pprev =>
          if nHeight b <? minHiveCheckBlock params then Done (true, acc)
          else if fHavePruned && negb (haveData b) && (0 <? nTx b) then Done (false, acc)
          else
            let* counted :=
              if negb (IsHiveMined params b) then
                match ReadBlockFromDisk b with
                | None => Done None
                | Some block =>
                    let blockHeight := nHeight b in
                    let dwarfCost := GetDwarfCost blockHeight in
                    let* acc := countTxs recalcGraph i blockHeight tipHeight
                                  totalDwarfLifespan dwarfCost (vtx block) acc in
                    Done (Some acc)
                end
              else Done (Some acc) in
            match counted with
            | None => Done (false, acc)
            | Some acc =>
                match pprev with
                | [] => Done (true, acc)
                | _ :: _ => scan recalcGraph n' (i + 1) tipHeight totalDwarfLifespan pprev acc
                end
            end
      end
  end.

(** [tip] is [chainActive.Tip()], [dwarfPopGraph] the global graph. *)
Definition GetNetworkHiveInfo (tip : pindex) (dwarfPopGraph : list CDwarfPopGraphPoint)
    (recalcGraph : bool) : Exec (bool * (Counts * list CDwarfPopGraphPoint)) :=
  let totalDwarfLifespan :=
    Int.i32 (dwarfLifespanBlocks params + dwarfGestationBlocks params) in
  let* _ := assert (bool_decide (tip ≠ [])) "assert(pindexPrev != nullptr)" in
  let* tipBlock := Pow.deref tip in
  let tipHeight := nHeight tipBlock in
  let* rewards :=
    div64 (Int.i64 (dwarfLifespanBlocks params * GetBlockSubsidyHive))
      (Int.i32 (hiveBlockSpacingTargetTypical + popBlocksPerHive)) in
  let c := {| immatureDwarves := 0; immatureDCTs := 0; matureDwarves := 0;
              matureDCTs := 0; potentialLifespanRewards := rewards |} in
  let* graph :=
    if recalcGraph then clearGraph (Z.to_nat totalDwarfLifespan) 0 dwarfPopGraph
    else Done dwarfPopGraph in
  if IsInitialBlockDownload then Done (false, (c, graph))
  else scan recalcGraph (Z.to_nat totalDwarfLifespan) 0 tipHeight totalDwarfLifespan
         tip (c, graph).

End WithEnv.
End HiveInfo.

(** ** A small instance of the interfaces

    Enough of a node to run the embedding on concrete chains: a header is
    Hive- or Pop-mined when its nonce is the marker, compact targets are
    the targets themselves, and the script, key and mempool services are
    trivial. *)

Module Sample.

Definition header : Header :=
  {| SetCompact := fun bits => bits;
     GetCompact := fun target => target;
     IsHiveMined := fun p b => nNonce b =? hiveNonceMarker p;
     IsPopMined := fun p b => nNonce b =? popNonceMarker p |}.

Definition node : Node :=
  {| CTxDestination := Z; CKeyID := Z; CPubKey := Z;
     OP_RETURN := Byte.x6a; OP_DWARF := Byte.xc1; OP_TRUE := Byte.x51;
     ReadLE32 := fun bs =>
       foldr (fun b acc => byteZ b + 256 * acc) 0 (take 4 bs);
     GetDeterministicRandString := fun _ => [];
     MinotaurHashArbitrary := fun bs => Z.of_nat (length bs);
     ToString := fun _ => [];
     to_string := fun _ => [];
     ExtractDestination := fun s => Some (Z.of_nat (length s));
     IsValidDestination := fun _ => true;
     getKeyID := fun d => Some d;
     hashString := fun bs => Z.of_nat (length bs);
     RecoverCompact := fun h _ => Some h;
     GetID := fun k => k;
     uint256S := fun bs => Z.of_nat (length bs);
     GetScriptForAddress := fun _ => [];
     IsCoinBase := fun tx => bool_decide (length (vin tx) = 1%nat);
     IsDCT := fun _ _ _ => false;
     IsDCTScript := fun s _ => Some s;
     GetTxByHashAndHeight := fun _ _ _ _ => None |}.

Definition byteOf (n : Z) : Byte.byte :=
  default Byte.x00 (Byte.of_N (Z.to_N (n mod 256))).

(** A number pushed as four little-endian bytes behind their length. *)
Definition push4 (n : Z) : bytes :=
  [Byte.x04; byteOf n; byteOf (n / 256); byteOf (n / 65536); byteOf (n / 16777216)].

Definition minerEnv : MinerEnv :=
  {| pushInt := push4;
     pushScriptNum := push4;
     OP_0 := Byte.x00;
     COINBASE_FLAGS := [];
     BlockMerkleRoot := fun b => Z.of_nat (length (vtx b));
     GetPowHash := fun b => (blockNonce b * 2 ^ 240) mod 2 ^ 256;
     interruption_requested := fun _ => false |}.

Definition params : Params :=
  {| powLimit := 2 ^ 236; powLimitInitialDistribution := 2 ^ 240;
     powLimitHive := 2 ^ 236; lastInitialDistributionHeight := 0;
     fPowAllowMinDifficultyBlocks := false; nPowTargetSpacing := 60;
     hiveDifficultyWindow := 24; minHiveCheckBlock := 1;
     hiveBlockSpacingTarget := 2; slowStartBlocks := 0;
     maxConsecutiveHiveBlocks := 2; dwarfGestationBlocks := 1;
     dwarfLifespanBlocks := 10; dwarfCost := 10000;
     communityContribFactor := 10;
     dwarfCreationAddress := "creation"; hiveCommunityAddress := "community";
     hiveNonceMarker := 192; popNonceMarker := 128 |}.

Definition blockAt (height nonce bits time : Z) : CBlockIndex :=
  {| nHeight := height; nBits := bits; nTime := time; nNonce := nonce;
     hashBlock := height |}.

(** Tip first: Hive, Pop, Hive, PoW, genesis. *)
Definition mixedChain : pindex :=
  [ blockAt 4 192 1000 240; blockAt 3 128 1000 180; blockAt 2 192 1000 120;
    blockAt 1 7 1000 60; blockAt 0 0 1000 0 ].

(** A longer chain, tip first: a Hive-mined tip at height 26, then 24 PoW
    blocks a minute apart at heights 25 down to 2, each with target 2400,
    then the block at height 1 and the genesis block. *)
Definition powBlockAt (i : nat) : CBlockIndex :=
  blockAt (25 - Z.of_nat i) 7 2400 (1500 - 60 * Z.of_nat i).

Definition longChain : pindex :=
  blockAt 26 192 1000 1530 :: map powBlockAt (seq 0 24)
  ++ [ blockAt 1 7 2400 60; blockAt 0 0 2400 0 ].

(** A Hive proof script as [BusyDwarves] encodes it: the dwarf nonce in
    one byte, DCT height 3, the community flag, a 64-byte txid and a
    65-byte signature; 144 bytes. *)
Definition proofScript (nonce flag : Byte.byte) : CScript :=
  [Byte.x6a; Byte.xc1;
   Byte.x04; nonce; Byte.x00; Byte.x00; Byte.x00;
   Byte.x04; Byte.x03; Byte.x00; Byte.x00; Byte.x00;
   flag; Byte.x40]
  ++ replicate 64 Byte.x30 ++ [Byte.x41] ++ replicate 65 Byte.x00.

(** A Hive block on top of [mixedChain] carrying that proof. *)
Definition hiveBlock (nonce flag : Byte.byte) : CBlock :=
  {| nVersion := 1; hashPrevBlock := 4; hashMerkleRoot := 0; blockTime := 300;
     blockBits := 1000; blockNonce := 192;
     vtx := [ {| vin := [ {| prevoutNull := true; scriptSig := [] |} ];
                 vout := [ {| nValue := 0; scriptPubKey := proofScript nonce flag |};
                           {| nValue := 50; scriptPubKey := [] |} ] |} ] |}.

(** The chain state: [mixedChain] indexed under its tip's hash, and a UTXO
    set holding the DCT's output 0 (worth [dctValue]) and output 1 (worth
    [donation], paid to the community script), both created at height 3. *)
Definition chainState (dctValue donation : Z) : ChainState :=
  {| mapBlockIndex := {[ 4 := mixedChain ]};
     pcoinsTip :=
       Some (<[ (64, 0) := {| out := {| nValue := dctValue; scriptPubKey := [] |};
                              coinHeight := 3 |} ]>
             (<[ (64, 1) := {| out := {| nValue := donation; scriptPubKey := [] |};
                               coinHeight := 3 |} ]> ∅)) |}.

(** A mempool of unrelated transactions of 250 bytes each, listed in
    [pool], on top of [mixedChain]; [validity] is what [TestBlockValidity]
    answers. *)
Definition assemblerEnv (pool : list txiter) (validity : option string)
  : AssemblerEnv :=
  {| WITNESS_SCALE_FACTOR := 4; MAX_BLOCK_WEIGHT := 4000000;
     MAX_BLOCK_SIGOPS_COST := 80000;
     mapTx_ancestor_score := pool;
     GetSharedTx := fun _ => {| vin := [ {| prevoutNull := false; scriptSig := [] |} ];
                                vout := [ {| nValue := 1; scriptPubKey := [] |} ] |};
     GetTxSize := fun _ => 250; GetTxWeight := fun _ => 1000;
     GetFee := fun _ => 500; GetModifiedFee := fun _ => 500;
     GetSigOpCost := fun _ => 4;
     GetSizeWithAncestors := fun _ => 250;
     GetModFeesWithAncestors := fun _ => 500;
     GetSigOpCostWithAncestors := fun _ => 4;
     CalculateMemPoolAncestors := fun _ => ∅;
     CalculateDescendants := fun it => {[ it ]};
     CompareTxMemPoolEntryByAncestorFee := fun a b => (iter a <? iter b)%nat;
     CompareTxIterByAncestorCount := fun a b => (a <? b)%nat;
     IsFinalTx := fun _ _ _ => true;
     HasWitness := fun _ => false;
     FeeRate_GetFee := fun rate size => rate * size / 1000;
     chainActive_Tip := mixedChain;
     GetAdjustedTime := 300;
     GetMedianTimePast := fun _ => 120;
     ComputeBlockVersion := fun _ => 1;
     MineBlocksOnDemand := false;
     blockversionArg := fun dflt => dflt;
     lockTimeMedianTimePast := true;
     IsWitnessEnabled := fun _ => true;
     GetBlockSubsidyHive := 50; GetBlockSubsidyPopPrivate := 20;
     GetBlockSubsidyPopPublic := 10; GetBlockSubsidyPow := fun _ => 100;
     GenerateCoinbaseCommitment := fun b _ => (b, []);
     GetLegacySigOpCount := fun _ => 1;
     TestBlockValidity := fun _ _ => validity |}.

End Sample.

(** ** A wallet, a bin and a closed mempool

    Three DCTs of a wallet for the Hive miner, a bin of two ranges over
    them, and the mempool of [Sample.assemblerEnv] with
    [CalculateDescendants] confined to its entries. *)

Module SampleHive.

Definition dct (txid : Byte.byte) (count : Z) (status : string)
  : CDwarfCreationTransactionInfo.t :=
  {| CDwarfCreationTransactionInfo.txid := replicate 64 txid;
     CDwarfCreationTransactionInfo.rewardAddress := "reward";
     CDwarfCreationTransactionInfo.communityContrib := false;
     CDwarfCreationTransactionInfo.dwarfCount := count;
     CDwarfCreationTransactionInfo.dwarfStatus := status |}.

(** Five mature dwarves, seven immature ones and four mature ones. *)
Definition potentialDcts : list CDwarfCreationTransactionInfo.t :=
  [ dct Byte.x61 5 "mature"; dct Byte.x62 7 "immature"; dct Byte.x63 4 "mature" ].

(** The last two dwarves of the first DCT and the first of the third. *)
Definition bin : list CDwarfRange.t :=
  [ HiveMiner.rangeOf (dct Byte.x61 5 "mature") 3 2;
    HiveMiner.rangeOf (dct Byte.x63 4 "mature") 0 1 ].

Definition assemblerEnv (pool : list txiter) (validity : option string)
  : AssemblerEnv :=
  let env := Sample.assemblerEnv pool validity in
  {| WITNESS_SCALE_FACTOR := @WITNESS_SCALE_FACTOR env;
     MAX_BLOCK_WEIGHT := @MAX_BLOCK_WEIGHT env;
     MAX_BLOCK_SIGOPS_COST := @MAX_BLOCK_SIGOPS_COST env;
     mapTx_ancestor_score := @mapTx_ancestor_score env;
     GetSharedTx := @GetSharedTx env;
     GetTxSize := @GetTxSize env; GetTxWeight := @GetTxWeight env;
     GetFee := @GetFee env; GetModifiedFee := @GetModifiedFee env;
     GetSigOpCost := @GetSigOpCost env;
     GetSizeWithAncestors := @GetSizeWithAncestors env;
     GetModFeesWithAncestors := @GetModFeesWithAncestors env;
     GetSigOpCostWithAncestors := @GetSigOpCostWithAncestors env;
     CalculateMemPoolAncestors := @CalculateMemPoolAncestors env;
     CalculateDescendants := fun it => {[ it ]} ∩ list_to_set pool;
     CompareTxMemPoolEntryByAncestorFee := @CompareTxMemPoolEntryByAncestorFee env;
     CompareTxIterByAncestorCount := @CompareTxIterByAncestorCount env;
     IsFinalTx := @IsFinalTx env;
     HasWitness := @HasWitness env;
     FeeRate_GetFee := @FeeRate_GetFee env;
     chainActive_Tip := @chainActive_Tip env;
     GetAdjustedTime := @GetAdjustedTime env;
     GetMedianTimePast := @GetMedianTimePast env;
     ComputeBlockVersion := @ComputeBlockVersion env;
     MineBlocksOnDemand := @MineBlocksOnDemand env;
     blockversionArg := @blockversionArg env;
     lockTimeMedianTimePast := @lockTimeMedianTimePast env;
     IsWitnessEnabled := @IsWitnessEnabled env;
     GetBlockSubsidyHive := @GetBlockSubsidyHive env;
     GetBlockSubsidyPopPrivate := @GetBlockSubsidyPopPrivate env;
     GetBlockSubsidyPopPublic := @GetBlockSubsidyPopPublic env;
     GetBlockSubsidyPow := @GetBlockSubsidyPow env;
     GenerateCoinbaseCommitment := @GenerateCoinbaseCommitment env;
     GetLegacySigOpCount := @GetLegacySigOpCount env;
     TestBlockValidity := @TestBlockValidity env |}.

(** [CheckProofOfWork] on compact targets that are the targets
    themselves: none is negative or overflows. *)
Definition compactFlags : CompactFlags :=
  {| compactNegative := fun _ => false; compactOverflow := fun _ => false |}.

End SampleHive.

(** ** A block store for [GetNetworkHiveInfo]

    Every block on disk holds one DCT that paid 20000 and donated 2222 to
    the community fund; a dwarf costs 10000 at every height. *)

Module SampleInfo.

Definition dctTx (dwarfFeePaid donationAmount : Z) : CTransaction :=
  {| vin := [ {| prevoutNull := false; scriptSig := [] |} ];
     vout := [ {| nValue := dwarfFeePaid; scriptPubKey := [] |};
               {| nValue := donationAmount; scriptPubKey := [] |} ] |}.

Definition env : HiveInfo.Env :=
  {| HiveInfo.hiveBlockSpacingTargetTypical := 2;
     HiveInfo.popBlocksPerHive := 1;
     HiveInfo.GetBlockSubsidyHive := 50;
     HiveInfo.IsInitialBlockDownload := false;
     HiveInfo.fHavePruned := false;
     HiveInfo.haveData := fun _ => true;
     HiveInfo.nTx := fun _ => 1;
     HiveInfo.ReadBlockFromDisk := fun b =>
       Some (setVtx (Sample.hiveBlock Byte.x00 Byte.x00) [dctTx 20000 2222]);
     HiveInfo.GetDwarfCost := fun _ => 10000;
     HiveInfo.IsDCT := fun tx _ =>
       match vout tx with
       | o :: _ :: _ => Some (nValue o)
       | _ => None
       end |}.

Definition graph : list HiveInfo.CDwarfPopGraphPoint :=
  replicate 16 {| HiveInfo.immaturePop := 0; HiveInfo.maturePop := 0 |}.

End SampleInfo.

(** * Vocabulary of the statements

    The log lines, and the notions the properties below are stated with:
    what a finished nonce scan looks like, the kinds of iteration of the
    package loop, the Hive and PoW blocks of a stretch of chain, and the
    bookkeeping of the loop's termination argument. *)

Definition missingPrevLog : string :=
  "CheckHiveProof: Couldn't get previous block's CBlockIndex!".
Definition feeTooLowLog : string :=
  "CheckHiveProof: DCT fee is less than the cost for a single dwarf".
Definition notEnoughDwarvesLog : string :=
  "CheckHiveProof: DCT did not create enough dwarves for claimed nonce!".
Definition scriptSigTooLong : string :=
  "assert(txCoinbase.vin[0].scriptSig.size() <= 100)".

Definition sumZ (l : list Z) : Z := foldr Z.add 0 l.

Section ScanVocabulary.
Context `{MinerEnv}.

(** The hash of the header at nonce [n] has bytes 31 and 30 zero. *)
Definition topBytesZero (pblock : CBlock) (n : Z) : bool :=
  (ByteAt (GetPowHash (setNonce pblock n)) 31 =? 0)
  && (ByteAt (GetPowHash (setNonce pblock n)) 30 =? 0).

(** What a finished call looks like when it stopped [k] nonces after the
    one it was given. *)
Definition stoppedAt (pblock : CBlock) (nNonce phash k : Z) (r : Miner.ScanResult)
  : Prop :=
  Miner.scanNonce r = Int.u32 (nNonce + k) /\
  Miner.scanBlock r = setNonce pblock (Miner.scanNonce r) /\
  (forall j, 1 <= j < k ->
     topBytesZero pblock (Int.u32 (nNonce + j)) = false /\
     Z.land (Int.u32 (nNonce + j)) 65535 <> 0) /\
  ((Miner.scanFound r = Done true /\
    topBytesZero pblock (Miner.scanNonce r) = true /\
    Miner.scanHash r = GetPowHash (setNonce pblock (Miner.scanNonce r)))
   \/
   (Miner.scanFound r = Done false /\
    topBytesZero pblock (Miner.scanNonce r) = false /\
    Z.land (Miner.scanNonce r) 65535 = 0 /\
    Miner.scanHash r = phash)
   \/
   (Miner.scanFound r = Raise "boost::thread_interrupted" /\
    topBytesZero pblock (Miner.scanNonce r) = false /\
    Z.land (Miner.scanNonce r) 65535 <> 0 /\
    Z.land (Miner.scanNonce r) 4095 = 0 /\
    interruption_requested (Miner.scanNonce r) = true /\
    Miner.scanHash r = phash)).

End ScanVocabulary.

(** [nBlockWeight > nBlockMaxWeight - 4000] *)
Definition nearlyFull (s : Assembler.State) : Prop :=
  Int.u32 (Assembler.nBlockMaxWeight s - 4000) < Assembler.nBlockWeight s.

(** The three ways an iteration goes on, and the two ways it ends the
    loop, as they show in the counter and in the assembler. *)
Inductive iteration (l : Assembler.Loop) : Assembler.Step -> Prop :=
| it_skipped l' :
    Assembler.nConsecutiveFailed l' = Assembler.nConsecutiveFailed l ->
    Assembler.asm l' = Assembler.asm l ->
    Assembler.nPackagesSelected l' = Assembler.nPackagesSelected l ->
    iteration l (Assembler.Continue l')
| it_failed l' :
    Assembler.nConsecutiveFailed l' = Assembler.nConsecutiveFailed l + 1 ->
    Assembler.asm l' = Assembler.asm l ->
    Assembler.nPackagesSelected l' = Assembler.nPackagesSelected l ->
    ~ (1000 < Assembler.nConsecutiveFailed l' /\ nearlyFull (Assembler.asm l)) ->
    iteration l (Assembler.Continue l')
| it_admitted l' :
    Assembler.nConsecutiveFailed l' = 0 ->
    Assembler.nPackagesSelected l' = Int.i32 (Assembler.nPackagesSelected l + 1) ->
    iteration l (Assembler.Continue l')
| it_done :
    iteration l (Assembler.Stop l)
| it_gave_up l' :
    Assembler.nConsecutiveFailed l' = Assembler.nConsecutiveFailed l + 1 ->
    Assembler.asm l' = Assembler.asm l ->
    1000 < Assembler.nConsecutiveFailed l' ->
    nearlyFull (Assembler.asm l) ->
    iteration l (Assembler.Stop l').

(** The package a candidate of the package loop stands for: its size,
    fees and sigop cost with ancestors, read from the modified entry when
    the candidate was taken from [mapModifiedTx]. *)
Definition packageOf `{AssemblerEnv} (it : txiter)
    (modit : option CTxMemPoolModifiedEntry) (fUsingModified : bool) : Z * Z * Z :=
  match fUsingModified, modit with
  | true, Some e =>
      (nSizeWithAncestors e, nModFeesWithAncestors e, nSigOpCostWithAncestors e)
  | _, _ =>
      (GetSizeWithAncestors it, GetModFeesWithAncestors it, GetSigOpCostWithAncestors it)
  end.

(** The candidate with those of its ancestors that are not in the block
    yet. *)
Definition packageEntries `{AssemblerEnv} (s : Assembler.State) (it : txiter)
  : gset txiter :=
  {[ it ]} ∪ (CalculateMemPoolAncestors it ∖ Assembler.inBlock s).

(** The loop never goes round again with more than 1000 failures in a row
    on a block that is nearly full. *)
Definition withinLimit (l : Assembler.Loop) : Prop :=
  Assembler.nConsecutiveFailed l <= 1000 \/ ~ nearlyFull (Assembler.asm l).

Section ChainVocabulary.
Context `{Header}.
Variable params : Params.

(** The Hive-mined blocks among [bs], their number and their targets. *)
Definition hiveBlocks (bs : list CBlockIndex) : list CBlockIndex :=
  List.filter (IsHiveMined params) bs.
Definition hiveCount (bs : list CBlockIndex) : Z :=
  Z.of_nat (length (hiveBlocks bs)).




End ChainVocabulary.

Section LoopVocabulary.
Context `{AssemblerEnv}.

(** The entries of the mempool. *)
Definition pool : gset txiter := list_to_set mapTx_ancestor_score.

Definition keysIn (m : modset) : Prop := Forall (fun e => iter e ∈ pool) m.

Definition loopOk (l : Assembler.Loop) : Prop :=
  Forall (fun it => it ∈ pool) (Assembler.mi l) /\ keysIn (Assembler.mapModifiedTx l).

(** What an iteration that goes on has gained: the block has grown, or
    it has not and there is less left to look at. *)
Definition progress (l l' : Assembler.Loop) : Prop :=
  (size (pool ∖ Assembler.inBlock (Assembler.asm l'))
   < size (pool ∖ Assembler.inBlock (Assembler.asm l)))%nat \/
  (Assembler.inBlock (Assembler.asm l') = Assembler.inBlock (Assembler.asm l) /\
   (length (Assembler.mi l') + length (Assembler.mapModifiedTx l')
    < length (Assembler.mi l) + length (Assembler.mapModifiedTx l))%nat).

End LoopVocabulary.

(** The dwarves a range stands for, as pairs of a DCT's txid and an index
    into its dwarves; the dwarves of a bin; all the dwarves of a DCT; and
    the number of dwarves a bin's ranges claim. *)
Definition dwarvesOfRange (r : CDwarfRange.t) : list (bytes * Z) :=
  map (pair (CDwarfRange.txid r)) (seqZ (CDwarfRange.offset r) (CDwarfRange.count r)).

Definition dwarvesOfBin (bin : list CDwarfRange.t) : list (bytes * Z) :=
  flat_map dwarvesOfRange bin.

Definition dwarvesOfDct (dct : CDwarfCreationTransactionInfo.t) : list (bytes * Z) :=
  map (pair (CDwarfCreationTransactionInfo.txid dct))
    (seqZ 0 (CDwarfCreationTransactionInfo.dwarfCount dct)).

Definition binSize (bin : list CDwarfRange.t) : Z := sumZ (map CDwarfRange.count bin).

Abbreviation dctCount := CDwarfCreationTransactionInfo.dwarfCount.

(** The bookkeeping of the binning loops.  The dwarves still to be
    binned: those of the first DCT from [dwarfOffset] on, and all of the
    others. *)
Definition remaining (dcts : list CDwarfCreationTransactionInfo.t) (dwarfOffset : Z)
  : list (bytes * Z) :=
  match dcts with
  | [] => []
  | dct :: rest =>
      map (pair (CDwarfCreationTransactionInfo.txid dct))
        (seqZ dwarfOffset (dctCount dct - dwarfOffset))
      ++ flat_map dwarvesOfDct rest
  end.

(** What bounds the number of bins still to come. *)
Definition toBin (dcts : list CDwarfCreationTransactionInfo.t) (dwarfOffset : Z) : Z :=
  Z.of_nat (length dcts) + sumZ (map dctCount dcts) - dwarfOffset.

Definition binnable (dct : CDwarfCreationTransactionInfo.t) : Prop :=
  HiveMiner.isMature dct = true /\ 0 <= dctCount dct < 2 ^ 31.

Definition offsetOk (dcts : list CDwarfCreationTransactionInfo.t) (dwarfOffset : Z) : Prop :=
  match dcts with
  | [] => True
  | dct :: _ => 0 <= dwarfOffset <= dctCount dct
  end.

(** A range as the binning makes them. *)
Definition rangeOk (r : CDwarfRange.t) : Prop :=
  0 <= CDwarfRange.offset r /\ 0 <= CDwarfRange.count r /\
  CDwarfRange.offset r + CDwarfRange.count r < 2 ^ 31.

Section CheckBinVocabulary.
Context `{Node}.

(** Dwarf [d] does not meet the target. *)
Definition misses (deterministicRandString : bytes) (dwarfHashTarget : Z)
    (d : bytes * Z) : Prop :=
  dwarfHashTarget <= HiveMiner.dwarfHashOf deterministicRandString d.1 d.2.

End CheckBinVocabulary.

Section TemplateVocabulary.
Context `{Node} `{AssemblerEnv}.
Variable params : Params.

(** What [TestPackageTransactions] asks of a transaction, under the
    assembler's height, lock-time cutoff and inclusion flags. *)
Definition admissible (s : Assembler.State) (tx : CTransaction) : Prop :=
  IsFinalTx tx (Assembler.asmHeight s) (Assembler.nLockTimeCutoff s) = true /\
  (Assembler.fIncludeWitness s = false -> HasWitness tx = false) /\
  (Assembler.fIncludeDCTs s = false ->
   IsDCT params tx (GetScriptForAddress (dwarfCreationAddress params)) = false).

(** The template under construction: it has its coinbase slot, one fee
    and one sigop entry per transaction, [nFees] is the total of the fees
    recorded after the coinbase slot, and every transaction after the
    coinbase is admissible. *)
Definition consistent (s : Assembler.State) : Prop :=
  let t := Assembler.pblocktemplate s in
  (1 <= length (vtx (block t)))%nat /\
  length (vTxFees t) = length (vtx (block t)) /\
  length (vTxSigOpsCost t) = length (vtx (block t)) /\
  Assembler.nFees s = Int.i64 (sumZ (drop 1 (vTxFees t))) /\
  Forall (admissible s) (drop 1 (vtx (block t))).

(** Two assembler states under the same height, cutoff and flags. *)
Definition sameRules (s s' : Assembler.State) : Prop :=
  Assembler.asmHeight s' = Assembler.asmHeight s /\
  Assembler.nLockTimeCutoff s' = Assembler.nLockTimeCutoff s /\
  Assembler.fIncludeWitness s' = Assembler.fIncludeWitness s /\
  Assembler.fIncludeDCTs s' = Assembler.fIncludeDCTs s.

(** The locals an iteration leaves behind. *)
Definition loopOf (st : Assembler.Step) : Assembler.Loop :=
  match st with Assembler.Continue l => l | Assembler.Stop l => l end.

End TemplateVocabulary.

(** The template under construction holds [entries] behind its coinbase
    slot, in this order: their transactions in the block, their fees in
    [vTxFees] and their sigop costs in [vTxSigOpsCost]; [nFees] is the
    total of their fees as a 64-bit amount. *)
Definition includes `{AssemblerEnv} (s : Assembler.State) (entries : list txiter) : Prop :=
  let t := Assembler.pblocktemplate s in
  (exists coinbase, vtx (block t) = coinbase :: map GetSharedTx entries) /\
  (exists fee, vTxFees t = fee :: map GetFee entries) /\
  (exists cost, vTxSigOpsCost t = cost :: map GetSigOpCost entries) /\
  Assembler.nFees s = Int.i64 (sumZ (map GetFee entries)).

Section SafetyVocabulary.
Context `{AssemblerEnv}.

(** A set of entries that holds the in-mempool ancestors of each of its
    members. *)
Definition ancestorClosed (X : gset txiter) : Prop :=
  forall a d, d ∈ X -> a ∈ CalculateMemPoolAncestors d -> a ∈ X.

(** What the package loop relies on when it asserts that its candidate is
    not in the block: no modified entry is for a transaction in the
    block, and the block holds the ancestors of what it holds. *)
Definition loopSafe (l : Assembler.Loop) : Prop :=
  Forall (fun e => iter e ∉ Assembler.inBlock (Assembler.asm l)) (Assembler.mapModifiedTx l)
  /\ ancestorClosed (Assembler.inBlock (Assembler.asm l)).

End SafetyVocabulary.

(** The keys of a modified set all satisfy [Q]. *)
Definition keysSat (Q : txiter -> Prop) (m : modset) : Prop :=
  Forall (fun e => Q (iter e)) m.

(** * Properties *)

(** ** Machine integers *)

Lemma u32_small x : 0 <= x < 2 ^ 32 -> Int.u32 x = x.
Proof. intros Hx. unfold Int.u32, Int.wrap_u. apply Z.mod_small. exact Hx. Qed.

Lemma u64_small x : 0 <= x < 2 ^ 64 -> Int.u64 x = x.
Proof. intros Hx. unfold Int.u64, Int.wrap_u. apply Z.mod_small. exact Hx. Qed.


Lemma i32_small x : - 2 ^ 31 <= x < 2 ^ 31 -> Int.i32 x = x.
Proof.
  intros Hx. unfold Int.i32, Int.wrap_s.
  change (32 - 1) with 31. rewrite Z.mod_small; [lia |].
  change (2 ^ 32) with (2 * 2 ^ 31). lia.
Qed.

Lemma i64_small x : - 2 ^ 63 <= x < 2 ^ 63 -> Int.i64 x = x.
Proof.
  intros Hx. unfold Int.i64, Int.wrap_s.
  change (64 - 1) with 63. rewrite Z.mod_small; [lia |].
  change (2 ^ 64) with (2 * 2 ^ 63). lia.
Qed.

Lemma u32_range x : 0 <= Int.u32 x < 2 ^ 32.
Proof. unfold Int.u32, Int.wrap_u. apply Z.mod_pos_bound. reflexivity. Qed.

(** ** Outcomes *)

Lemma bind_Done {A B} (m : Exec A) (k : A -> Exec B) b :
  bind m k = Done b -> exists a, m = Done a /\ k a = Done b.
Proof. destruct m; simpl; intros E; try discriminate. eauto. Qed.

Lemma bind_not_Reject {A B} (m : Exec A) (k : A -> Exec B) msg :
  m <> Reject msg -> (forall a, m = Done a -> k a <> Reject msg) ->
  bind m k <> Reject msg.
Proof.
  intros Hm Hk. destruct m; simpl; try discriminate.
  - apply Hk. reflexivity.
  - intros E. apply Hm. congruence.
Qed.

Lemma rejectIf_not_Reject c log msg : log <> msg -> rejectIf c log <> Reject msg.
Proof. intros Hne. unfold rejectIf. destruct c; congruence. Qed.

Lemma assert_not_Reject c what msg : assert c what <> Reject msg.
Proof. unfold assert. destruct c; discriminate. Qed.

Lemma at_not_Reject {A} (v : list A) i msg : at_ v i <> Reject msg.
Proof. unfold at_. destruct (v !! i); discriminate. Qed.

Lemma div64_not_Reject a b msg : div64 a b <> Reject msg.
Proof. unfold div64. repeat case_match; discriminate. Qed.

Lemma Arith256_div_not_Reject a n msg : Arith256.div a n <> Reject msg.
Proof. unfold Arith256.div. case_match; discriminate. Qed.

(** ** The validator never reports a missing previous block *)

Ltac no_reject :=
  repeat first
    [ discriminate
    | apply rejectIf_not_Reject; discriminate
    | apply assert_not_Reject
    | apply at_not_Reject
    | apply div64_not_Reject
    | apply Arith256_div_not_Reject
    | apply bind_not_Reject; [| intros ? _]
    | match goal with
      | |- (let '(_, _) := ?x in _) <> _ => destruct x
      | |- match ?x with _ => _ end <> _ => destruct x
      | |- (if ?c then _ else _) <> _ => destruct c
      end ].

Section ValidatorNeverRejectsNull.
Context `{Header} `{Node}.
Variable params : Params.

Lemma hiveBlocksSincePow_not_Reject p c msg :
  Pow.hiveBlocksSincePow params p c <> Reject msg.
Proof.
  revert c. induction p as [| b prev IH]; intros c; simpl; [discriminate |].
  destruct (IsHiveMined params b); [| discriminate].
  destruct prev; [discriminate | apply IH].
Qed.

Lemma hiveWindow_not_Reject p t c n msg :
  Pow.hiveWindow params p t c n <> Reject msg.
Proof.
  revert t c n. induction p as [| b prev IH]; intros t c n; simpl.
  - destruct (c <? _); discriminate.
  - destruct (c <? _); [| discriminate].
    destruct (_ && _); [| discriminate].
    destruct (IsHiveMined params b); apply IH.
Qed.

Lemma GetNextHiveWorkRequired_not_Reject p msg :
  Pow.GetNextHiveWorkRequired params p <> Reject msg.
Proof.
  unfold Pow.GetNextHiveWorkRequired.
  apply bind_not_Reject; [apply hiveWindow_not_Reject |].
  intros [[t c] n] _. no_reject.
Qed.

Lemma checkDonationAmount_not_missingPrev v d :
  Pow.checkDonationAmount params v d <> Reject missingPrevLog.
Proof. unfold Pow.checkDonationAmount, missingPrevLog. no_reject. Qed.

Lemma findDonation_not_missingPrev st p txid h dct :
  Pow.findDonation params st p txid h dct <> Reject missingPrevLog.
Proof. unfold Pow.findDonation, missingPrevLog. no_reject. Qed.

Lemma grabDCT_not_missingPrev st p txid h cc :
  Pow.grabDCT params st p txid h cc <> Reject missingPrevLog.
Proof.
  unfold Pow.grabDCT, Pow.communityContribution.
  apply bind_not_Reject.
  - unfold missingPrevLog. no_reject.
  - intros [[[dct fh] v] sc] _. apply bind_not_Reject; [| intros; discriminate].
    destruct cc; [| discriminate].
    apply bind_not_Reject; [apply findDonation_not_missingPrev |].
    intros d _. apply checkDonationAmount_not_missingPrev.
Qed.

Lemma checkDCT_not_missingPrev st p bh bcf rd txid h cc :
  Pow.checkDCT params st p bh bcf rd txid h cc <> Reject missingPrevLog.
Proof.
  unfold Pow.checkDCT.
  apply bind_not_Reject; [apply grabDCT_not_missingPrev |].
  intros [[fh v] sc] _. unfold missingPrevLog. no_reject.
Qed.

Lemma checkRewardSignature_not_missingPrev rs drs sig :
  Pow.checkRewardSignature rs drs sig <> Reject missingPrevLog.
Proof. unfold Pow.checkRewardSignature, missingPrevLog. no_reject. Qed.

Lemma checkDwarfCount_not_missingPrev v n :
  Pow.checkDwarfCount params v n <> Reject missingPrevLog.
Proof. unfold Pow.checkDwarfCount, missingPrevLog. no_reject. Qed.

(** C9.  [CheckHiveProof] reads [pindexPrev->nHeight] before it tests
    [pindexPrev] for null.  So a block whose [hashPrevBlock] is not in
    [mapBlockIndex] (or is mapped to a null pointer) makes the call fault
    at that dereference, and no input at all makes it take the branch that
    logs "Couldn't get previous block's CBlockIndex!" and returns false. *)
Theorem CheckHiveProof_null_check_after_deref :
  (forall st pblock,
     mapBlockIndex st !! hashPrevBlock pblock = None \/
     mapBlockIndex st !! hashPrevBlock pblock = Some [] ->
     Pow.CheckHiveProof params st pblock = Crash "null CBlockIndex dereferenced") /\
  (forall st pblock,
     Pow.CheckHiveProof params st pblock <> Reject missingPrevLog).
Proof.
  split.
  - intros st pblock Hmiss.
    unfold Pow.CheckHiveProof, Pow.proofChecks, Pow.lookupBlockIndex.
    destruct Hmiss as [-> | ->]; reflexivity.
  - intros st pblock.
    unfold Pow.CheckHiveProof.
    apply bind_not_Reject; [| intros [v n] _; apply checkDwarfCount_not_missingPrev].
    unfold Pow.proofChecks.
    destruct (Pow.lookupBlockIndex st (hashPrevBlock pblock)) as [| prev rest] eqn:Hl.
    + discriminate.
    + cbn [Pow.deref bind].
      rewrite bool_decide_eq_false_2 by discriminate.
      cbn [rejectIf bind].
      apply bind_not_Reject; [unfold missingPrevLog; no_reject |]. intros _ _.
      apply bind_not_Reject; [apply hiveBlocksSincePow_not_Reject |]. intros hc _.
      apply bind_not_Reject; [unfold missingPrevLog; no_reject |]. intros _ _.
      apply bind_not_Reject; [unfold missingPrevLog; no_reject |]. intros _ _.
      apply bind_not_Reject; [apply at_not_Reject |]. intros cb _.
      apply bind_not_Reject; [unfold missingPrevLog; no_reject |]. intros _ _.
      apply bind_not_Reject; [unfold missingPrevLog; no_reject |]. intros _ _.
      apply bind_not_Reject; [apply at_not_Reject |]. intros vout0 _.
      apply bind_not_Reject; [unfold missingPrevLog; no_reject |]. intros _ _.
      apply bind_not_Reject; [apply at_not_Reject |]. intros b0 _.
      apply bind_not_Reject; [apply at_not_Reject |]. intros b1 _.
      apply bind_not_Reject; [unfold missingPrevLog; no_reject |]. intros _ _.
      apply bind_not_Reject; [apply at_not_Reject |]. intros b12 _.
      apply bind_not_Reject; [apply GetNextHiveWorkRequired_not_Reject |]. intros bits _.
      apply bind_not_Reject; [unfold missingPrevLog; no_reject |]. intros _ _.
      apply bind_not_Reject; [apply at_not_Reject |]. intros vout1 _.
      apply bind_not_Reject; [apply checkRewardSignature_not_missingPrev |]. intros rd _.
      apply bind_not_Reject; [apply checkDCT_not_missingPrev |]. intros v _.
      discriminate.
Qed.

End ValidatorNeverRejectsNull.

Lemma CheckHiveProof_null_check_after_deref_witness :
  @Pow.CheckHiveProof Sample.header Sample.params Sample.node
    {| mapBlockIndex := ∅; pcoinsTip := None |}
    (setVtx Assembler.emptyBlock []) = Crash "null CBlockIndex dereferenced".
Proof.
  apply (proj1 (@CheckHiveProof_null_check_after_deref
                  Sample.header Sample.node Sample.params)).
  left. reflexivity.
Defined.

(** ** The two counts of Hive blocks since the last PoW block *)

Section HiveRunCounts.
Context `{Header}.
Variable params : Params.

(** The validator's walk stops at the first block that is not Hive-mined;
    the miner's goes on through Pop-mined blocks.  Without Pop-mined
    blocks they are the same walk. *)
Lemma counts_agree_without_pop (p : pindex) (c : Z) :
  Forall (fun b => IsPopMined params b = false) p ->
  Miner.minerHiveBlocksSincePow params p c = Pow.hiveBlocksSincePow params p c.
Proof.
  revert c. induction p as [| b prev IH]; intros c Hpop; [reflexivity |].
  inversion Hpop as [| ? ? Hb Hprev]; subst. simpl.
  rewrite Hb. simpl. destruct (IsHiveMined params b); [| reflexivity].
  destruct prev; [reflexivity |]. apply IH. exact Hprev.
Qed.

End HiveRunCounts.

(** C10.  On the chain Hive, Pop, Hive, PoW (tip first) the validator's
    walk counts one Hive block and the miner's pre-check counts two: with
    [maxConsecutiveHiveBlocks = 2] the miner refuses to mine on a tip that
    the validator's limit still accepts. *)
Theorem hive_run_counts_differ :
  @Pow.hiveBlocksSincePow Sample.header Sample.params Sample.mixedChain 0 = Done 1 /\
  @Miner.minerHiveBlocksSincePow Sample.header Sample.params Sample.mixedChain 0 = Done 2 /\
  @Miner.BusyDwarves_prechecks Sample.header Sample.params
     {| Miner.g_connman := Some 8; Miner.isInitialBlockDownload := false |}
     Sample.mixedChain 4
   = Reject "BusyDwarves: Skipping hive check (max Hive blocks without a POW block reached)".
Proof. repeat split; vm_compute; reflexivity. Qed.

(** ** The dwarf count *)

Section DwarfCount.
Context `{Header} `{Node}.
Variable params : Params.

Lemma checkDwarfCount_cases (v n : Z) :
  0 < dwarfCost params ->
  Pow.checkDwarfCount params v n =
    if v <? dwarfCost params then Reject feeTooLowLog
    else if Int.u32 (v / dwarfCost params) <=? n then Reject notEnoughDwarvesLog
    else Done tt.
Proof.
  intros Hcost. unfold Pow.checkDwarfCount, rejectIf.
  destruct (v <? dwarfCost params) eqn:Hlt; [reflexivity |].
  apply Z.ltb_ge in Hlt. cbn [bind]. unfold div64.
  replace (dwarfCost params =? 0) with false by (symmetry; apply Z.eqb_neq; lia).
  replace (dwarfCost params =? -1) with false by (symmetry; apply Z.eqb_neq; lia).
  rewrite andb_false_r. cbn [bind].
  rewrite Z.quot_div_nonneg by lia.
  destruct (Int.u32 (v / dwarfCost params) <=? n); reflexivity.
Qed.

(** C3, as implemented.  For a proof that reaches the dwarf-count
    check with [dctValue = v] and [dwarfNonce = n], and a positive
    [dwarfCost]: [dwarfCount] is the integer quotient [v / dwarfCost] kept
    in a 32-bit unsigned, that is reduced modulo 2^32; [CheckHiveProof]
    accepts exactly when neither [v < dwarfCost] nor [dwarfNonce >=
    dwarfCount]; the two rejections carry their own log lines, so
    [dwarfNonce = dwarfCount] is rejected; and [dwarfCount] is the plain
    quotient whenever that is below 2^32. *)
Theorem CheckHiveProof_dwarf_count (st : ChainState) (pblock : CBlock) (v n : Z) :
  0 < dwarfCost params ->
  Pow.proofChecks params st pblock = Done (v, n) ->
  let dwarfCount := (v / dwarfCost params) mod 2 ^ 32 in
  (Pow.CheckHiveProof params st pblock = Done tt <->
     ~ (v < dwarfCost params \/ dwarfCount <= n)) /\
  (v < dwarfCost params ->
     Pow.CheckHiveProof params st pblock = Reject feeTooLowLog) /\
  (dwarfCost params <= v -> dwarfCount <= n ->
     Pow.CheckHiveProof params st pblock = Reject notEnoughDwarvesLog) /\
  (v / dwarfCost params < 2 ^ 32 -> dwarfCost params <= v ->
     dwarfCount = v / dwarfCost params).
Proof.
  intros Hcost Hreach dwarfCount.
  unfold Pow.CheckHiveProof. rewrite Hreach. cbn [bind].
  rewrite checkDwarfCount_cases by exact Hcost.
  fold (Int.wrap_u 32 (v / dwarfCost params)). fold (Int.u32 (v / dwarfCost params)).
  change (Int.u32 (v / dwarfCost params)) with dwarfCount.
  repeat split.
  - destruct (v <? dwarfCost params) eqn:E1; [discriminate |].
    destruct (dwarfCount <=? n) eqn:E2; [discriminate |].
    apply Z.ltb_ge in E1. apply Z.leb_gt in E2. lia.
  - intros Hok.
    destruct (v <? dwarfCost params) eqn:E1; [apply Z.ltb_lt in E1; lia |].
    destruct (dwarfCount <=? n) eqn:E2; [apply Z.leb_le in E2; lia | reflexivity].
  - intros Hlt. apply Z.ltb_lt in Hlt. rewrite Hlt. reflexivity.
  - intros Hge Hn. apply Z.ltb_ge in Hge. rewrite Hge.
    apply Z.leb_le in Hn. rewrite Hn. reflexivity.
  - intros Hfit Hge. subst dwarfCount. apply Z.mod_small. split; [| exact Hfit].
    apply Z.div_pos; lia.
Qed.

End DwarfCount.

Lemma CheckHiveProof_dwarf_count_witness :
  @Pow.CheckHiveProof Sample.header Sample.params Sample.node
    (Sample.chainState 20000 0) (Sample.hiveBlock Byte.x02 Byte.x00)
  = Reject notEnoughDwarvesLog.
Proof.
  refine (proj1 (proj2 (proj2
    (@CheckHiveProof_dwarf_count Sample.header Sample.node Sample.params
       (Sample.chainState 20000 0) (Sample.hiveBlock Byte.x02 Byte.x00) 20000 2
       _ _))) _ _).
  - reflexivity.
  - vm_compute. reflexivity.
  - vm_compute. intros Hc. discriminate Hc.
  - vm_compute. intros Hc. discriminate Hc.
Defined.

(** C3, as specified, does not hold: a DCT that paid for 2^32 dwarves has
    [dctValue >= dwarfCost] and [dwarfNonce = 0 < dctValue / dwarfCost],
    and the proof is rejected, because the 32-bit [dwarfCount] is 0. *)
Lemma dwarf_count_is_32_bit :
  let v := 10000 * 2 ^ 32 in
  let st := Sample.chainState v 0 in
  let pblock := Sample.hiveBlock Byte.x00 Byte.x00 in
  @Pow.proofChecks Sample.header Sample.params Sample.node st pblock = Done (v, 0) /\
  ~ (v < dwarfCost Sample.params \/ v / dwarfCost Sample.params <= 0) /\
  @Pow.CheckHiveProof Sample.header Sample.params Sample.node st pblock
  = Reject notEnoughDwarvesLog.
Proof.
  repeat split; try (vm_compute; reflexivity).
  intros [Hc | Hc]; vm_compute in Hc; [discriminate Hc | apply Hc; reflexivity].
Qed.

(** ** The community donation *)

Section Donation.
Context `{Header} `{Node}.
Variable params : Params.




End Donation.



(** ** [ScanHash] *)

Section ScanHashProps.
Context `{MinerEnv}.

Lemma land_65535 x : Z.land (Int.u32 x) 65535 = x mod 65536.
Proof.
  change 65535 with (Z.ones 16). rewrite Z.land_ones by lia.
  unfold Int.u32, Int.wrap_u.
  change (2 ^ 32) with (2 ^ 16 * 65536). change (2 ^ 16) with 65536.
  rewrite Z.rem_mul_r by lia.
  rewrite Z.mul_comm, Z.mod_add by lia. apply Z.mod_mod. lia.
Qed.

Lemma u32_add_u32 x k : Int.u32 (Int.u32 x + k) = Int.u32 (x + k).
Proof. unfold Int.u32, Int.wrap_u. apply Zplus_mod_idemp_l. Qed.

Lemma ScanHash_loop_stops (fuel : nat) :
  forall (pblock : CBlock) (nNonce phash : Z),
    65536 - nNonce mod 65536 <= Z.of_nat fuel ->
    exists k r,
      1 <= k <= 65536 - nNonce mod 65536 /\
      Miner.ScanHash_loop fuel pblock nNonce phash = Some r /\
      stoppedAt pblock nNonce phash k r.
Proof.
  induction fuel as [| fuel IH]; intros pblock nNonce phash Hfuel.
  - pose proof (Z.mod_pos_bound nNonce 65536 ltac:(lia)). lia.
  - pose proof (Z.mod_pos_bound nNonce 65536 ltac:(lia)) as Hmod.
    cbn [Miner.ScanHash_loop].
    set (n1 := Int.u32 (nNonce + 1)).
    fold (topBytesZero pblock n1).
    destruct (topBytesZero pblock n1) eqn:Hhit.
    { exists 1. eexists. split; [lia |]. split; [reflexivity |].
      unfold stoppedAt; cbn. repeat split; try reflexivity.
      1-2: lia.
      left. repeat split; assumption. }
    destruct (Z.land n1 65535 =? 0) eqn:Hwrap.
    { exists 1. eexists. split; [lia |]. split; [reflexivity |].
      unfold stoppedAt; cbn. repeat split; try reflexivity.
      1-2: lia.
      right; left. apply Z.eqb_eq in Hwrap. repeat split; assumption. }
    apply Z.eqb_neq in Hwrap.
    destruct ((Z.land n1 4095 =? 0) && interruption_requested n1) eqn:Hint.
    { exists 1. eexists. split; [lia |]. split; [reflexivity |].
      unfold stoppedAt; cbn. repeat split; try reflexivity.
      1-2: lia.
      right; right. apply andb_true_iff in Hint as [Hpoll Hreq].
      apply Z.eqb_eq in Hpoll. repeat split; assumption. }
    assert (Hn1 : n1 mod 65536 = nNonce mod 65536 + 1).
    { unfold n1 in Hwrap. rewrite land_65535 in Hwrap.
      unfold n1, Int.u32, Int.wrap_u.
      change (2 ^ 32) with (65536 * 65536) at 1.
      rewrite Z.rem_mul_r by lia.
      rewrite Z.mul_comm, Z.mod_add by lia. rewrite Z.mod_mod by lia.
      rewrite Z.add_mod in Hwrap |- * by lia.
      change (1 mod 65536) with 1 in *.
      destruct (Z.eq_dec (nNonce mod 65536 + 1) 65536) as [E | E].
      - rewrite E in Hwrap. exfalso. apply Hwrap. reflexivity.
      - apply Z.mod_small. lia. }
    destruct (IH (setNonce pblock n1) n1 phash ltac:(lia))
      as (k & r & Hk & Hrun & Hn & Hb & Hbefore & Hout).
    exists (k + 1), r. split; [lia |]. split; [exact Hrun |].
    assert (Hshift : forall j, Int.u32 (n1 + j) = Int.u32 (nNonce + (j + 1))).
    { intros j. unfold n1. rewrite u32_add_u32. f_equal. lia. }
    unfold stoppedAt. repeat split.
    + rewrite Hn. apply Hshift.
    + exact Hb.
    + destruct (Z.eq_dec j 1) as [-> | Hj]; [exact Hhit |].
      destruct (Hbefore (j - 1) ltac:(lia)) as [Hh _].
      rewrite Hshift in Hh. replace (j - 1 + 1) with j in Hh by lia. exact Hh.
    + destruct (Z.eq_dec j 1) as [-> | Hj]; [exact Hwrap |].
      destruct (Hbefore (j - 1) ltac:(lia)) as [_ Hw].
      rewrite Hshift in Hw. replace (j - 1 + 1) with j in Hw by lia. exact Hw.
    + exact Hout.
Qed.

(** C7.  From every starting nonce [ScanHash] returns, after at least one
    and at most 65536 nonces.  Every nonce it passed over had neither the
    two zero top bytes nor [(nonce & 0xffff) = 0].  It returns true, with
    the nonce in the header and in [nNonce] and the hash in [*phash],
    exactly when the hash at the nonce it stopped on has bytes 31 and 30
    zero; it returns false exactly when it stopped without such a hash on
    a nonce with [(nonce & 0xffff) = 0].  The only other way out is the
    interruption point, polled at nonces with [(nonce & 0xfff) = 0]. *)
Theorem ScanHash_terminates (pblock : CBlock) (nNonce phash : Z) :
  exists k r,
    1 <= k <= 65536 /\
    Miner.ScanHash pblock nNonce phash = Some r /\
    Miner.scanNonce r = Int.u32 (nNonce + k) /\
    blockNonce (Miner.scanBlock r) = Miner.scanNonce r /\
    (forall j, 1 <= j < k ->
       topBytesZero pblock (Int.u32 (nNonce + j)) = false /\
       Z.land (Int.u32 (nNonce + j)) 65535 <> 0) /\
    (Miner.scanFound r = Done true <->
       topBytesZero pblock (Miner.scanNonce r) = true) /\
    (Miner.scanFound r = Done true ->
       Miner.scanHash r = GetPowHash (setNonce pblock (Miner.scanNonce r))) /\
    (Miner.scanFound r = Done false <->
       topBytesZero pblock (Miner.scanNonce r) = false /\
       Z.land (Miner.scanNonce r) 65535 = 0) /\
    (Miner.scanFound r <> Done true -> Miner.scanFound r <> Done false ->
       Miner.scanFound r = Raise "boost::thread_interrupted" /\
       Z.land (Miner.scanNonce r) 4095 = 0 /\
       interruption_requested (Miner.scanNonce r) = true).
Proof.
  pose proof (Z.mod_pos_bound nNonce 65536 ltac:(lia)) as Hmod.
  destruct (ScanHash_loop_stops (Z.to_nat 65536) pblock nNonce phash ltac:(lia))
    as (k & r & Hk & Hrun & Hn & Hb & Hbefore & Hout).
  exists k, r. split; [lia |]. split; [exact Hrun |]. split; [exact Hn |].
  split; [rewrite Hb; reflexivity |]. split; [exact Hbefore |].
  destruct Hout as [(Hf & Hh & Hp) | [(Hf & Hh & Hw & Hp) | (Hf & Hh & Hw & Hpoll & Hreq & Hp)]];
    rewrite Hf; repeat split; intros; try congruence; try discriminate;
    match goal with
    | Hc : _ /\ _ |- _ => destruct Hc as [Hc1 Hc2]; congruence
    end.
Qed.

End ScanHashProps.

(** ** [IncrementExtraNonce] *)

Section ExtraNonce.
Context `{MinerEnv}.

(** C6, as implemented.  A call on a block with a coinbase input and
    a previous index entry first resets the counter to 0 when the block's
    [hashPrevBlock] differs from the one remembered by the previous call,
    and then increments it in either case: the new counter is 1 after a
    reset and the old one plus one (modulo 2^32) otherwise.  The call
    remembers the block's [hashPrevBlock], writes [height || extraNonce ||
    COINBASE_FLAGS] as the coinbase [scriptSig], leaves every other part
    of the block alone and stores the merkle root of the block with the
    new coinbase; it completes exactly when that script has at most 100
    bytes, and otherwise stops on the assertion. *)
Theorem IncrementExtraNonce_spec (static_hashPrevBlock : Z) (pblock : CBlock)
    (prev : CBlockIndex) (rest : pindex) (tx0 : CTransaction)
    (txs : list CTransaction) (in0 : CTxIn) (ins : list CTxIn) (nExtraNonce : Z) :
  vtx pblock = tx0 :: txs ->
  vin tx0 = in0 :: ins ->
  let nExtraNonce' :=
    if bool_decide (static_hashPrevBlock = hashPrevBlock pblock)
    then Int.u32 (nExtraNonce + 1) else 1 in
  let script :=
    pushInt (Int.u32 (nHeight prev + 1)) ++ pushScriptNum nExtraNonce' ++ COINBASE_FLAGS in
  let coinbase :=
    {| vin := {| prevoutNull := prevoutNull in0; scriptSig := script |} :: ins;
       vout := vout tx0 |} in
  ((length script <= 100)%nat ->
     exists pblock',
       Miner.IncrementExtraNonce static_hashPrevBlock pblock (prev :: rest) nExtraNonce
         = Done (hashPrevBlock pblock, pblock', nExtraNonce') /\
       vtx pblock' = coinbase :: txs /\
       hashMerkleRoot pblock' = BlockMerkleRoot (setVtx pblock (coinbase :: txs)) /\
       hashPrevBlock pblock' = hashPrevBlock pblock /\
       nVersion pblock' = nVersion pblock /\
       blockTime pblock' = blockTime pblock /\
       blockBits pblock' = blockBits pblock /\
       blockNonce pblock' = blockNonce pblock) /\
  ((100 < length script)%nat ->
     Miner.IncrementExtraNonce static_hashPrevBlock pblock (prev :: rest) nExtraNonce
       = Crash scriptSigTooLong).
Proof.
  intros Hvtx Hvin nExtraNonce' script coinbase.
  unfold Miner.IncrementExtraNonce.
  assert (Hn : (let '(n, _) :=
                  if bool_decide (static_hashPrevBlock ≠ hashPrevBlock pblock)
                  then (0, hashPrevBlock pblock)
                  else (nExtraNonce, static_hashPrevBlock) in Int.u32 (n + 1))
               = nExtraNonce').
  { unfold nExtraNonce'. destruct (decide (static_hashPrevBlock = hashPrevBlock pblock)) as [E | E].
    - rewrite bool_decide_eq_false_2 by (intros Hc; apply Hc; exact E).
      rewrite bool_decide_eq_true_2 by exact E. reflexivity.
    - rewrite bool_decide_eq_true_2 by exact E.
      rewrite bool_decide_eq_false_2 by exact E. reflexivity. }
  destruct (bool_decide (static_hashPrevBlock ≠ hashPrevBlock pblock)) eqn:Hdiff;
    cbn [Pow.deref bind] in *; rewrite Hvtx; cbn [at_ lookup list_lookup bind];
    unfold Miner.setScriptSig; rewrite Hvin; cbn [bind]; rewrite Hn;
    fold script; unfold assert.
  all: split; intros Hlen.
  all: try (apply Nat.leb_le in Hlen; rewrite Hlen; cbn [bind]).
  all: try (apply Nat.leb_gt in Hlen; rewrite Hlen; reflexivity).
  - eexists. split; [reflexivity |]. cbn. repeat split; reflexivity.
  - apply bool_decide_eq_false in Hdiff.
    assert (E : static_hashPrevBlock = hashPrevBlock pblock)
      by (destruct (decide (static_hashPrevBlock = hashPrevBlock pblock)); [assumption | contradiction]).
    rewrite E. eexists. split; [reflexivity |]. cbn. repeat split; reflexivity.
Qed.

End ExtraNonce.

Lemma IncrementExtraNonce_spec_witness :
  exists pblock',
    @Miner.IncrementExtraNonce Sample.minerEnv 4
      (Sample.hiveBlock Byte.x00 Byte.x00) Sample.mixedChain 5
      = Done (4, pblock', 6) /\
    vtx pblock' =
      [ {| vin := [ {| prevoutNull := true;
                       scriptSig := Sample.push4 5 ++ Sample.push4 6 ++ [] |} ];
           vout := vout (default Assembler.emptyTx
                           (head (vtx (Sample.hiveBlock Byte.x00 Byte.x00)))) |} ].
Proof.
  destruct (proj1 (@IncrementExtraNonce_spec Sample.minerEnv 4
              (Sample.hiveBlock Byte.x00 Byte.x00)
              (Sample.blockAt 4 192 1000 240)
              (drop 1 Sample.mixedChain) _ [] _ [] 5 eq_refl eq_refl))
    as (pblock' & Hcall & Hvtx & _).
  - vm_compute. lia.
  - exists pblock'. split; [exact Hcall | exact Hvtx].
Defined.

(** Two calls in a row on blocks with the same [hashPrevBlock]: the second
    finds the hash it remembered and only increments. *)
Lemma IncrementExtraNonce_successive `{MinerEnv} (s0 s1 n0 n1 : Z)
    (b0 b1 b2 : CBlock) (p : pindex) :
  Miner.IncrementExtraNonce s0 b0 p n0 = Done (s1, b1, n1) ->
  forall s2 n2,
    Miner.IncrementExtraNonce s1 b1 p n1 = Done (s2, b2, n2) ->
    s2 = s1 /\ n2 = Int.u32 (n1 + 1).
Proof.
  intros Hfirst s2 n2 Hsecond.
  assert (Hs1 : s1 = hashPrevBlock b1).
  { unfold Miner.IncrementExtraNonce in Hfirst.
    destruct (bool_decide (s0 ≠ hashPrevBlock b0)) eqn:Hd.
    all: apply bind_Done in Hfirst as (prev & _ & Hfirst).
    all: apply bind_Done in Hfirst as (tx0 & _ & Hfirst).
    all: apply bind_Done in Hfirst as (cb & _ & Hfirst).
    all: apply bind_Done in Hfirst as (u & _ & Hfirst).
    all: inversion Hfirst; subst; cbn; try reflexivity.
    apply bool_decide_eq_false in Hd.
    destruct (decide (s1 = hashPrevBlock b0)); [assumption | contradiction]. }
  unfold Miner.IncrementExtraNonce in Hsecond.
  rewrite bool_decide_eq_false_2 in Hsecond by (intros Hc; apply Hc; exact Hs1).
  apply bind_Done in Hsecond as (prev & _ & Hsecond).
  apply bind_Done in Hsecond as (tx0 & _ & Hsecond).
  apply bind_Done in Hsecond as (cb & _ & Hsecond).
  apply bind_Done in Hsecond as (u & _ & Hsecond).
  inversion Hsecond; subst. split; reflexivity.
Qed.

(** C6, as specified, does not hold: on a call that finds a new
    [hashPrevBlock] the counter is not left at 0.  It is reset and then
    incremented, and the coinbase carries extra nonce 1. *)
Lemma extra_nonce_after_reset_is_one :
  let pblock := Sample.hiveBlock Byte.x00 Byte.x00 in
  0 <> hashPrevBlock pblock /\
  exists pblock',
    @Miner.IncrementExtraNonce Sample.minerEnv 0 pblock Sample.mixedChain 5
      = Done (hashPrevBlock pblock, pblock', 1) /\
    1 <> 0 /\
    (scriptSig <$> (vtx pblock' !! 0%nat ≫= fun tx => vin tx !! 0%nat))
      = Some (Sample.push4 5 ++ Sample.push4 1).
Proof.
  split; [discriminate |].
  eexists. split; [vm_compute; reflexivity |].
  split; [discriminate | vm_compute; reflexivity].
Qed.

(** ** The package loop's failure counter *)

Section FailureCounter.
Context `{Header} `{Node} `{MinerEnv} `{AssemblerEnv}.
Variable params : Params.

Lemma evaluatePackage_iteration (l : Assembler.Loop) mi' it modit fUsingModified st :
  - 2 ^ 63 <= Assembler.nConsecutiveFailed l < 2 ^ 63 - 1 ->
  Assembler.evaluatePackage params l mi' it modit fUsingModified = Done st ->
  iteration l st.
Proof.
  intros Hrange. unfold Assembler.evaluatePackage.
  destruct (assert _ _); cbn [bind]; try discriminate.
  destruct (match fUsingModified, modit with
            | true, Some e => _ | _, _ => _ end) as [[packageSize packageFees] packageSigOpsCost].
  destruct (packageFees <? _).
  { intros E; inversion E; subst. apply it_done. }
  destruct (negb (Assembler.TestPackage _ _ _)).
  { rewrite (i64_small (Assembler.nConsecutiveFailed l + 1)) by lia.
    unfold Assembler.MAX_CONSECUTIVE_FAILURES.
    destruct (1000 <? Assembler.nConsecutiveFailed l + 1) eqn:Hmany;
      destruct (Int.u32 (Assembler.nBlockMaxWeight (Assembler.asm l) - 4000)
                <? Assembler.nBlockWeight (Assembler.asm l)) eqn:Hfull;
      cbn [andb]; intros E; inversion E; subst.
    - apply it_gave_up; cbn; try reflexivity.
      + apply Z.ltb_lt in Hmany. exact Hmany.
      + apply Z.ltb_lt in Hfull. exact Hfull.
    - apply it_failed; cbn; try reflexivity.
      apply Z.ltb_ge in Hfull. unfold nearlyFull. lia.
    - apply it_failed; cbn; try reflexivity.
      apply Z.ltb_ge in Hmany. lia.
    - apply it_failed; cbn; try reflexivity.
      apply Z.ltb_ge in Hmany. lia. }
  destruct (negb (Assembler.TestPackageTransactions _ _ _)).
  { intros E; inversion E; subst. apply it_skipped; reflexivity. }
  destruct (foldl _ _ _) as [s' m'].
  destruct (Assembler.UpdatePackagesForAdded _ _) as [updated m''].
  intros E; inversion E; subst. apply it_admitted; reflexivity.
Qed.

Lemma step_iteration (l : Assembler.Loop) (st : Assembler.Step) :
  - 2 ^ 63 <= Assembler.nConsecutiveFailed l < 2 ^ 63 - 1 ->
  Assembler.addPackageTxs_step params l = Done st ->
  iteration l st.
Proof.
  intros Hrange. unfold Assembler.addPackageTxs_step.
  destruct (Assembler.mi l) as [| it rest]; destruct (Assembler.mapModifiedTx l) as [| e m].
  - intros E; inversion E; subst. apply it_done.
  - apply evaluatePackage_iteration. exact Hrange.
  - destruct (Assembler.SkipMapTxEntry _ _ _ _).
    + intros E; inversion E; subst. apply it_skipped; reflexivity.
    + apply evaluatePackage_iteration. exact Hrange.
  - destruct (Assembler.SkipMapTxEntry _ _ _ _).
    + intros E; inversion E; subst. apply it_skipped; reflexivity.
    + destruct (CompareTxMemPoolEntryByAncestorFee _ _);
        apply evaluatePackage_iteration; exact Hrange.
Qed.

(** C8, as implemented.  The failure counter follows [TestPackage] and
    [TestPackageTransactions].  A candidate package that is evaluated is
    not in the block yet, and exactly one of four things happens.  Its
    fees are below the minimum for its size: the loop ends with nothing
    changed.  It fails [TestPackage]: the counter goes up by one, block
    and package count stay as they are, and the loop gives up exactly when
    the counter is now above [MAX_CONSECUTIVE_FAILURES] = 1000, which is
    the 1001st failure in a row, and the block is within 4000 of its
    weight limit; otherwise it goes on.  It passes [TestPackage] and fails
    the per-transaction checks [TestPackageTransactions]: the loop goes on
    with counter, block and package count unchanged.  It passes both: the
    loop goes on with the counter at zero and one more package selected.
    An iteration of the loop either ends it because nothing is left, or
    skips the next mempool entry and changes neither block nor counter,
    or evaluates one candidate this way: the best modified entry, or the
    next mempool entry. *)
Theorem addPackageTxs_step_failure_counter (l : Assembler.Loop) :
  - 2 ^ 63 <= Assembler.nConsecutiveFailed l < 2 ^ 63 - 1 ->
  (forall mi' it modit fUsingModified packageSize packageFees packageSigOpsCost st,
     packageOf it modit fUsingModified = (packageSize, packageFees, packageSigOpsCost) ->
     Assembler.evaluatePackage params l mi' it modit fUsingModified = Done st ->
     it ∉ Assembler.inBlock (Assembler.asm l) /\
     ((packageFees
         < FeeRate_GetFee (Assembler.blockMinFeeRate (Assembler.asm l)) packageSize /\
       st = Assembler.Stop l)
      \/
      (FeeRate_GetFee (Assembler.blockMinFeeRate (Assembler.asm l)) packageSize
         <= packageFees /\
       Assembler.TestPackage (Assembler.asm l) packageSize packageSigOpsCost = false /\
       Assembler.asm (loopOf st) = Assembler.asm l /\
       Assembler.nConsecutiveFailed (loopOf st) = Assembler.nConsecutiveFailed l + 1 /\
       Assembler.nPackagesSelected (loopOf st) = Assembler.nPackagesSelected l /\
       ((exists l', st = Assembler.Stop l') <->
        1000 < Assembler.nConsecutiveFailed l + 1 /\ nearlyFull (Assembler.asm l)))
      \/
      (FeeRate_GetFee (Assembler.blockMinFeeRate (Assembler.asm l)) packageSize
         <= packageFees /\
       Assembler.TestPackage (Assembler.asm l) packageSize packageSigOpsCost = true /\
       Assembler.TestPackageTransactions params (Assembler.asm l)
         (packageEntries (Assembler.asm l) it) = false /\
       (exists l', st = Assembler.Continue l') /\
       Assembler.asm (loopOf st) = Assembler.asm l /\
       Assembler.nConsecutiveFailed (loopOf st) = Assembler.nConsecutiveFailed l /\
       Assembler.nPackagesSelected (loopOf st) = Assembler.nPackagesSelected l)
      \/
      (FeeRate_GetFee (Assembler.blockMinFeeRate (Assembler.asm l)) packageSize
         <= packageFees /\
       Assembler.TestPackage (Assembler.asm l) packageSize packageSigOpsCost = true /\
       Assembler.TestPackageTransactions params (Assembler.asm l)
         (packageEntries (Assembler.asm l) it) = true /\
       (exists l', st = Assembler.Continue l') /\
       Assembler.nConsecutiveFailed (loopOf st) = 0 /\
       Assembler.nPackagesSelected (loopOf st)
       = Int.i32 (Assembler.nPackagesSelected l + 1)))) /\
  (forall st,
     Assembler.addPackageTxs_step params l = Done st ->
     (Assembler.mi l = [] /\ Assembler.mapModifiedTx l = [] /\ st = Assembler.Stop l)
     \/
     (exists it rest,
        Assembler.mi l = it :: rest /\
        Assembler.SkipMapTxEntry (Assembler.asm l) it (Assembler.mapModifiedTx l)
          (Assembler.failedTx l) = true /\
        (exists l', st = Assembler.Continue l') /\
        Assembler.mi (loopOf st) = rest /\
        Assembler.asm (loopOf st) = Assembler.asm l /\
        Assembler.nConsecutiveFailed (loopOf st) = Assembler.nConsecutiveFailed l /\
        Assembler.nPackagesSelected (loopOf st) = Assembler.nPackagesSelected l)
     \/
     (exists mi' it modit fUsingModified,
        Assembler.addPackageTxs_step params l
        = Assembler.evaluatePackage params l mi' it modit fUsingModified /\
        (fUsingModified = true ->
         modit = head (Assembler.mapModifiedTx l) /\
         Some it = iter <$> head (Assembler.mapModifiedTx l) /\
         mi' = Assembler.mi l) /\
        (fUsingModified = false ->
         Some it = head (Assembler.mi l) /\ mi' = tail (Assembler.mi l)))).
Proof.
  intros Hrange. split.
  - intros mi' it modit fUsingModified packageSize packageFees packageSigOpsCost st Hpkg.
    unfold Assembler.evaluatePackage.
    destruct (bool_decide (it ∈ Assembler.inBlock (Assembler.asm l))) eqn:Hin;
      cbn [negb assert bind]; [discriminate |].
    apply bool_decide_eq_false in Hin. intros Hrun. split; [exact Hin |].
    unfold packageOf in Hpkg. rewrite Hpkg in Hrun. fold (packageEntries (Assembler.asm l) it) in Hrun.
    destruct (packageFees <? _) eqn:Hfee.
    { apply Z.ltb_lt in Hfee. inversion Hrun; subst. left. split; [exact Hfee | reflexivity]. }
    apply Z.ltb_ge in Hfee. right.
    destruct (Assembler.TestPackage _ _ _) eqn:Hpackage; cbn [negb] in Hrun.
    2: { left. rewrite (i64_small (Assembler.nConsecutiveFailed l + 1)) in Hrun by lia.
         unfold Assembler.MAX_CONSECUTIVE_FAILURES in Hrun.
         split; [exact Hfee |]. split; [reflexivity |].
         destruct (1000 <? Assembler.nConsecutiveFailed l + 1) eqn:Hmany;
           destruct (Int.u32 (Assembler.nBlockMaxWeight (Assembler.asm l) - 4000)
                     <? Assembler.nBlockWeight (Assembler.asm l)) eqn:Hfull;
           cbn [andb] in Hrun; inversion Hrun; subst; cbn [loopOf];
           (split; [reflexivity |]); (split; [reflexivity |]); (split; [reflexivity |]).
         - apply Z.ltb_lt in Hmany, Hfull. split; [intros _; split; assumption |].
           intros _. eexists. reflexivity.
         - apply Z.ltb_ge in Hfull. split; [intros [l' Hc]; discriminate Hc |].
           intros [_ Hc]. unfold nearlyFull in Hc. lia.
         - apply Z.ltb_ge in Hmany. split; [intros [l' Hc]; discriminate Hc |].
           intros [Hc _]. lia.
         - apply Z.ltb_ge in Hmany. split; [intros [l' Hc]; discriminate Hc |].
           intros [Hc _]. lia. }
    right.
    destruct (Assembler.TestPackageTransactions _ _ _) eqn:Htx; cbn [negb] in Hrun.
    2: { left. inversion Hrun; subst. cbn [loopOf].
         split; [exact Hfee |]. split; [reflexivity |]. split; [reflexivity |].
         split; [eexists; reflexivity |]. repeat split. }
    right.
    destruct (foldl _ _ _) as [s' m'].
    destruct (Assembler.UpdatePackagesForAdded _ _) as [updated m''].
    inversion Hrun; subst. cbn [loopOf].
    split; [exact Hfee |]. split; [reflexivity |]. split; [reflexivity |].
    split; [eexists; reflexivity |]. split; reflexivity.
  - intros st. unfold Assembler.addPackageTxs_step.
    destruct (Assembler.mi l) as [| it rest] eqn:Emi;
      destruct (Assembler.mapModifiedTx l) as [| e m] eqn:Emod.
    + intros E; inversion E; subst. left. repeat split.
    + intros _. right; right. exists [], (iter e), (Some e), true.
      split; [reflexivity |]. split; [| discriminate]. intros _. repeat split.
    + destruct (Assembler.SkipMapTxEntry _ _ _ _) eqn:Hskip.
      * intros E; inversion E; subst. right; left. exists it, rest. cbn [loopOf].
        split; [reflexivity |]. split; [exact Hskip |]. split; [eexists; reflexivity |].
        repeat split.
      * intros _. right; right. exists rest, it, None, false.
        split; [reflexivity |]. split; [discriminate |]. intros _. split; reflexivity.
    + destruct (Assembler.SkipMapTxEntry _ _ _ _) eqn:Hskip.
      * intros E; inversion E; subst. right; left. exists it, rest. cbn [loopOf].
        split; [reflexivity |]. split; [exact Hskip |]. split; [eexists; reflexivity |].
        repeat split.
      * intros _. right; right.
        destruct (CompareTxMemPoolEntryByAncestorFee _ _).
        -- exists (it :: rest), (iter e), (Some e), true.
           split; [reflexivity |]. split; [| discriminate]. intros _. repeat split.
        -- exists rest, it, (Some e), false.
           split; [reflexivity |]. split; [discriminate |]. intros _. split; reflexivity.
Qed.

(** While the failure counter is far from overflowing, an iteration
    that goes on keeps the loop within its limit: it never goes round
    again with more than 1000 failures in a row on a block that is nearly
    full. *)
Lemma withinLimit_preserved (l l' : Assembler.Loop) :
  - 2 ^ 63 <= Assembler.nConsecutiveFailed l < 2 ^ 63 - 1 ->
  withinLimit l ->
  Assembler.addPackageTxs_step params l = Done (Assembler.Continue l') ->
  withinLimit l'.
Proof.
  intros Hrange Hinv Hstep. unfold withinLimit in *.
  pose proof (step_iteration l _ Hrange Hstep) as Hit.
  inversion Hit as [l1 Hc Ha _ | l1 Hc Ha _ Hno | l1 Hc _ | |]; subst.
  - rewrite Hc, Ha. exact Hinv.
  - rewrite Ha. destruct (Z.le_gt_cases (Assembler.nConsecutiveFailed l') 1000) as [Hle | Hgt].
    + left. exact Hle.
    + right. intros Hfull. apply Hno. split; [lia | exact Hfull].
  - left. lia.
Qed.

End FailureCounter.

Lemma addPackageTxs_step_failure_counter_witness :
  let env := Sample.assemblerEnv [7%nat] None in
  let l := @Assembler.enterLoop env (@Assembler.resetBlock 0 4000) 0 0 in
  exists l',
    @Assembler.evaluatePackage Sample.node env Sample.params l [] 7%nat None false
      = Done (Assembler.Continue l') /\
    @Assembler.TestPackage env (Assembler.asm l) 250 4 = false /\
    Assembler.nConsecutiveFailed l' = Assembler.nConsecutiveFailed l + 1 /\
    Assembler.asm l' = Assembler.asm l.
Proof.
  intros env l.
  assert (Hrange : - 2 ^ 63 <= Assembler.nConsecutiveFailed l < 2 ^ 63 - 1).
  { vm_compute. split; [intros Hc; discriminate Hc | reflexivity]. }
  eexists. split; [vm_compute; reflexivity |].
  lazymatch goal with
  | |- _ /\ Assembler.nConsecutiveFailed ?l' = _ /\ _ =>
      destruct (proj1 (@addPackageTxs_step_failure_counter Sample.node env
                         Sample.params l Hrange)
                  [] 7%nat None false 250 500 4 (Assembler.Continue l')
                  eq_refl ltac:(vm_compute; reflexivity))
        as [_ [(_ & Hc) | [(_ & Hp & Ha & Hn & _) | [(_ & Hp & _) | (_ & Hp & _)]]]]
  end.
  - discriminate Hc.
  - split; [exact Hp |]. split; [exact Hn | exact Ha].
  - vm_compute in Hp. discriminate Hp.
  - vm_compute in Hp. discriminate Hp.
Defined.

(** C8, as specified, does not hold: with the weight limit at its minimum
    of 4000 every package fails [TestPackage] and the block is within 4000
    of the limit from the start; after 1000 such failures in a row the
    loop is still running, and it is the 1001st that ends it, with one
    mempool entry not yet looked at. *)
Lemma loop_runs_on_after_1000_failures :
  let env := Sample.assemblerEnv (seq 0 1002) None in
  let l0 := @Assembler.enterLoop env (@Assembler.resetBlock 0 4000) 0 0 in
  nearlyFull (Assembler.asm l0) /\
  (exists l,
     @Assembler.addPackageTxs_iterations Sample.node env Sample.params 1000 l0
       = Done (Assembler.Continue l) /\
     Assembler.nConsecutiveFailed l = 1000 /\
     Assembler.asm l = Assembler.asm l0) /\
  (exists l,
     @Assembler.addPackageTxs_iterations Sample.node env Sample.params 1001 l0
       = Done (Assembler.Stop l) /\
     Assembler.nConsecutiveFailed l = 1001 /\
     Assembler.mi l = [1001%nat]).
Proof.
  split; [vm_compute; reflexivity |].
  split; eexists; (split; [vm_compute; reflexivity |]); split; reflexivity.
Qed.

(** ** [CreateNewBlock] when the assembled block is invalid *)

Section ValidityFailure.
Context `{Header} `{Node} `{MinerEnv} `{AssemblerEnv}.
Variable params : Params.

(** C2, as implemented.  When the package loop has finished and the
    template has been built, and [TestBlockValidity] fails on its block
    with state message [msg]: [CreateNewBlock] returns the null template
    exactly when a Pop proof script was passed, whether or not a Hive
    proof script was passed too; in every other case, PoW mode and Hive
    mode alike, it throws [runtime_error] with the state message. *)
Theorem CreateNewBlock_validity_failure (fuel : nat) (minFeeRate maxWeight : Z)
    (scriptPubKeyIn : CScript) (hiveProofScript popProofScript : option CScript)
    (tip : CBlockIndex) (rest : pindex) (l : Assembler.Loop)
    (t : CBlockTemplate) (msg : string) :
  chainActive_Tip = tip :: rest ->
  Assembler.addPackageTxs params fuel
    (Assembler.beforePackages minFeeRate maxWeight tip chainActive_Tip
       hiveProofScript popProofScript) 0 0 = Some (Done l) ->
  Assembler.buildTemplate params (Assembler.asm l) chainActive_Tip scriptPubKeyIn
    hiveProofScript popProofScript = Done t ->
  TestBlockValidity (block t) chainActive_Tip = Some msg ->
  Assembler.CreateNewBlock params fuel minFeeRate maxWeight scriptPubKeyIn
    hiveProofScript popProofScript
  = Some (match popProofScript with
          | Some _ => Done None
          | None => Raise ("CreateNewBlock: TestBlockValidity failed: " ++ msg)
          end).
Proof.
  intros Htip Hloop Hbuild Hinvalid.
  unfold Assembler.CreateNewBlock.
  destruct chainActive_Tip as [| tip' rest'] eqn:Hchain; [discriminate |].
  inversion Htip; subst tip' rest'. rewrite Hloop. cbn [bind].
  unfold Assembler.assembleTemplate. rewrite Hbuild. cbn [bind].
  unfold Assembler.finishTemplate. rewrite Hinvalid.
  destruct popProofScript as [pop |].
  - rewrite bool_decide_eq_true_2 by (exists pop; reflexivity). reflexivity.
  - rewrite bool_decide_eq_false_2 by (intros [x Hx]; discriminate Hx). reflexivity.
Qed.

End ValidityFailure.

Lemma CreateNewBlock_validity_failure_witness :
  let env := Sample.assemblerEnv [] (Some "bad-blk") in
  @Assembler.CreateNewBlock Sample.header Sample.node Sample.minerEnv env
    Sample.params 1 0 4000000 []
    None (Some (Sample.proofScript Byte.x00 Byte.x51))
  = Some (Done None).
Proof.
  intros env.
  refine (@CreateNewBlock_validity_failure Sample.header Sample.node Sample.minerEnv
            env Sample.params 1 0 4000000 []
            None (Some (Sample.proofScript Byte.x00 Byte.x51))
            _ _ _ _ "bad-blk" eq_refl _ _ _).
  - vm_compute. reflexivity.
  - vm_compute. reflexivity.
  - reflexivity.
Defined.

(** C2, as specified, does not hold: asked for a Hive block (a Hive proof
    script and no Pop proof script) on an empty mempool, with a block that
    [TestBlockValidity] refuses, [CreateNewBlock] throws. *)
Lemma hive_mode_validity_failure_throws :
  let env := Sample.assemblerEnv [] (Some "bad-blk") in
  @Assembler.CreateNewBlock Sample.header Sample.node Sample.minerEnv env
    Sample.params 1 0 4000000 []
    (Some (Sample.proofScript Byte.x00 Byte.x00)) None
  = Some (Raise "CreateNewBlock: TestBlockValidity failed: bad-blk") /\
  @Assembler.CreateNewBlock Sample.header Sample.node Sample.minerEnv env
    Sample.params 1 0 4000000 []
    (Some (Sample.proofScript Byte.x00 Byte.x00)) None
  <> Some (Done None).
Proof. split; [vm_compute; reflexivity | vm_compute; discriminate]. Qed.

(** ** The Hive retarget *)

Lemma sumZ_nonneg (l : list Z) : Forall (fun x => 0 <= x) l -> 0 <= sumZ l.
Proof. induction 1; simpl; lia. Qed.



Section HiveRetarget.
Context `{Header}.
Variable params : Params.




End HiveRetarget.

Section HiveRetargetResult.
Context `{Header}.
Variable params : Params.




End HiveRetargetResult.


(** ** The PoW retarget *)

Section PowRetarget.
Context `{Header}.
Variable params : Params.




End PowRetarget.

Section PowRetargetResult.
Context `{Header}.
Variable params : Params.


End PowRetargetResult.


(** ** The package loop ends *)

Section LoopTermination.
Context `{Header} `{Node} `{MinerEnv} `{AssemblerEnv}.
Variable params : Params.

(** The mempool is closed under [CalculateDescendants]. *)
Hypothesis descendants_in_pool : forall it, CalculateDescendants it ⊆ pool.

Lemma modErase_keys it m : keysIn m -> keysIn (Assembler.modErase it m).
Proof.
  unfold keysIn, Assembler.modErase. rewrite !List.Forall_forall.
  intros Hm e He. apply List.filter_In in He as [He _]. apply Hm. exact He.
Qed.

Lemma modInsert_keys e m : iter e ∈ pool -> keysIn m -> keysIn (Assembler.modInsert e m).
Proof.
  intros He. unfold keysIn. induction m as [| x m IH]; intros Hm; simpl.
  - constructor; [exact He | constructor].
  - inversion Hm as [| ? ? Hx Hrest]; subst.
    destruct (CompareTxMemPoolEntryByAncestorFee e x).
    + constructor; [exact He | exact Hm].
    + constructor; [exact Hx | apply IH; exact Hrest].
Qed.

Lemma drop_keys m : keysIn m -> keysIn (drop 1 m).
Proof. unfold keysIn. intros Hm. destruct m; [exact Hm |]. inversion Hm; assumption. Qed.

Lemma updateDescendant_keys A it acc desc :
  desc ∈ pool -> keysIn acc.2 -> keysIn (Assembler.updateDescendant A it acc desc).2.
Proof.
  intros Hd Hm. unfold Assembler.updateDescendant.
  destruct (bool_decide (desc ∈ A)); [exact Hm |].
  destruct acc as [n m]. cbn [snd] in *.
  destruct (Assembler.modFind desc m) as [e |] eqn:Hfind; cbn [snd].
  - apply modInsert_keys; [| apply modErase_keys; exact Hm].
    change (iter e ∈ pool).
    unfold Assembler.modFind in Hfind. apply List.find_some in Hfind as [He _].
    unfold keysIn in Hm. rewrite List.Forall_forall in Hm. apply Hm. exact He.
  - apply modInsert_keys; [exact Hd | exact Hm].
Qed.

Lemma foldl_keys {X} (f : Z * modset -> X -> Z * modset)
    (P : X -> Prop) (xs : list X) :
  (forall acc x, P x -> keysIn acc.2 -> keysIn (f acc x).2) ->
  Forall P xs -> forall acc, keysIn acc.2 -> keysIn (foldl f acc xs).2.
Proof.
  intros Hf Hxs. induction Hxs as [| x xs Hx _ IH]; intros acc Hacc; simpl.
  - exact Hacc.
  - apply IH. apply Hf; assumption.
Qed.

Lemma UpdatePackagesForAdded_keys A m :
  keysIn m -> keysIn (Assembler.UpdatePackagesForAdded A m).2.
Proof.
  intros Hm. unfold Assembler.UpdatePackagesForAdded.
  apply (foldl_keys _ (fun _ => True)); [| apply List.Forall_forall; trivial | exact Hm].
  intros acc it _ Hacc.
  apply (foldl_keys _ (fun d => d ∈ pool)); [| | exact Hacc].
  - intros acc' d Hd Hacc'. apply updateDescendant_keys; assumption.
  - apply List.Forall_forall. intros d Hd.
    apply descendants_in_pool with (it := it).
    apply elem_of_elements. apply list_elem_of_In. exact Hd.
Qed.

(** Adding the sorted package to the block. *)
Lemma addAll_inBlock (entries : list txiter) :
  forall (s : Assembler.State) (m : modset),
    keysIn m ->
    let r := foldl (fun '(s, m) e => (Assembler.AddToBlock s e, Assembler.modErase e m))
               (s, m) entries in
    keysIn r.2 /\
    (forall x, x ∈ entries \/ x ∈ Assembler.inBlock s -> x ∈ Assembler.inBlock r.1).
Proof.
  induction entries as [| e es IH]; intros s m Hm; cbn [foldl].
  - split; [exact Hm |]. intros x [Hx | Hx]; [inversion Hx | exact Hx].
  - destruct (IH (Assembler.AddToBlock s e) (Assembler.modErase e m)
                (modErase_keys e m Hm)) as [Hk Hin].
    split; [exact Hk |]. intros x Hx. apply Hin.
    destruct Hx as [Hx | Hx].
    + apply elem_of_cons in Hx as [-> | Hx]; [right | left; exact Hx].
      cbn. apply elem_of_union. left. apply elem_of_singleton. reflexivity.
    + right. cbn. apply elem_of_union. right. exact Hx.
Qed.

Lemma pool_shrinks (X X' : gset txiter) (it : txiter) :
  it ∈ pool -> it ∉ X -> it ∈ X' -> (forall x, x ∈ X -> x ∈ X') ->
  (size (pool ∖ X') < size (pool ∖ X))%nat.
Proof.
  intros Hp Hn Hi Hsub. apply subset_size. split.
  - intros x Hx. apply elem_of_difference in Hx as [Hx1 Hx2].
    apply elem_of_difference. split; [exact Hx1 |].
    intros Hc. apply Hx2. apply Hsub. exact Hc.
  - intros Hc. specialize (Hc it). rewrite !elem_of_difference in Hc.
    destruct (Hc (conj Hp Hn)) as [_ Hc']. apply Hc'. exact Hi.
Qed.

Lemma evaluatePackage_progress (l l' : Assembler.Loop) mi' it modit (fUsingModified : bool) :
  loopOk l -> it ∈ pool -> Forall (fun x => x ∈ pool) mi' ->
  (if fUsingModified
   then Assembler.mapModifiedTx l <> [] /\ length mi' = length (Assembler.mi l)
   else (length mi' < length (Assembler.mi l))%nat) ->
  Assembler.evaluatePackage params l mi' it modit fUsingModified
    = Done (Assembler.Continue l') ->
  loopOk l' /\ progress l l'.
Proof.
  intros [Hmi Hmod] Hit Hmi' Hcand. unfold Assembler.evaluatePackage.
  destruct (bool_decide (it ∈ Assembler.inBlock (Assembler.asm l))) eqn:Hin;
    cbn [negb assert bind]; [discriminate |].
  apply bool_decide_eq_false in Hin.
  destruct (match fUsingModified, modit with
            | true, Some e => _ | _, _ => _ end) as [[packageSize packageFees] packageSigOpsCost].
  destruct (packageFees <? _); [discriminate |].
  assert (Hdrop : forall failed,
            loopOk (Assembler.dropFailed l mi' it fUsingModified failed) /\
            progress l (Assembler.dropFailed l mi' it fUsingModified failed)).
  { intros failed. split.
    - split; cbn; [exact Hmi' |]. destruct fUsingModified; [apply drop_keys |]; exact Hmod.
    - right. split; [reflexivity |]. cbn.
      destruct fUsingModified.
      + destruct Hcand as [Hne Hlen]. rewrite Hlen.
        destruct (Assembler.mapModifiedTx l); [contradiction |]. cbn.
        rewrite drop_0. lia.
      + lia. }
  destruct (negb (Assembler.TestPackage _ _ _)).
  { destruct (_ && _); intros E; inversion E; subst. apply Hdrop. }
  destruct (negb (Assembler.TestPackageTransactions _ _ _)).
  { intros E; inversion E; subst. apply Hdrop. }
  pose proof (addAll_inBlock
                (Assembler.SortForBlock
                   ({[it]} ∪ (CalculateMemPoolAncestors it ∖ Assembler.inBlock (Assembler.asm l))))
                (Assembler.asm l) (Assembler.mapModifiedTx l) Hmod) as Hadd.
  cbn zeta in Hadd.
  destruct (foldl _ _ _) as [s' m'] eqn:Hfold. cbn [fst snd] in Hadd.
  destruct Hadd as [Hk Hgrow].
  pose proof (UpdatePackagesForAdded_keys
                ({[it]} ∪ (CalculateMemPoolAncestors it ∖ Assembler.inBlock (Assembler.asm l)))
                m' Hk) as Hupd.
  destruct (Assembler.UpdatePackagesForAdded _ m') as [updated m''].
  cbn [snd] in Hupd.
  intros E; inversion E; subst. split.
  - split; cbn; assumption.
  - left. cbn. apply pool_shrinks with (it := it); try assumption.
    + apply Hgrow. left. unfold Assembler.SortForBlock.
      rewrite merge_sort_Permutation. apply elem_of_elements.
      apply elem_of_union. left. apply elem_of_singleton. reflexivity.
    + intros x Hx. apply Hgrow. right. exact Hx.
Qed.

Lemma step_progress (l l' : Assembler.Loop) :
  loopOk l ->
  Assembler.addPackageTxs_step params l = Done (Assembler.Continue l') ->
  loopOk l' /\ progress l l'.
Proof.
  intros Hok. pose proof Hok as [Hmi Hmod]. unfold Assembler.addPackageTxs_step.
  destruct (Assembler.mi l) as [| it rest] eqn:Emi;
    destruct (Assembler.mapModifiedTx l) as [| e m] eqn:Emod.
  - discriminate.
  - apply evaluatePackage_progress; try assumption.
    + inversion Hmod; assumption.
    + rewrite Emod, Emi. split; [discriminate | reflexivity].
  - inversion Hmi as [| ? ? Hit Hrest]; subst.
    destruct (Assembler.SkipMapTxEntry _ _ _ _).
    + intros E; inversion E; subst. split; [split; cbn; assumption |].
      right. split; [reflexivity |]. cbn. rewrite Emi, Emod. cbn. lia.
    + apply evaluatePackage_progress; try assumption. rewrite Emi. cbn. lia.
  - inversion Hmi as [| ? ? Hit Hrest]; subst.
    destruct (Assembler.SkipMapTxEntry _ _ _ _).
    + intros E; inversion E; subst. split; [split; cbn; assumption |].
      right. split; [reflexivity |]. cbn. rewrite Emi, Emod. cbn. lia.
    + destruct (CompareTxMemPoolEntryByAncestorFee _ _).
      * apply evaluatePackage_progress; try assumption.
        -- inversion Hmod; assumption.
        -- rewrite Emod, Emi. split; [discriminate | reflexivity].
      * apply evaluatePackage_progress; try assumption. rewrite Emi. cbn. lia.
Qed.

Lemma addPackageTxs_loop_ends (a : nat) :
  forall (b : nat) (l : Assembler.Loop),
    loopOk l ->
    size (pool ∖ Assembler.inBlock (Assembler.asm l)) = a ->
    (length (Assembler.mi l) + length (Assembler.mapModifiedTx l))%nat = b ->
    exists fuel r, Assembler.addPackageTxs_loop params fuel l = Some r.
Proof.
  induction a as [a IHa] using lt_wf_ind.
  induction b as [b IHb] using lt_wf_ind.
  intros l Hok Ha Hb.
  destruct (Assembler.addPackageTxs_step params l) as [[l' | l'] | log | why | what] eqn:Hstep.
  - destruct (step_progress l l' Hok Hstep) as [Hok' [Hless | [Hsame Hless]]].
    + destruct (IHa _ ltac:(rewrite <- Ha; exact Hless) _ l' Hok' eq_refl eq_refl)
        as (fuel & r & Hrun).
      exists (S fuel), r. cbn [Assembler.addPackageTxs_loop]. rewrite Hstep. exact Hrun.
    + destruct (IHb _ ltac:(rewrite <- Hb; exact Hless) l' Hok'
                  ltac:(rewrite Hsame; exact Ha) eq_refl)
        as (fuel & r & Hrun).
      exists (S fuel), r. cbn [Assembler.addPackageTxs_loop]. rewrite Hstep. exact Hrun.
  - exists 1%nat. eexists. cbn [Assembler.addPackageTxs_loop]. rewrite Hstep. reflexivity.
  - exists 1%nat. eexists. cbn [Assembler.addPackageTxs_loop]. rewrite Hstep. reflexivity.
  - exists 1%nat. eexists. cbn [Assembler.addPackageTxs_loop]. rewrite Hstep. reflexivity.
  - exists 1%nat. eexists. cbn [Assembler.addPackageTxs_loop]. rewrite Hstep. reflexivity.
Qed.

Lemma addPackageTxs_loop_more_fuel (fuel : nat) :
  forall (fuel' : nat) (l : Assembler.Loop) r,
    Assembler.addPackageTxs_loop params fuel l = Some r -> (fuel <= fuel')%nat ->
    Assembler.addPackageTxs_loop params fuel' l = Some r.
Proof.
  induction fuel as [| fuel IH]; intros fuel' l r Hrun Hle; [discriminate |].
  destruct fuel' as [| fuel']; [lia |].
  cbn [Assembler.addPackageTxs_loop] in *.
  destruct (Assembler.addPackageTxs_step params l) as [[l' | l'] | | |];
    try exact Hrun.
  apply IH; [exact Hrun | lia].
Qed.

(** On a mempool closed under [CalculateDescendants] the package loop
    ends from every assembler state: some bound on the iterations is
    enough, and so is every larger one. *)
Theorem addPackageTxs_returns (s : Assembler.State) (nPackagesSelected nDescendantsUpdated : Z) :
  exists fuel r,
    forall fuel', (fuel <= fuel')%nat ->
      Assembler.addPackageTxs params fuel' s nPackagesSelected nDescendantsUpdated = Some r.
Proof.
  unfold Assembler.addPackageTxs.
  assert (Hok : loopOk (Assembler.enterLoop s nPackagesSelected nDescendantsUpdated)).
  { unfold Assembler.enterLoop.
    pose proof (UpdatePackagesForAdded_keys (Assembler.inBlock s) []
                  ltac:(constructor)) as Hk.
    destruct (Assembler.UpdatePackagesForAdded _ _) as [u m]. split; cbn.
    - apply List.Forall_forall. intros x Hx. unfold pool.
      apply elem_of_list_to_set. apply list_elem_of_In. exact Hx.
    - exact Hk. }
  destruct (addPackageTxs_loop_ends _ _ _ Hok eq_refl eq_refl) as (fuel & r & Hrun).
  exists fuel, r. intros fuel' Hle.
  apply addPackageTxs_loop_more_fuel with (fuel := fuel); assumption.
Qed.

(** So [CreateNewBlock] returns, throws or stops on an assertion: with
    enough iterations allowed to the package loop its outcome is
    defined and does not depend on the bound. *)
Theorem CreateNewBlock_returns (minFeeRate maxWeight : Z) (scriptPubKeyIn : CScript)
    (hiveProofScript popProofScript : option CScript) :
  exists fuel outcome,
    forall fuel', (fuel <= fuel')%nat ->
      Assembler.CreateNewBlock params fuel' minFeeRate maxWeight scriptPubKeyIn
        hiveProofScript popProofScript = Some outcome.
Proof.
  unfold Assembler.CreateNewBlock.
  destruct chainActive_Tip as [| tip rest] eqn:Htip.
  - exists 0%nat. eexists. intros fuel' _. reflexivity.
  - destruct (addPackageTxs_returns
                (Assembler.beforePackages minFeeRate maxWeight tip (tip :: rest)
                   hiveProofScript popProofScript) 0 0) as (fuel & r & Hrun).
    exists fuel. eexists. intros fuel' Hle. rewrite (Hrun fuel' Hle). reflexivity.
Qed.

End LoopTermination.

(** ** The assembler's weight limit *)

(** The constructor keeps [nBlockMaxWeight] between 4000 and
    [MAX_BLOCK_WEIGHT - 4000], so [nBlockMaxWeight - 4000] in the package
    loop does not wrap. *)
Lemma clampBlockMaxWeight_bounds `{AssemblerEnv} (optionsMaxWeight : Z) :
  8000 <= MAX_BLOCK_WEIGHT < 2 ^ 32 ->
  4000 <= Assembler.clampBlockMaxWeight optionsMaxWeight <= MAX_BLOCK_WEIGHT - 4000 /\
  Int.u32 (Assembler.clampBlockMaxWeight optionsMaxWeight - 4000)
  = Assembler.clampBlockMaxWeight optionsMaxWeight - 4000.
Proof.
  intros Hmax. unfold Assembler.clampBlockMaxWeight.
  split; [lia |]. apply u32_small. lia.
Qed.

(** ** Witnesses for the assembler's limits and its termination *)

Lemma clampBlockMaxWeight_bounds_witness :
  4000 <= @Assembler.clampBlockMaxWeight (Sample.assemblerEnv [] None) 5000000
       <= @MAX_BLOCK_WEIGHT (Sample.assemblerEnv [] None) - 4000 /\
  Int.u32 (@Assembler.clampBlockMaxWeight (Sample.assemblerEnv [] None) 5000000 - 4000)
  = @Assembler.clampBlockMaxWeight (Sample.assemblerEnv [] None) 5000000 - 4000.
Proof.
  apply (@clampBlockMaxWeight_bounds (Sample.assemblerEnv [] None) 5000000).
  vm_compute. split; [intros Hc; discriminate Hc | reflexivity].
Defined.

Lemma CreateNewBlock_returns_witness :
  exists fuel outcome,
    forall fuel', (fuel <= fuel')%nat ->
      @Assembler.CreateNewBlock Sample.header Sample.node Sample.minerEnv
        (SampleHive.assemblerEnv [1; 2; 3]%nat None) Sample.params
        fuel' 0 3996000 [] (Some (Sample.proofScript Byte.x01 Byte.x00)) None
      = Some outcome.
Proof.
  apply (@CreateNewBlock_returns Sample.header Sample.node Sample.minerEnv
           (SampleHive.assemblerEnv [1; 2; 3]%nat None) Sample.params).
  intros it x Hx. cbn in Hx. apply elem_of_intersection in Hx as [_ Hx]. exact Hx.
Defined.

Lemma counts_agree_without_pop_witness :
  @Miner.minerHiveBlocksSincePow Sample.header Sample.params (drop 2 Sample.mixedChain) 0
  = @Pow.hiveBlocksSincePow Sample.header Sample.params (drop 2 Sample.mixedChain) 0.
Proof.
  apply (@counts_agree_without_pop Sample.header Sample.params (drop 2 Sample.mixedChain) 0).
  repeat constructor.
Defined.

Lemma IncrementExtraNonce_successive_witness :
  4 = 4 /\ 7 = Int.u32 (6 + 1).
Proof.
  refine (@IncrementExtraNonce_successive Sample.minerEnv 4 4 5 6
            (Sample.hiveBlock Byte.x00 Byte.x00) _ _ Sample.mixedChain _ 4 7 _).
  - vm_compute. reflexivity.
  - vm_compute. reflexivity.
Defined.

Lemma withinLimit_preserved_witness :
  exists l',
    @Assembler.addPackageTxs_step Sample.node (Sample.assemblerEnv [7%nat] None)
      Sample.params
      (@Assembler.enterLoop (Sample.assemblerEnv [7%nat] None)
         (@Assembler.resetBlock 0 4000) 0 0)
    = Done (Assembler.Continue l') /\
    withinLimit l'.
Proof.
  eexists. split; [vm_compute; reflexivity |].
  lazymatch goal with
  | |- withinLimit ?l' =>
      apply (@withinLimit_preserved Sample.node (Sample.assemblerEnv [7%nat] None)
               Sample.params
               (@Assembler.enterLoop (Sample.assemblerEnv [7%nat] None)
                  (@Assembler.resetBlock 0 4000) 0 0) l')
  end.
  - vm_compute. split; [intros Hc; discriminate Hc | reflexivity].
  - left. vm_compute. intros Hc; discriminate Hc.
  - vm_compute. reflexivity.
Defined.

(** ** [UpdateTime] *)

Section UpdateTimeProps.
Context `{AssemblerEnv}.

(** While the clock and the median time past fit the header's 32-bit
    time, [UpdateTime] never moves a block's time backwards: the new time
    is the larger of the old one and [max(median time past + 1, adjusted
    time)], nothing else in the header changes, and the value returned is
    the distance from the old time to the clock's, which is zero or
    negative exactly when the block is left as it was. *)
Theorem UpdateTime_never_backwards (pblock : CBlock) (pindexPrev : pindex) :
  let nNewTime := Z.max (Int.i64 (GetMedianTimePast pindexPrev + 1)) GetAdjustedTime in
  0 <= blockTime pblock < 2 ^ 32 ->
  0 <= GetAdjustedTime ->
  nNewTime < 2 ^ 32 ->
  let pblock' := (Assembler.UpdateTime pblock pindexPrev).1 in
  let result := (Assembler.UpdateTime pblock pindexPrev).2 in
  blockTime pblock' = Z.max (blockTime pblock) nNewTime /\
  pblock' = setTime pblock (blockTime pblock') /\
  result = nNewTime - blockTime pblock /\
  (result <= 0 -> pblock' = pblock).
Proof.
  intros nNewTime Hold Hclock Hnew. unfold Assembler.UpdateTime. fold nNewTime.
  cbn [fst snd].
  assert (Hn : 0 <= nNewTime) by (unfold nNewTime; lia).
  rewrite (i64_small (nNewTime - blockTime pblock)) by lia.
  destruct (blockTime pblock <? nNewTime) eqn:Hlt.
  - apply Z.ltb_lt in Hlt. cbn [setTime blockTime].
    rewrite u32_small by lia.
    repeat split; try lia.
  - apply Z.ltb_ge in Hlt.
    repeat split; try lia.
    all: destruct pblock; reflexivity.
Qed.

End UpdateTimeProps.

Lemma UpdateTime_never_backwards_witness :
  blockTime (@Assembler.UpdateTime (Sample.assemblerEnv [] None)
               (Sample.hiveBlock Byte.x00 Byte.x00) Sample.mixedChain).1 = 300 /\
  (@Assembler.UpdateTime (Sample.assemblerEnv [] None)
     (Sample.hiveBlock Byte.x00 Byte.x00) Sample.mixedChain).2 = 0.
Proof.
  destruct (@UpdateTime_never_backwards (Sample.assemblerEnv [] None)
              (Sample.hiveBlock Byte.x00 Byte.x00) Sample.mixedChain)
    as (Ht & _ & Hr & _).
  - vm_compute. split; [intros Hc; discriminate Hc | reflexivity].
  - vm_compute. intros Hc; discriminate Hc.
  - vm_compute. reflexivity.
  - split; [rewrite Ht | rewrite Hr]; reflexivity.
Defined.

(** ** What a nonce scan says about the hash *)

Section ScanHashTarget.
Context `{MinerEnv}.

(** [GetPowHash] is a [uint256]. *)
Hypothesis hash_is_256_bit : forall b, 0 <= GetPowHash b < 2 ^ 256.

Lemma ByteAt_div (h i : Z) : 0 <= i -> ByteAt h i = (h / 2 ^ (8 * i)) mod 256.
Proof.
  intros Hi. unfold ByteAt. change 255 with (Z.ones 8).
  rewrite Z.land_ones by lia. rewrite Z.shiftr_div_pow2 by lia. reflexivity.
Qed.

Lemma top_bytes_zero (h : Z) :
  0 <= h < 2 ^ 256 ->
  ((ByteAt h 31 =? 0) && (ByteAt h 30 =? 0) = true <-> h < 2 ^ 240).
Proof.
  intros Hh. rewrite !ByteAt_div by lia.
  change (8 * 31) with 248. change (8 * 30) with 240.
  assert (H248 : 0 <= h / 2 ^ 248 < 256).
  { split; [apply Z.div_pos; lia |].
    apply Z.div_lt_upper_bound; [lia |]. change (2 ^ 248 * 256) with (2 ^ 256). lia. }
  rewrite (Z.mod_small (h / 2 ^ 248)) by lia.
  rewrite andb_true_iff, !Z.eqb_eq.
  split.
  - intros [H31 H30].
    assert (Hlt : h < 2 ^ 248).
    { apply Z.div_small_iff in H31; lia. }
    assert (H240 : 0 <= h / 2 ^ 240 < 256).
    { split; [apply Z.div_pos; lia |].
      apply Z.div_lt_upper_bound; [lia |]. change (2 ^ 240 * 256) with (2 ^ 248). lia. }
    rewrite Z.mod_small in H30 by lia.
    apply Z.div_small_iff in H30; lia.
  - intros Hlt.
    assert (H240 : h / 2 ^ 240 = 0) by (apply Z.div_small; lia).
    split.
    + apply Z.div_small. assert (2 ^ 240 < 2 ^ 248) by (apply Z.pow_lt_mono_r; lia). lia.
    + rewrite H240. reflexivity.
Qed.

Lemma topBytesZero_below (pblock : CBlock) (n : Z) :
  topBytesZero pblock n = true <-> GetPowHash (setNonce pblock n) < 2 ^ 240.
Proof. unfold topBytesZero. apply top_bytes_zero. apply hash_is_256_bit. Qed.

(** The test on bytes 31 and 30 is a test against 2^240: [ScanHash]
    returns true only with a hash below 2^240, in [*phash] and of the
    header as it leaves it; every nonce it passed over, and the one it
    stops on when it does not return true, has a hash of 2^240 or more,
    and [*phash] is then left alone. *)
Theorem ScanHash_finds_hash_below_2_240 (pblock : CBlock) (nNonce phash : Z) :
  exists k r,
    1 <= k <= 65536 /\
    Miner.ScanHash pblock nNonce phash = Some r /\
    Miner.scanNonce r = Int.u32 (nNonce + k) /\
    (forall j, 1 <= j < k ->
       2 ^ 240 <= GetPowHash (setNonce pblock (Int.u32 (nNonce + j)))) /\
    (Miner.scanFound r = Done true ->
       Miner.scanHash r = GetPowHash (Miner.scanBlock r) /\ Miner.scanHash r < 2 ^ 240) /\
    (Miner.scanFound r <> Done true ->
       2 ^ 240 <= GetPowHash (Miner.scanBlock r) /\ Miner.scanHash r = phash).
Proof.
  pose proof (Z.mod_pos_bound nNonce 65536 ltac:(lia)) as Hmod.
  destruct (ScanHash_loop_stops (Z.to_nat 65536) pblock nNonce phash ltac:(lia))
    as (k & r & Hk & Hrun & Hn & Hb & Hbefore & Hout).
  assert (Hnot : forall n, topBytesZero pblock n = false ->
                           2 ^ 240 <= GetPowHash (setNonce pblock n)).
  { intros n Hf. destruct (Z.lt_ge_cases (GetPowHash (setNonce pblock n)) (2 ^ 240)) as [Hc | Hc];
      [| exact Hc].
    apply topBytesZero_below in Hc. congruence. }
  exists k, r. split; [lia |]. split; [exact Hrun |]. split; [exact Hn |].
  split; [intros j Hj; apply Hnot; apply Hbefore; exact Hj |].
  rewrite Hb.
  destruct Hout as [(Hf & Hh & Hp) | [(Hf & Hh & Hw & Hp) | (Hf & Hh & Hw & Hpoll & Hreq & Hp)]];
    rewrite Hf; split; intros Hc; try congruence; try discriminate Hc.
  - split; [exact Hp |]. rewrite Hp. apply topBytesZero_below. exact Hh.
  - split; [apply Hnot; exact Hh | exact Hp].
  - split; [apply Hnot; exact Hh | exact Hp].
Qed.

End ScanHashTarget.

Lemma ScanHash_finds_hash_below_2_240_witness :
  exists k r,
    1 <= k <= 65536 /\
    @Miner.ScanHash Sample.minerEnv (Sample.hiveBlock Byte.x00 Byte.x00) 65534 7 = Some r /\
    Miner.scanNonce r = Int.u32 (65534 + k) /\
    (forall j, 1 <= j < k ->
       2 ^ 240 <= @GetPowHash Sample.minerEnv
                    (setNonce (Sample.hiveBlock Byte.x00 Byte.x00) (Int.u32 (65534 + j)))) /\
    (Miner.scanFound r = Done true ->
       Miner.scanHash r = @GetPowHash Sample.minerEnv (Miner.scanBlock r)
       /\ Miner.scanHash r < 2 ^ 240) /\
    (Miner.scanFound r <> Done true ->
       2 ^ 240 <= @GetPowHash Sample.minerEnv (Miner.scanBlock r) /\ Miner.scanHash r = 7).
Proof.
  apply (@ScanHash_finds_hash_below_2_240 Sample.minerEnv).
  intros b. cbn. apply Z.mod_pos_bound. lia.
Defined.

(** ** [CheckProofOfWork] *)

Section CheckProofOfWorkProps.
Context `{Header} `{CompactFlags}.
Variable params : Params.

(** Whatever [nBits] claims, [CheckProofOfWork] accepts no hash above
    [powLimitInitialDistribution] and no zero, negative or overflowing
    target; a hash below an accepted one is accepted too; and when the
    limit is below 2^240 an accepted hash has bytes 31 and 30 zero, so
    the quick test of [ScanHash] does not pass over it. *)
Theorem CheckProofOfWork_bounds (hash hash' nBits : Z) :
  ProofOfWork.CheckProofOfWork params hash nBits = true ->
  compactNegative nBits = false /\ compactOverflow nBits = false /\
  SetCompact nBits <> 0 /\
  hash <= SetCompact nBits <= powLimitInitialDistribution params /\
  (hash' <= hash -> ProofOfWork.CheckProofOfWork params hash' nBits = true) /\
  (0 <= hash -> powLimitInitialDistribution params < 2 ^ 240 ->
   (ByteAt hash 31 =? 0) && (ByteAt hash 30 =? 0) = true).
Proof.
  unfold ProofOfWork.CheckProofOfWork.
  destruct (compactNegative nBits); [discriminate |].
  destruct (SetCompact nBits =? 0) eqn:Hzero; [discriminate |].
  destruct (compactOverflow nBits); [discriminate |].
  destruct (powLimitInitialDistribution params <? SetCompact nBits) eqn:Hlimit;
    [discriminate |].
  cbn [orb].
  destruct (SetCompact nBits <? hash) eqn:Hhash; [discriminate |].
  intros _. apply Z.eqb_neq in Hzero. apply Z.ltb_ge in Hlimit, Hhash.
  repeat split; try assumption; try lia.
  - intros Hle. destruct (SetCompact nBits <? hash') eqn:Hhash'; [| reflexivity].
    apply Z.ltb_lt in Hhash'. lia.
  - intros Hpos Hsmall. apply top_bytes_zero.
    + split; [exact Hpos |]. assert (2 ^ 240 < 2 ^ 256) by (apply Z.pow_lt_mono_r; lia). lia.
    + lia.
Qed.

End CheckProofOfWorkProps.

Lemma CheckProofOfWork_bounds_witness :
  @compactNegative SampleHive.compactFlags 1000 = false /\
  @compactOverflow SampleHive.compactFlags 1000 = false /\
  @SetCompact Sample.header 1000 <> 0 /\
  900 <= @SetCompact Sample.header 1000 <= powLimitInitialDistribution Sample.params /\
  (0 <= 900 ->
   @ProofOfWork.CheckProofOfWork Sample.header SampleHive.compactFlags Sample.params 0 1000
   = true) /\
  (0 <= 900 -> powLimitInitialDistribution Sample.params < 2 ^ 240 ->
   (ByteAt 900 31 =? 0) && (ByteAt 900 30 =? 0) = true).
Proof.
  apply (@CheckProofOfWork_bounds Sample.header SampleHive.compactFlags Sample.params
           900 0 1000).
  vm_compute. reflexivity.
Defined.

(** ** The miner's checks and the validator's *)

Section MinerAndValidator.
Context `{Header}.
Variable params : Params.

Lemma minerHiveBlocksSincePow_grows (p : pindex) :
  forall m cnt,
    0 <= m -> m + Z.of_nat (length p) < 2 ^ 31 ->
    Miner.minerHiveBlocksSincePow params p m = Done cnt -> m <= cnt.
Proof.
  induction p as [| b prev IH]; intros m cnt Hm Hlen Hrun; [discriminate |].
  cbn [Miner.minerHiveBlocksSincePow] in Hrun. cbn [length] in Hlen.
  destruct (IsPopMined params b || IsHiveMined params b).
  - destruct prev as [| b' prev']; [discriminate |].
    destruct (IsHiveMined params b).
    + rewrite i32_small in Hrun by lia.
      apply IH in Hrun; [lia | lia |]. cbn [length] in *. lia.
    + apply IH in Hrun; [lia | lia |]. cbn [length] in *. lia.
  - inversion Hrun; subst; lia.
Qed.

Lemma validator_count_below_miner (p : pindex) :
  forall c m cnt,
    0 <= c <= m -> m + Z.of_nat (length p) < 2 ^ 31 ->
    Miner.minerHiveBlocksSincePow params p m = Done cnt ->
    exists c', Pow.hiveBlocksSincePow params p c = Done c' /\ c' <= cnt.
Proof.
  induction p as [| b prev IH]; intros c m cnt Hc Hlen Hrun; [discriminate |].
  cbn [Miner.minerHiveBlocksSincePow] in Hrun. cbn [Pow.hiveBlocksSincePow].
  cbn [length] in Hlen.
  destruct (IsHiveMined params b) eqn:Hhive.
  - rewrite orb_true_r in Hrun.
    destruct prev as [| b' prev']; [discriminate |].
    rewrite i32_small in Hrun by lia. rewrite i32_small by lia.
    apply (IH (c + 1) (m + 1) cnt); [lia | | exact Hrun].
    cbn [length] in *. lia.
  - exists c. split; [reflexivity |].
    rewrite orb_false_r in Hrun.
    destruct (IsPopMined params b).
    + destruct prev as [| b' prev']; [discriminate |].
      apply minerHiveBlocksSincePow_grows in Hrun; [lia | lia |].
      cbn [length] in *. lia.
    + inversion Hrun; subst. lia.
Qed.

(** [DwarfMaster] calls [BusyDwarves] with the tip's height.  When the
    checks before the wallet pass, the first two checks of
    [CheckHiveProof] on a block built on that tip pass too: the block's
    height is past the slow start, and the validator counts no more Hive
    blocks since the last PoW block than the miner did, so fewer than
    [maxConsecutiveHiveBlocks]. *)
Theorem BusyDwarves_prechecks_agree_with_validator
    (net : Miner.NetState) (tip : CBlockIndex) (rest : pindex) :
  nHeight tip + 1 < 2 ^ 31 ->
  Z.of_nat (length (tip :: rest)) < 2 ^ 31 ->
  Miner.BusyDwarves_prechecks params net (tip :: rest) (nHeight tip) = Done tt ->
  (Int.i32 (nHeight tip + 1)
     <? Int.i32 (lastInitialDistributionHeight params + slowStartBlocks params)) = false /\
  exists hiveCount,
    Pow.hiveBlocksSincePow params (tip :: rest) 0 = Done hiveCount /\
    (maxConsecutiveHiveBlocks params <=? hiveCount) = false.
Proof.
  intros Hheight Hlen. unfold Miner.BusyDwarves_prechecks.
  cbn [assert bool_decide bind].
  rewrite bool_decide_true by discriminate. cbn [assert bind].
  destruct (Miner.g_connman net) as [nodeCount |]; [| discriminate].
  destruct (nodeCount =? 0); [discriminate |]. cbn [rejectIf bind].
  destruct (Miner.isInitialBlockDownload net); [discriminate |]. cbn [rejectIf bind].
  destruct (nHeight tip <? _) eqn:Hslow; [discriminate |]. cbn [rejectIf bind].
  destruct (Miner.minerHiveBlocksSincePow params (tip :: rest) 0) as [cnt | | |] eqn:Hcount;
    try discriminate.
  cbn [bind].
  destruct (maxConsecutiveHiveBlocks params <=? cnt) eqn:Hmax; [discriminate |].
  intros _. split.
  - apply Z.ltb_ge in Hslow. apply Z.ltb_ge.
    set (limit := Int.i32 _) in *.
    assert (Hr : - 2 ^ 31 <= limit).
    { unfold limit, Int.i32, Int.wrap_s.
      pose proof (Z.mod_pos_bound (lastInitialDistributionHeight params
                                   + slowStartBlocks params + 2 ^ (32 - 1)) (2 ^ 32)
                    ltac:(lia)). lia. }
    rewrite i32_small by lia. lia.
  - destruct (validator_count_below_miner (tip :: rest) 0 0 cnt ltac:(lia) ltac:(lia) Hcount)
      as (c' & Hv & Hle).
    exists c'. split; [exact Hv |].
    apply Z.leb_gt in Hmax. apply Z.leb_gt. lia.
Qed.

End MinerAndValidator.

Lemma BusyDwarves_prechecks_agree_with_validator_witness :
  (Int.i32 (3 + 1)
     <? Int.i32 (lastInitialDistributionHeight Sample.params
                 + slowStartBlocks Sample.params)) = false /\
  exists hiveCount,
    @Pow.hiveBlocksSincePow Sample.header Sample.params (drop 1 Sample.mixedChain) 0
    = Done hiveCount /\
    (maxConsecutiveHiveBlocks Sample.params <=? hiveCount) = false.
Proof.
  apply (@BusyDwarves_prechecks_agree_with_validator Sample.header Sample.params
           {| Miner.g_connman := Some 8; Miner.isInitialBlockDownload := false |}
           (Sample.blockAt 3 128 1000 180)
           (drop 2 Sample.mixedChain)).
  - vm_compute. reflexivity.
  - vm_compute. reflexivity.
  - vm_compute. reflexivity.
Defined.

(** ** The retargeting functions at their edges *)

Section HiveRetargetTotal.
Context `{Header}.
Variable params : Params.

Lemma u256_nonneg x : 0 <= Int.u256 x.
Proof. unfold Int.u256, Int.wrap_u. apply Z.mod_pos_bound. lia. Qed.

Lemma hiveWindow_returns (p : pindex) :
  p <> [] ->
  forall t c n,
    0 <= t -> 0 <= c -> hiveDifficultyWindow params < 2 ^ 31 ->
    exists t' c' n',
      Pow.hiveWindow params p t c n = Done (t', c', n') /\
      0 <= t' /\ c <= c' /\ c' <= Z.max c (hiveDifficultyWindow params).
Proof.
  induction p as [| b prev IH]; intros Hp t c n Ht Hc Hw; [contradiction |].
  cbn [Pow.hiveWindow].
  destruct (c <? hiveDifficultyWindow params) eqn:Hlt.
  2: { exists t, c, n. repeat split; try lia. }
  apply Z.ltb_lt in Hlt.
  destruct (bool_decide (prev ≠ [])) eqn:Hprev; cbn [andb].
  2: { exists t, c, n. repeat split; try lia. }
  apply bool_decide_eq_true in Hprev.
  destruct (minHiveCheckBlock params <=? nHeight b).
  2: { exists t, c, n. repeat split; try lia. }
  destruct (IsHiveMined params b).
  - rewrite (i32_small (c + 1)) by lia.
    destruct (IH Hprev (Arith256.add t (SetCompact (nBits b))) (c + 1) (Int.i32 (n + 1)))
      as (t' & c' & n' & Hrun & Ht' & Hc' & Hmax); try lia.
    { apply u256_nonneg. }
    exists t', c', n'. repeat split; try assumption; lia.
  - destruct (IH Hprev t c (Int.i32 (n + 1)))
      as (t' & c' & n' & Hrun & Ht' & Hc' & Hmax); try lia.
    exists t', c', n'. repeat split; try assumption; lia.
Qed.

(** On every chain, with a positive spacing target and a window that
    does not overflow an [int] when multiplied by it,
    [GetNextHiveWorkRequired] returns: it neither throws on a zero
    divisor nor stops on a null pointer, and the target it encodes is
    never above [powLimitHive]. *)
Theorem GetNextHiveWorkRequired_never_above_limit (pindexLast : pindex) :
  pindexLast <> [] ->
  0 <= powLimitHive params ->
  0 < hiveBlockSpacingTarget params ->
  hiveDifficultyWindow params * hiveBlockSpacingTarget params < 2 ^ 31 ->
  exists target,
    Pow.GetNextHiveWorkRequired params pindexLast = Done (GetCompact target) /\
    0 <= target <= powLimitHive params.
Proof.
  intros Hp Hlimit Hspacing Hwindow.
  assert (Hw : hiveDifficultyWindow params < 2 ^ 31) by nia.
  unfold Pow.GetNextHiveWorkRequired.
  destruct (hiveWindow_returns pindexLast Hp 0 0 0 ltac:(lia) ltac:(lia) Hw)
    as (t' & c' & n' & Hrun & Ht' & Hc' & Hmax).
  rewrite Hrun. cbn [bind].
  destruct (c' =? 0) eqn:Hzero.
  { exists (powLimitHive params). split; [reflexivity | lia]. }
  apply Z.eqb_neq in Hzero.
  assert (Hc : 1 <= c' <= hiveDifficultyWindow params) by lia.
  unfold Arith256.div at 1. rewrite (u64_small c') by lia.
  destruct (c' =? 0) eqn:E; [apply Z.eqb_eq in E; lia |]. cbn [bind].
  assert (Hprod : 1 <= c' * hiveBlockSpacingTarget params < 2 ^ 31) by nia.
  rewrite (i32_small (c' * hiveBlockSpacingTarget params)) by lia.
  unfold Arith256.div. rewrite (u64_small (c' * hiveBlockSpacingTarget params)) by lia.
  destruct (c' * hiveBlockSpacingTarget params =? 0) eqn:E'; [apply Z.eqb_eq in E'; lia |].
  cbn [bind].
  set (q := Arith256.mul32 (t' / c') n' / (c' * hiveBlockSpacingTarget params)).
  assert (Hq : 0 <= q).
  { unfold q. apply Z.div_pos; [| lia]. unfold Arith256.mul32. apply u256_nonneg. }
  destruct (powLimitHive params <? q) eqn:Hcap.
  - exists (powLimitHive params). split; [reflexivity | lia].
  - apply Z.ltb_ge in Hcap. exists q. split; [reflexivity | lia].
Qed.

End HiveRetargetTotal.

Lemma GetNextHiveWorkRequired_never_above_limit_witness :
  exists target,
    @Pow.GetNextHiveWorkRequired Sample.header Sample.params Sample.mixedChain
    = Done (@GetCompact Sample.header target) /\
    0 <= target <= powLimitHive Sample.params.
Proof.
  apply (@GetNextHiveWorkRequired_never_above_limit Sample.header Sample.params).
  - discriminate.
  - vm_compute. intros Hc; discriminate Hc.
  - vm_compute. reflexivity.
  - vm_compute. reflexivity.
Defined.

Section PowRetargetEdges.
Context `{Header}.
Variable params : Params.

Lemma skipHiveMined_outcome (p : pindex) :
  (exists why, Pow.skipHiveMined params p = Crash why) \/
  (exists b q, Pow.skipHiveMined params p = Done (b :: q)
               /\ (length (b :: q) <= length p)%nat).
Proof.
  induction p as [| b prev IH]; cbn [Pow.skipHiveMined].
  - left. eexists. reflexivity.
  - destruct (IsHiveMined params b).
    + destruct prev as [| b' prev']; [left; eexists; reflexivity |].
      destruct IH as [IH | (b0 & q & Hrun & Hlen)]; [left; exact IH |].
      right. exists b0, q. split; [exact Hrun |]. cbn [length] in *. lia.
    + right. exists b, prev. split; [reflexivity | lia].
Qed.

Lemma pastTargetAvg_short (n : nat) :
  forall (p : pindex) (avg : Z),
    (1 <= n)%nat -> (length p <= n)%nat ->
    exists why, Pow.pastTargetAvg params n p avg = Crash why.
Proof.
  induction n as [| n IH]; intros p avg Hn Hlen; [lia |].
  cbn [Pow.pastTargetAvg].
  destruct (skipHiveMined_outcome p) as [[why Hrun] | (b & q & Hrun & Hq)];
    rewrite Hrun; cbn [bind].
  - exists why. reflexivity.
  - unfold Arith256.div. change (Int.u64 Pow.nPastBlocks =? 0) with false. cbn [bind].
    destruct q as [| b' q'].
    + rewrite bool_decide_false by (intros Hc; apply Hc; reflexivity).
      cbn [assert bind]. eexists. reflexivity.
    + rewrite bool_decide_true by discriminate. cbn [assert bind].
      cbn [length] in *. apply IH; cbn [length]; lia.
Qed.

(** The averaging loop steps back through 24 PoW blocks and asserts a
    predecessor after each: past the initial distribution, and without
    the minimum-difficulty rule, [GetNextWorkRequired] stops on an
    assertion or a null pointer on every chain of 24 blocks or fewer. *)
Theorem GetNextWorkRequired_short_chain_asserts (tip : CBlockIndex) (rest : pindex)
    (pblockTime : Z) :
  lastInitialDistributionHeight params <= nHeight tip ->
  fPowAllowMinDifficultyBlocks params = false ->
  (length (tip :: rest) <= 24)%nat ->
  exists why, Pow.GetNextWorkRequired params (tip :: rest) pblockTime = Crash why.
Proof.
  intros Hheight Hmin Hlen. unfold Pow.GetNextWorkRequired.
  apply Z.ltb_ge in Hheight. rewrite Hheight, Hmin. cbn [andb].
  destruct (skipHiveMined_outcome (tip :: rest)) as [[why Hrun] | (b & q & Hrun & Hq)];
    rewrite Hrun; cbn [bind].
  - exists why. reflexivity.
  - destruct (pastTargetAvg_short (Z.to_nat Pow.nPastBlocks) (b :: q) 0) as [why Hcrash].
    + change (Z.to_nat Pow.nPastBlocks) with 24%nat. lia.
    + change (Z.to_nat Pow.nPastBlocks) with 24%nat. lia.
    + rewrite Hcrash. exists why. reflexivity.
Qed.

(** Whenever [GetNextWorkRequired] returns, the target it encodes is
    [powLimitInitialDistribution] or at most [powLimit]. *)
Theorem GetNextWorkRequired_never_above_limit (pindexLast : pindex) (pblockTime bits : Z) :
  Pow.GetNextWorkRequired params pindexLast pblockTime = Done bits ->
  exists target,
    bits = GetCompact target /\
    (target = powLimitInitialDistribution params \/ target <= powLimit params).
Proof.
  unfold Pow.GetNextWorkRequired.
  destruct pindexLast as [| tip rest]; [discriminate |].
  destruct (nHeight tip <? _).
  { intros E; inversion E. eexists. split; [reflexivity | left; reflexivity]. }
  destruct (_ && _).
  { intros E; inversion E. eexists. split; [reflexivity | right; lia]. }
  intros E.
  apply bind_Done in E as (last & _ & E).
  apply bind_Done in E as ([avg old] & _ & E).
  destruct last as [| lastb ?]; [discriminate |].
  destruct old as [| oldb ?]; [discriminate |].
  apply bind_Done in E as (bnNew & _ & E).
  inversion E. eexists. split; [reflexivity |]. right.
  destruct (powLimit params <? bnNew) eqn:Hcap; [lia |].
  apply Z.ltb_ge in Hcap. exact Hcap.
Qed.

End PowRetargetEdges.

Lemma GetNextWorkRequired_short_chain_asserts_witness :
  exists why,
    @Pow.GetNextWorkRequired Sample.header Sample.params Sample.mixedChain 300 = Crash why.
Proof.
  apply (@GetNextWorkRequired_short_chain_asserts Sample.header Sample.params
           (Sample.blockAt 4 192 1000 240) (drop 1 Sample.mixedChain) 300).
  - vm_compute. intros Hc; discriminate Hc.
  - reflexivity.
  - vm_compute. lia.
Defined.

Lemma GetNextWorkRequired_never_above_limit_witness :
  exists target,
    2400 = @GetCompact Sample.header target /\
    (target = powLimitInitialDistribution Sample.params \/ target <= powLimit Sample.params).
Proof.
  apply (@GetNextWorkRequired_never_above_limit Sample.header Sample.params
           Sample.longChain 1590 2400).
  vm_compute. reflexivity.
Defined.

(** ** What an accepted Hive proof establishes *)

Lemma rejectIf_Done c log u : rejectIf c log = Done u -> c = false.
Proof. destruct c; [discriminate | reflexivity]. Qed.

Lemma at_Done {A} (v : list A) i x : at_ v i = Done x -> v !! i = Some x.
Proof. unfold at_. destruct (v !! i); intros E; inversion E; reflexivity. Qed.

Ltac exec_done :=
  repeat match goal with
  | E : bind ?m ?k = Done _ |- _ =>
      let a := fresh "a" in
      let Ha := fresh "Ha" in
      apply bind_Done in E as (a & Ha & E); cbn beta in E
  | E : rejectIf _ _ = Done _ |- _ => apply rejectIf_Done in E
  | E : at_ _ _ = Done _ |- _ => apply at_Done in E
  end.

Section Acceptance.
Context `{Header} `{Node}.
Variable params : Params.

(** What [CheckHiveProof] has established of a block it accepts: the
    previous block is known; the height is past the slow start; fewer
    than [maxConsecutiveHiveBlocks] Hive blocks precede it since the last
    PoW block; no transaction behind the coinbase is a DCT; the coinbase
    has two or three outputs, the first a script of at least 144 bytes
    that starts [OP_RETURN OP_DWARF]; and the hash of the dwarf named in
    that script, computed as [CheckBin] computes it, is below the target
    of [GetNextHiveWorkRequired]. *)
Theorem CheckHiveProof_accepted_block (st : ChainState) (pblock : CBlock) :
  Pow.CheckHiveProof params st pblock = Done tt ->
  exists tip rest txCoinbase proofOut rewardOut hiveCount bits,
    Pow.lookupBlockIndex st (hashPrevBlock pblock) = tip :: rest /\
    Int.i32 (lastInitialDistributionHeight params + slowStartBlocks params)
      <= Int.i32 (nHeight tip + 1) /\
    Pow.hiveBlocksSincePow params (tip :: rest) 0 = Done hiveCount /\
    hiveCount < maxConsecutiveHiveBlocks params /\
    Forall (fun tx => IsDCT params tx (GetScriptForAddress (dwarfCreationAddress params))
                      = false) (drop 1 (vtx pblock)) /\
    vtx pblock !! 0%nat = Some txCoinbase /\
    IsCoinBase txCoinbase = true /\
    vout txCoinbase !! 0%nat = Some proofOut /\
    vout txCoinbase !! 1%nat = Some rewardOut /\
    (length (vout txCoinbase) <= 3)%nat /\
    (144 <= length (scriptPubKey proofOut))%nat /\
    scriptPubKey proofOut !! 0%nat = Some OP_RETURN /\
    scriptPubKey proofOut !! 1%nat = Some OP_DWARF /\
    Pow.GetNextHiveWorkRequired params (tip :: rest) = Done bits /\
    HiveMiner.dwarfHashOf (GetDeterministicRandString (tip :: rest))
      (take 64 (drop 14 (scriptPubKey proofOut)))
      (ReadLE32 (take 4 (drop 3 (scriptPubKey proofOut))))
    < SetCompact bits.
Proof.
  unfold Pow.CheckHiveProof, Pow.proofChecks. intros E.
  exec_done.
  destruct (Pow.lookupBlockIndex st (hashPrevBlock pblock)) as [| tip rest] eqn:Hprev;
    [discriminate |].
  cbn [Pow.deref] in *.
  match goal with HD : Done tip = Done _ |- _ => inversion HD; subst end.
  repeat match goal with HL : (_ <? _) = false |- _ => apply Z.ltb_ge in HL end.
  repeat match goal with HL : (_ <=? _) = false |- _ => apply Z.leb_gt in HL end.
  repeat match goal with HL : (_ || _) = false |- _ => apply orb_false_iff in HL as [? ?] end.
  repeat match goal with HL : negb _ = false |- _ => apply negb_false_iff in HL end.
  repeat match goal with HL : (_ <? _)%nat = false |- _ => apply Nat.ltb_ge in HL end.
  repeat match goal with HL : bool_decide _ = true |- _ => apply bool_decide_eq_true in HL end.
  subst.
  do 7 eexists. repeat split; try eassumption; try lia.
  apply Forall_forall. intros tx Htx.
  apply not_true_is_false. intros Hc.
  match goal with
  | HE : existsb _ _ = false |- _ =>
      rewrite <- not_true_iff_false, existsb_exists in HE; apply HE
  end.
  exists tx. split; [apply list_elem_of_In; exact Htx | exact Hc].
Qed.
End Acceptance.

Lemma CheckHiveProof_accepted_block_witness :
  exists tip rest txCoinbase proofOut rewardOut hiveCount bits,
    Pow.lookupBlockIndex (Sample.chainState 20000 0)
      (hashPrevBlock (Sample.hiveBlock Byte.x01 Byte.x00)) = tip :: rest /\
    Int.i32 (lastInitialDistributionHeight Sample.params + slowStartBlocks Sample.params)
      <= Int.i32 (nHeight tip + 1) /\
    @Pow.hiveBlocksSincePow Sample.header Sample.params (tip :: rest) 0 = Done hiveCount /\
    hiveCount < maxConsecutiveHiveBlocks Sample.params /\
    Forall (fun tx => @IsDCT Sample.node Sample.params tx
                        (@GetScriptForAddress Sample.node
                           (dwarfCreationAddress Sample.params)) = false)
      (drop 1 (vtx (Sample.hiveBlock Byte.x01 Byte.x00))) /\
    vtx (Sample.hiveBlock Byte.x01 Byte.x00) !! 0%nat = Some txCoinbase /\
    @IsCoinBase Sample.node txCoinbase = true /\
    vout txCoinbase !! 0%nat = Some proofOut /\
    vout txCoinbase !! 1%nat = Some rewardOut /\
    (length (vout txCoinbase) <= 3)%nat /\
    (144 <= length (scriptPubKey proofOut))%nat /\
    scriptPubKey proofOut !! 0%nat = Some (@OP_RETURN Sample.node) /\
    scriptPubKey proofOut !! 1%nat = Some (@OP_DWARF Sample.node) /\
    @Pow.GetNextHiveWorkRequired Sample.header Sample.params (tip :: rest) = Done bits /\
    @HiveMiner.dwarfHashOf Sample.node
      (@GetDeterministicRandString Sample.node (tip :: rest))
      (take 64 (drop 14 (scriptPubKey proofOut)))
      (@ReadLE32 Sample.node (take 4 (drop 3 (scriptPubKey proofOut))))
    < @SetCompact Sample.header bits.
Proof.
  apply (@CheckHiveProof_accepted_block Sample.header Sample.node Sample.params).
  vm_compute. reflexivity.
Defined.

(** ** What the package loop keeps, and what the template shows of it *)

Lemma i64_add_i64 a b : Int.i64 (Int.i64 a + b) = Int.i64 (a + b).
Proof.
  unfold Int.i64, Int.wrap_s. f_equal.
  replace ((a + 2 ^ (64 - 1)) mod 2 ^ 64 - 2 ^ (64 - 1) + b + 2 ^ (64 - 1))
    with ((a + 2 ^ (64 - 1)) mod 2 ^ 64 + b) by lia.
  rewrite Zplus_mod_idemp_l. f_equal. lia.
Qed.

Lemma sumZ_app l x : sumZ (l ++ [x]) = sumZ l + x.
Proof.
  unfold sumZ. induction l as [| y l IH]; cbn [foldr app]; [lia |].
  fold (l ++ [x]). rewrite IH. lia.
Qed.

Section TemplateInvariant.
Context `{Header} `{Node} `{MinerEnv} `{AssemblerEnv}.
Variable params : Params.

Lemma admissible_sameRules s s' tx :
  sameRules s s' -> admissible params s tx -> admissible params s' tx.
Proof.
  intros (Hh & Hc & Hw & Hd). unfold admissible. rewrite Hh, Hc, Hw, Hd. trivial.
Qed.

Lemma drop1_app {A} (l : list A) (x : A) :
  (1 <= length l)%nat -> drop 1 (l ++ [x]) = drop 1 l ++ [x].
Proof. destruct l; cbn; [lia | rewrite !drop_0; reflexivity]. Qed.

Lemma AddToBlock_consistent (s : Assembler.State) (it : txiter) :
  consistent params s -> admissible params s (GetSharedTx it) ->
  consistent params (Assembler.AddToBlock s it) /\ sameRules s (Assembler.AddToBlock s it).
Proof.
  intros (Hne & Hfees & Hsig & Hsum & Hadm) Hit. split.
  - unfold consistent. cbn.
    rewrite !length_app. cbn [length].
    repeat split; try lia.
    + rewrite drop1_app by lia. rewrite sumZ_app, Hsum. apply i64_add_i64.
    + rewrite drop1_app by lia. apply Forall_app. split.
      * eapply Forall_impl; [exact Hadm |]. intros tx Htx. exact Htx.
      * constructor; [exact Hit | constructor].
  - repeat split.
Qed.

Lemma addAll_consistent (entries : list txiter) :
  forall (s : Assembler.State) (m : modset),
    consistent params s ->
    Forall (fun it => admissible params s (GetSharedTx it)) entries ->
    let r := foldl (fun '(s, m) e => (Assembler.AddToBlock s e, Assembler.modErase e m))
               (s, m) entries in
    consistent params r.1 /\ sameRules s r.1.
Proof.
  induction entries as [| e es IH]; intros s m Hs Hes; cbn [foldl].
  - split; [exact Hs | repeat split].
  - inversion Hes as [| ? ? He Hrest]; subst.
    destruct (AddToBlock_consistent s e Hs He) as [Hs' Hsame].
    destruct (IH (Assembler.AddToBlock s e) (Assembler.modErase e m) Hs') as [Hc Hr].
    + eapply Forall_impl; [exact Hrest |]. intros it Hit.
      apply (admissible_sameRules s); assumption.
    + split; [exact Hc |].
      destruct Hsame as (? & ? & ? & ?), Hr as (? & ? & ? & ?).
      repeat split; congruence.
Qed.

Lemma TestPackageTransactions_admissible (s : Assembler.State) (package : gset txiter) :
  Assembler.TestPackageTransactions params s package = true ->
  Forall (fun it => admissible params s (GetSharedTx it)) (Assembler.SortForBlock package).
Proof.
  unfold Assembler.TestPackageTransactions. rewrite forallb_forall. intros Hall.
  apply Forall_forall. intros it Hit.
  unfold Assembler.SortForBlock in Hit. rewrite merge_sort_Permutation in Hit.
  specialize (Hall it ltac:(apply list_elem_of_In; exact Hit)). cbn beta in Hall.
  unfold admissible.
  destruct (IsFinalTx _ _ _); [| discriminate]. cbn [negb] in Hall.
  destruct (Assembler.fIncludeWitness s), (HasWitness (GetSharedTx it));
    cbn [negb andb] in Hall; try discriminate;
    destruct (Assembler.fIncludeDCTs s), (IsDCT _ _ _);
    cbn [negb andb] in Hall; try discriminate;
    repeat split; congruence.
Qed.

Lemma evaluatePackage_consistent (l : Assembler.Loop) mi' it modit (fUsingModified : bool) st :
  consistent params (Assembler.asm l) ->
  Assembler.evaluatePackage params l mi' it modit fUsingModified = Done st ->
  consistent params (Assembler.asm (loopOf st))
  /\ sameRules (Assembler.asm l) (Assembler.asm (loopOf st)).
Proof.
  intros Hs. unfold Assembler.evaluatePackage.
  assert (Hsame : consistent params (Assembler.asm l)
                  /\ sameRules (Assembler.asm l) (Assembler.asm l))
    by (split; [exact Hs | repeat split]).
  destruct (bool_decide (it ∈ Assembler.inBlock (Assembler.asm l)));
    cbn [negb assert bind]; [discriminate |].
  destruct (match fUsingModified, modit with
            | true, Some e => _ | _, _ => _ end) as [[packageSize packageFees] packageSigOpsCost].
  destruct (packageFees <? _); [intros E; inversion E; subst; exact Hsame |].
  destruct (negb (Assembler.TestPackage _ _ _)).
  { destruct (_ && _); intros E; inversion E; subst; exact Hsame. }
  destruct (Assembler.TestPackageTransactions _ _ _) eqn:Htest; cbn [negb].
  2: { intros E; inversion E; subst; exact Hsame. }
  pose proof (addAll_consistent _ (Assembler.asm l) (Assembler.mapModifiedTx l) Hs
                (TestPackageTransactions_admissible _ _ Htest)) as Hadd.
  cbn zeta in Hadd.
  destruct (foldl _ _ _) as [s' m']. cbn [fst] in Hadd.
  destruct (Assembler.UpdatePackagesForAdded _ m') as [updated m''].
  intros E; inversion E; subst. exact Hadd.
Qed.

Lemma step_consistent (l : Assembler.Loop) st :
  consistent params (Assembler.asm l) ->
  Assembler.addPackageTxs_step params l = Done st ->
  consistent params (Assembler.asm (loopOf st))
  /\ sameRules (Assembler.asm l) (Assembler.asm (loopOf st)).
Proof.
  intros Hs. unfold Assembler.addPackageTxs_step.
  assert (Hsame : consistent params (Assembler.asm l)
                  /\ sameRules (Assembler.asm l) (Assembler.asm l))
    by (split; [exact Hs | repeat split]).
  destruct (Assembler.mi l) as [| it rest]; destruct (Assembler.mapModifiedTx l) as [| e m] eqn:Em.
  - intros E; inversion E; subst. exact Hsame.
  - intros E. eapply evaluatePackage_consistent; eassumption.
  - destruct (Assembler.SkipMapTxEntry _ _ _ _).
    + intros E; inversion E; subst. exact Hsame.
    + intros E. eapply evaluatePackage_consistent; eassumption.
  - destruct (Assembler.SkipMapTxEntry _ _ _ _).
    + intros E; inversion E; subst. exact Hsame.
    + destruct (CompareTxMemPoolEntryByAncestorFee _ _);
        intros E; eapply evaluatePackage_consistent; eassumption.
Qed.

Lemma loop_consistent (fuel : nat) :
  forall (l l' : Assembler.Loop),
    consistent params (Assembler.asm l) ->
    Assembler.addPackageTxs_loop params fuel l = Some (Done l') ->
    consistent params (Assembler.asm l') /\ sameRules (Assembler.asm l) (Assembler.asm l').
Proof.
  induction fuel as [| fuel IH]; intros l l' Hs Hrun; [discriminate |].
  cbn [Assembler.addPackageTxs_loop] in Hrun.
  destruct (Assembler.addPackageTxs_step params l) as [[l1 | l1] | | |] eqn:Hstep;
    try discriminate.
  - destruct (step_consistent l _ Hs Hstep) as [Hc Hr]. cbn [loopOf] in *.
    destruct (IH l1 l' Hc Hrun) as [Hc' Hr'].
    split; [exact Hc' |].
    destruct Hr as (? & ? & ? & ?), Hr' as (? & ? & ? & ?). repeat split; congruence.
  - inversion Hrun; subst. apply (step_consistent l _ Hs Hstep).
Qed.


Lemma enterLoop_asm (s : Assembler.State) (a b : Z) :
  Assembler.asm (Assembler.enterLoop s a b) = s.
Proof.
  unfold Assembler.enterLoop. destruct (Assembler.UpdatePackagesForAdded _ _). reflexivity.
Qed.

Lemma beforePackages_consistent (minFeeRate maxWeight : Z) (tip : CBlockIndex)
    (pindexPrev : pindex) (hiveProofScript popProofScript : option CScript) :
  consistent params
    (Assembler.beforePackages minFeeRate maxWeight tip pindexPrev
       hiveProofScript popProofScript).
Proof.
  unfold consistent. cbn. repeat split; try lia. constructor.
Qed.

(** What [buildTemplate] makes of a consistent assembler. *)
Lemma buildTemplate_facts (s : Assembler.State) (pindexPrev : pindex)
    (scriptPubKeyIn : CScript) (hiveProofScript popProofScript : option CScript)
    (t : CBlockTemplate) :
  consistent params s ->
  Assembler.buildTemplate params s pindexPrev scriptPubKeyIn hiveProofScript popProofScript
  = Done t ->
  (exists tip rest, pindexPrev = tip :: rest /\ hashPrevBlock (block t) = hashBlock tip) /\
  blockNonce (block t) = Assembler.nonceFor params hiveProofScript popProofScript /\
  Assembler.bitsFor params pindexPrev (block t) hiveProofScript popProofScript
  = Done (blockBits (block t)) /\
  vTxFees t = Int.i64 (- Int.i64 (sumZ (drop 1 (vTxFees (Assembler.pblocktemplate s)))))
              :: drop 1 (vTxFees (Assembler.pblocktemplate s)) /\
  length (vTxSigOpsCost t) = length (vTxFees t) /\
  ((forall b p, drop 1 (vtx (GenerateCoinbaseCommitment b p).1) = drop 1 (vtx b)) ->
   drop 1 (vtx (block t)) = drop 1 (vtx (block (Assembler.pblocktemplate s))) /\
   length (vtx (block t)) = length (vTxFees t)).
Proof.
  intros (Hne & Hfees & Hsig & Hsum & Hadm). unfold Assembler.buildTemplate. intros E.
  apply bind_Done in E as (coinbaseTx & _ & E).
  destruct (GenerateCoinbaseCommitment _ pindexPrev) as [pblock commitment] eqn:Hgcc.
  apply bind_Done in E as (prev & Hprev & E).
  destruct pindexPrev as [| tip rest]; [discriminate |].
  cbn [Pow.deref] in Hprev. inversion Hprev; subst prev.
  destruct (Assembler.UpdateTime _ _) as [pblock' r] eqn:Htime.
  apply bind_Done in E as (bits & Hbits & E).
  apply bind_Done in E as (cb & Hcb & E).
  inversion E; subst t. cbn. clear E.
  assert (Hsame : vtx pblock' = vtx pblock /\ hashPrevBlock pblock' = hashBlock tip).
  { unfold Assembler.UpdateTime in Htime. inversion Htime as [[Hp Hr]].
    destruct (_ <? _); split; reflexivity. }
  destruct Hsame as [Hvtx Hhash].
  split; [exists tip, rest; split; [reflexivity | exact Hhash] |].
  split; [reflexivity |].
  split.
  { unfold Assembler.bitsFor in *. cbn [blockTime Assembler.setHeader]. exact Hbits. }
  split; [rewrite Hsum; reflexivity |].
  split; [rewrite !length_drop; lia |].
  intros Hcommit.
  assert (Htail : drop 1 (vtx pblock') = drop 1 (vtx (block (Assembler.pblocktemplate s)))).
  { rewrite Hvtx. pose proof (Hcommit
      (setVtx (block (Assembler.pblocktemplate s))
         (coinbaseTx :: drop 1 (vtx (block (Assembler.pblocktemplate s))))) (tip :: rest)) as Hc.
    rewrite Hgcc in Hc. cbn in Hc. rewrite drop_0 in Hc. exact Hc. }
  split; [exact Htail |].
  cbn [vtx Assembler.setHeader] in Hcb. unfold at_ in Hcb.
  destruct (vtx pblock') as [| c0 tl] eqn:Hv; [discriminate |].
  cbn [drop] in Htail. rewrite drop_0 in Htail. subst tl.
  cbn [length]. rewrite !length_drop. lia.
Qed.

(** A template that [CreateNewBlock] returns was built from a consistent
    assembler working under the rules set before the package loop. *)
Lemma CreateNewBlock_built (fuel : nat) (minFeeRate maxWeight : Z)
    (scriptPubKeyIn : CScript) (hiveProofScript popProofScript : option CScript)
    (t : CBlockTemplate) :
  Assembler.CreateNewBlock params fuel minFeeRate maxWeight scriptPubKeyIn
    hiveProofScript popProofScript = Some (Done (Some t)) ->
  exists tip rest s,
    chainActive_Tip = tip :: rest /\
    consistent params s /\
    sameRules (Assembler.beforePackages minFeeRate maxWeight tip (tip :: rest)
                 hiveProofScript popProofScript) s /\
    Assembler.buildTemplate params s (tip :: rest) scriptPubKeyIn
      hiveProofScript popProofScript = Done t /\
    TestBlockValidity (block t) (tip :: rest) = None.
Proof.
  unfold Assembler.CreateNewBlock.
  destruct chainActive_Tip as [| tip rest]; [discriminate |].
  unfold Assembler.addPackageTxs.
  destruct (Assembler.addPackageTxs_loop _ _ _) as [r |] eqn:Hloop; [| discriminate].
  intros E. inversion E as [E']. clear E.
  apply bind_Done in E' as (l & -> & E).
  unfold Assembler.assembleTemplate in E.
  apply bind_Done in E as (t0 & Hbuild & E).
  unfold Assembler.finishTemplate in E.
  destruct (TestBlockValidity (block t0) (tip :: rest)) eqn:Hvalid.
  { destruct (bool_decide _); discriminate. }
  inversion E; subst t0.
  destruct (loop_consistent fuel _ l
              ltac:(rewrite enterLoop_asm; apply beforePackages_consistent) Hloop)
    as [Hc Hr].
  rewrite enterLoop_asm in Hr.
  exists tip, rest, (Assembler.asm l).
  split; [reflexivity |]. split; [exact Hc |]. split; [exact Hr |].
  split; assumption.
Qed.

Lemma AddToBlock_includes (s : Assembler.State) (it : txiter) (entries : list txiter) :
  includes s entries -> includes (Assembler.AddToBlock s it) (entries ++ [it]).
Proof.
  intros ((c & Hvtx) & (f & Hfees) & (g & Hsig) & Hsum).
  unfold includes. cbn. rewrite Hvtx, Hfees, Hsig, Hsum, !map_app. cbn [map].
  split; [exists c; reflexivity |]. split; [exists f; reflexivity |].
  split; [exists g; reflexivity |].
  rewrite sumZ_app. apply i64_add_i64.
Qed.

Lemma addAll_includes (added : list txiter) :
  forall (s : Assembler.State) (m : modset) (entries : list txiter),
    includes s entries ->
    includes
      (foldl (fun '(s, m) e => (Assembler.AddToBlock s e, Assembler.modErase e m))
         (s, m) added).1
      (entries ++ added).
Proof.
  induction added as [| e es IH]; intros s m entries Hs; cbn [foldl].
  - rewrite app_nil_r. exact Hs.
  - replace (entries ++ e :: es) with ((entries ++ [e]) ++ es)
      by (rewrite <- app_assoc; reflexivity).
    apply IH. apply AddToBlock_includes. exact Hs.
Qed.

Lemma evaluatePackage_includes (l : Assembler.Loop) mi' it modit (fUsingModified : bool)
    st entries :
  includes (Assembler.asm l) entries ->
  Assembler.evaluatePackage params l mi' it modit fUsingModified = Done st ->
  exists added, includes (Assembler.asm (loopOf st)) (entries ++ added).
Proof.
  intros Hs. unfold Assembler.evaluatePackage.
  assert (Hsame : exists added, includes (Assembler.asm l) (entries ++ added))
    by (exists []; rewrite app_nil_r; exact Hs).
  destruct (bool_decide (it ∈ Assembler.inBlock (Assembler.asm l)));
    cbn [negb assert bind]; [discriminate |].
  destruct (match fUsingModified, modit with
            | true, Some e => _ | _, _ => _ end) as [[packageSize packageFees] packageSigOpsCost].
  destruct (packageFees <? _); [intros E; inversion E; subst; exact Hsame |].
  destruct (negb (Assembler.TestPackage _ _ _)).
  { destruct (_ && _); intros E; inversion E; subst; exact Hsame. }
  destruct (Assembler.TestPackageTransactions _ _ _); cbn [negb].
  2: { intros E; inversion E; subst; exact Hsame. }
  pose proof (addAll_includes
                (Assembler.SortForBlock
                   ({[ it ]} ∪ (CalculateMemPoolAncestors it
                                ∖ Assembler.inBlock (Assembler.asm l))))
                (Assembler.asm l) (Assembler.mapModifiedTx l) entries Hs) as Hadd.
  destruct (foldl _ _ _) as [s' m']. cbn [fst] in Hadd.
  destruct (Assembler.UpdatePackagesForAdded _ m') as [updated m''].
  intros E; inversion E; subst. eexists. exact Hadd.
Qed.

Lemma step_includes (l : Assembler.Loop) st entries :
  includes (Assembler.asm l) entries ->
  Assembler.addPackageTxs_step params l = Done st ->
  exists added, includes (Assembler.asm (loopOf st)) (entries ++ added).
Proof.
  intros Hs. unfold Assembler.addPackageTxs_step.
  assert (Hsame : exists added, includes (Assembler.asm l) (entries ++ added))
    by (exists []; rewrite app_nil_r; exact Hs).
  destruct (Assembler.mi l) as [| it rest]; destruct (Assembler.mapModifiedTx l) as [| e m] eqn:Em.
  - intros E; inversion E; subst. exact Hsame.
  - intros E. eapply evaluatePackage_includes; eassumption.
  - destruct (Assembler.SkipMapTxEntry _ _ _ _).
    + intros E; inversion E; subst. exact Hsame.
    + intros E. eapply evaluatePackage_includes; eassumption.
  - destruct (Assembler.SkipMapTxEntry _ _ _ _).
    + intros E; inversion E; subst. exact Hsame.
    + destruct (CompareTxMemPoolEntryByAncestorFee _ _);
        intros E; eapply evaluatePackage_includes; eassumption.
Qed.

Lemma loop_includes (fuel : nat) :
  forall (l l' : Assembler.Loop) entries,
    includes (Assembler.asm l) entries ->
    Assembler.addPackageTxs_loop params fuel l = Some (Done l') ->
    exists added, includes (Assembler.asm l') (entries ++ added).
Proof.
  induction fuel as [| fuel IH]; intros l l' entries Hs Hrun; [discriminate |].
  cbn [Assembler.addPackageTxs_loop] in Hrun.
  destruct (Assembler.addPackageTxs_step params l) as [[l1 | l1] | | |] eqn:Hstep;
    try discriminate.
  - destruct (step_includes l _ entries Hs Hstep) as [added Hadded]. cbn [loopOf] in Hadded.
    destruct (IH l1 l' _ Hadded Hrun) as [added' Hadded'].
    exists (added ++ added'). rewrite app_assoc. exact Hadded'.
  - inversion Hrun; subst. apply (step_includes l _ entries Hs Hstep).
Qed.

Lemma beforePackages_includes (minFeeRate maxWeight : Z) (tip : CBlockIndex)
    (pindexPrev : pindex) (hiveProofScript popProofScript : option CScript) :
  includes
    (Assembler.beforePackages minFeeRate maxWeight tip pindexPrev
       hiveProofScript popProofScript) [].
Proof.
  unfold includes. cbn. repeat split; eexists; reflexivity.
Qed.

(** [buildTemplate] replaces the first sigop entry and keeps the others. *)
Lemma buildTemplate_sigops (s : Assembler.State) (pindexPrev : pindex)
    (scriptPubKeyIn : CScript) (hiveProofScript popProofScript : option CScript)
    (t : CBlockTemplate) :
  Assembler.buildTemplate params s pindexPrev scriptPubKeyIn hiveProofScript popProofScript
  = Done t ->
  drop 1 (vTxSigOpsCost t) = drop 1 (vTxSigOpsCost (Assembler.pblocktemplate s)).
Proof.
  unfold Assembler.buildTemplate. intros E.
  apply bind_Done in E as (coinbaseTx & _ & E).
  destruct (GenerateCoinbaseCommitment _ pindexPrev) as [pblock commitment].
  apply bind_Done in E as (prev & _ & E).
  destruct (Assembler.UpdateTime _ _) as [pblock' r].
  apply bind_Done in E as (bits & _ & E).
  apply bind_Done in E as (cb & _ & E).
  inversion E; subst t. cbn. rewrite drop_0. reflexivity.
Qed.

(** A template that [CreateNewBlock] returns was built from a consistent
    assembler that includes the entries added by the package loop. *)
Lemma CreateNewBlock_included (fuel : nat) (minFeeRate maxWeight : Z)
    (scriptPubKeyIn : CScript) (hiveProofScript popProofScript : option CScript)
    (t : CBlockTemplate) :
  Assembler.CreateNewBlock params fuel minFeeRate maxWeight scriptPubKeyIn
    hiveProofScript popProofScript = Some (Done (Some t)) ->
  exists pindexPrev s entries,
    consistent params s /\
    includes s entries /\
    Assembler.buildTemplate params s pindexPrev scriptPubKeyIn
      hiveProofScript popProofScript = Done t.
Proof.
  unfold Assembler.CreateNewBlock.
  destruct chainActive_Tip as [| tip rest]; [discriminate |].
  unfold Assembler.addPackageTxs.
  destruct (Assembler.addPackageTxs_loop _ _ _) as [r |] eqn:Hloop; [| discriminate].
  intros E. inversion E as [E']. clear E.
  apply bind_Done in E' as (l & -> & E).
  unfold Assembler.assembleTemplate in E.
  apply bind_Done in E as (t0 & Hbuild & E).
  unfold Assembler.finishTemplate in E.
  destruct (TestBlockValidity (block t0) (tip :: rest)).
  { destruct (bool_decide _); discriminate. }
  inversion E; subst t0.
  destruct (loop_consistent fuel _ l
              ltac:(rewrite enterLoop_asm; apply beforePackages_consistent) Hloop)
    as [Hc _].
  destruct (loop_includes fuel _ l []
              ltac:(rewrite enterLoop_asm; apply beforePackages_includes) Hloop)
    as [entries Hentries].
  exists (tip :: rest), (Assembler.asm l), entries.
  split; [exact Hc |]. split; [exact Hentries | exact Hbuild].
Qed.

(** In a template that [CreateNewBlock] returns, the entries of [vTxFees]
    behind the coinbase slot are the fees [GetFee] of the mempool entries
    the package loop added, in the order it added them, and the slot
    itself holds minus their total, as a 64-bit amount; the entries of
    [vTxSigOpsCost] behind the first are the sigop costs [GetSigOpCost] of
    the same entries, and there is one sigop entry per fee entry.  When
    [GenerateCoinbaseCommitment] leaves the transactions behind the
    coinbase alone, those transactions are the ones of the same entries.
    [vTxFees] sums to zero when the total does not overflow. *)
Theorem CreateNewBlock_fee_entries (fuel : nat) (minFeeRate maxWeight : Z)
    (scriptPubKeyIn : CScript) (hiveProofScript popProofScript : option CScript)
    (t : CBlockTemplate) :
  Assembler.CreateNewBlock params fuel minFeeRate maxWeight scriptPubKeyIn
    hiveProofScript popProofScript = Some (Done (Some t)) ->
  exists entries : list txiter,
    vTxFees t = Int.i64 (- Int.i64 (sumZ (map GetFee entries))) :: map GetFee entries /\
    drop 1 (vTxSigOpsCost t) = map GetSigOpCost entries /\
    length (vTxSigOpsCost t) = length (vTxFees t) /\
    ((forall b p, drop 1 (vtx (GenerateCoinbaseCommitment b p).1) = drop 1 (vtx b)) ->
     drop 1 (vtx (block t)) = map GetSharedTx entries) /\
    (- 2 ^ 63 < sumZ (map GetFee entries) < 2 ^ 63 -> sumZ (vTxFees t) = 0).
Proof.
  intros Hrun.
  destruct (CreateNewBlock_included _ _ _ _ _ _ _ Hrun)
    as (pindexPrev & s & entries & Hc & Hin & Hbuild).
  destruct (buildTemplate_facts _ _ _ _ _ _ Hc Hbuild)
    as (_ & _ & _ & Hfees & Hlen & Hvtx).
  pose proof (buildTemplate_sigops _ _ _ _ _ _ Hbuild) as Hsig.
  destruct Hin as ((c & Hvtx0) & (f & Hfees0) & (g & Hsig0) & _).
  rewrite Hfees0 in Hfees. rewrite Hsig0 in Hsig.
  cbn [drop] in Hfees, Hsig. rewrite drop_0 in Hfees, Hsig.
  exists entries.
  split; [exact Hfees |]. split; [exact Hsig |]. split; [exact Hlen |].
  split.
  { intros Hcommit. destruct (Hvtx Hcommit) as [Htail _].
    rewrite Htail, Hvtx0. cbn [drop]. apply drop_0. }
  intros Hsum. rewrite Hfees. cbn [sumZ foldr].
  fold (sumZ (map GetFee entries)).
  rewrite !i64_small by (try rewrite i64_small; lia). lia.
Qed.

(** A Hive or Pop template builds on the tip, carries the nonce marker of
    its mode, has passed [TestBlockValidity], lists one fee per
    transaction, and holds no DCT behind its coinbase: the validator's
    check for DCTs in a Hive-mined block cannot fire on it. *)
Theorem CreateNewBlock_proof_block_has_no_DCT (fuel : nat) (minFeeRate maxWeight : Z)
    (scriptPubKeyIn : CScript) (hiveProofScript popProofScript : option CScript)
    (t : CBlockTemplate) :
  (forall b p, drop 1 (vtx (GenerateCoinbaseCommitment b p).1) = drop 1 (vtx b)) ->
  is_Some hiveProofScript \/ is_Some popProofScript ->
  Assembler.CreateNewBlock params fuel minFeeRate maxWeight scriptPubKeyIn
    hiveProofScript popProofScript = Some (Done (Some t)) ->
  exists tip rest,
    chainActive_Tip = tip :: rest /\
    hashPrevBlock (block t) = hashBlock tip /\
    blockNonce (block t) = Assembler.nonceFor params hiveProofScript popProofScript /\
    TestBlockValidity (block t) (tip :: rest) = None /\
    length (vtx (block t)) = length (vTxFees t) /\
    existsb (fun tx => IsDCT params tx (GetScriptForAddress (dwarfCreationAddress params)))
      (drop 1 (vtx (block t))) = false.
Proof.
  intros Hcommit Hmode Hrun.
  destruct (CreateNewBlock_built _ _ _ _ _ _ _ Hrun)
    as (tip & rest & s & Htip & Hc & Hr & Hbuild & Hvalid).
  destruct (buildTemplate_facts _ _ _ _ _ _ Hc Hbuild)
    as ((tip' & rest' & Heq & Hhash) & Hnonce & _ & _ & _ & Hvtx).
  inversion Heq; subst tip' rest'.
  destruct (Hvtx Hcommit) as [Htail Hlen].
  exists tip, rest. repeat split; try assumption.
  rewrite Htail. destruct Hc as (_ & _ & _ & _ & Hadm).
  destruct Hr as (_ & _ & _ & Hdct).
  assert (Hoff : Assembler.fIncludeDCTs s = false).
  { rewrite Hdct. cbn.
    destruct Hmode as [Hm | Hm].
    - rewrite (bool_decide_true _ Hm). reflexivity.
    - rewrite (bool_decide_true _ Hm). rewrite orb_true_r. reflexivity. }
  apply not_true_is_false. intros Hex. apply existsb_exists in Hex as (tx & Hin & Hd).
  rewrite Forall_forall in Hadm.
  destruct (Hadm tx ltac:(apply list_elem_of_In; exact Hin)) as (_ & _ & Hno).
  rewrite (Hno Hoff) in Hd. discriminate.
Qed.

(** Every transaction behind the coinbase of a template passed the
    per-transaction tests of the package loop: it is final at the new
    height and lock-time cutoff, and carries no witness unless witness
    is enabled after the tip. *)
Theorem CreateNewBlock_transactions_admissible (fuel : nat) (minFeeRate maxWeight : Z)
    (scriptPubKeyIn : CScript) (hiveProofScript popProofScript : option CScript)
    (t : CBlockTemplate) :
  (forall b p, drop 1 (vtx (GenerateCoinbaseCommitment b p).1) = drop 1 (vtx b)) ->
  Assembler.CreateNewBlock params fuel minFeeRate maxWeight scriptPubKeyIn
    hiveProofScript popProofScript = Some (Done (Some t)) ->
  exists tip rest,
    chainActive_Tip = tip :: rest /\
    Forall (fun tx =>
              IsFinalTx tx (Int.i32 (nHeight tip + 1))
                (if lockTimeMedianTimePast then GetMedianTimePast (tip :: rest)
                 else Int.u32 GetAdjustedTime) = true /\
              (IsWitnessEnabled (tip :: rest) = false -> HasWitness tx = false))
      (drop 1 (vtx (block t))).
Proof.
  intros Hcommit Hrun.
  destruct (CreateNewBlock_built _ _ _ _ _ _ _ Hrun)
    as (tip & rest & s & Htip & Hc & Hr & Hbuild & Hvalid).
  destruct (buildTemplate_facts _ _ _ _ _ _ Hc Hbuild)
    as (_ & _ & _ & _ & _ & Hvtx).
  destruct (Hvtx Hcommit) as [Htail _].
  exists tip, rest. split; [exact Htip |].
  rewrite Htail. destruct Hc as (_ & _ & _ & _ & Hadm).
  destruct Hr as (Hh & Hcut & Hw & _). cbn in Hh, Hcut, Hw.
  eapply Forall_impl; [exact Hadm |].
  intros tx (Hfinal & Hwit & _). rewrite Hh, Hcut, Hw in *. split; assumption.
Qed.


End TemplateInvariant.

Lemma CreateNewBlock_fee_entries_witness :
  let env := Sample.assemblerEnv [1; 2; 3]%nat None in
  exists t entries,
    @Assembler.CreateNewBlock Sample.header Sample.node Sample.minerEnv env Sample.params
      10 0 3996000 [] (Some (Sample.proofScript Byte.x01 Byte.x00)) None
    = Some (Done (Some t)) /\
    vTxFees t = Int.i64 (- Int.i64 (sumZ (map (@GetFee env) entries)))
                :: map (@GetFee env) entries /\
    drop 1 (vTxSigOpsCost t) = map (@GetSigOpCost env) entries /\
    length (vTxSigOpsCost t) = length (vTxFees t) /\
    drop 1 (vtx (block t)) = map (@GetSharedTx env) entries /\
    (- 2 ^ 63 < sumZ (map (@GetFee env) entries) < 2 ^ 63 -> sumZ (vTxFees t) = 0).
Proof.
  intros env. eexists.
  lazymatch goal with
  | |- exists entries, ?run = Some (Done (Some ?t)) /\ _ =>
      assert (Hrun : run = Some (Done (Some t))) by (vm_compute; reflexivity);
      destruct (@CreateNewBlock_fee_entries Sample.header Sample.node Sample.minerEnv
                  env Sample.params
                  10 0 3996000 [] (Some (Sample.proofScript Byte.x01 Byte.x00)) None
                  t Hrun) as (entries & Hfees & Hsig & Hlen & Hvtx & Hsum);
      exists entries; split; [exact Hrun |]
  end.
  split; [exact Hfees |]. split; [exact Hsig |]. split; [exact Hlen |].
  split; [apply Hvtx; intros b p; reflexivity |].
  exact Hsum.
Defined.

Lemma CreateNewBlock_proof_block_has_no_DCT_witness :
  exists t tip rest,
    @Assembler.CreateNewBlock Sample.header Sample.node Sample.minerEnv
      (Sample.assemblerEnv [1; 2; 3]%nat None) Sample.params
      10 0 3996000 [] (Some (Sample.proofScript Byte.x01 Byte.x00)) None
    = Some (Done (Some t)) /\
    @chainActive_Tip (Sample.assemblerEnv [1; 2; 3]%nat None) = tip :: rest /\
    hashPrevBlock (block t) = hashBlock tip /\
    blockNonce (block t) = hiveNonceMarker Sample.params /\
    @TestBlockValidity (Sample.assemblerEnv [1; 2; 3]%nat None) (block t) (tip :: rest)
    = None /\
    length (vtx (block t)) = length (vTxFees t) /\
    existsb (fun tx => @IsDCT Sample.node Sample.params tx
                         (@GetScriptForAddress Sample.node
                            (dwarfCreationAddress Sample.params)))
      (drop 1 (vtx (block t))) = false.
Proof.
  eexists.
  lazymatch goal with
  | |- exists tip rest, ?run = Some (Done (Some ?t)) /\ _ =>
      assert (Hrun : run = Some (Done (Some t))) by (vm_compute; reflexivity);
      destruct (@CreateNewBlock_proof_block_has_no_DCT Sample.header Sample.node
                  Sample.minerEnv (Sample.assemblerEnv [1; 2; 3]%nat None) Sample.params
                  10 0 3996000 [] (Some (Sample.proofScript Byte.x01 Byte.x00)) None
                  t ltac:(intros b p; reflexivity) ltac:(left; eexists; reflexivity) Hrun)
        as (tip & rest & Hfacts);
      exists tip, rest; split; [exact Hrun | exact Hfacts]
  end.
Defined.

Lemma CreateNewBlock_transactions_admissible_witness :
  exists t tip rest,
    @Assembler.CreateNewBlock Sample.header Sample.node Sample.minerEnv
      (Sample.assemblerEnv [1; 2; 3]%nat None) Sample.params
      10 0 3996000 [] (Some (Sample.proofScript Byte.x01 Byte.x00)) None
    = Some (Done (Some t)) /\
    @chainActive_Tip (Sample.assemblerEnv [1; 2; 3]%nat None) = tip :: rest /\
    Forall (fun tx =>
              @IsFinalTx (Sample.assemblerEnv [1; 2; 3]%nat None) tx
                (Int.i32 (nHeight tip + 1))
                (if @lockTimeMedianTimePast (Sample.assemblerEnv [1; 2; 3]%nat None)
                 then @GetMedianTimePast (Sample.assemblerEnv [1; 2; 3]%nat None)
                        (tip :: rest)
                 else Int.u32 (@GetAdjustedTime (Sample.assemblerEnv [1; 2; 3]%nat None)))
              = true /\
              (@IsWitnessEnabled (Sample.assemblerEnv [1; 2; 3]%nat None) (tip :: rest)
               = false ->
               @HasWitness (Sample.assemblerEnv [1; 2; 3]%nat None) tx = false))
      (drop 1 (vtx (block t))).
Proof.
  eexists.
  lazymatch goal with
  | |- exists tip rest, ?run = Some (Done (Some ?t)) /\ _ =>
      assert (Hrun : run = Some (Done (Some t))) by (vm_compute; reflexivity);
      destruct (@CreateNewBlock_transactions_admissible Sample.header Sample.node
                  Sample.minerEnv (Sample.assemblerEnv [1; 2; 3]%nat None) Sample.params
                  10 0 3996000 [] (Some (Sample.proofScript Byte.x01 Byte.x00)) None
                  t ltac:(intros b p; reflexivity) Hrun)
        as (tip & rest & Hfacts);
      exists tip, rest; split; [exact Hrun | exact Hfacts]
  end.
Defined.

(** ** The Hive miner's bins *)

Section Binning.

Lemma nextMature_binnable rest : Forall binnable rest -> HiveMiner.nextMature rest = rest.
Proof.
  intros Hrest. destruct rest as [| d rest']; [reflexivity |].
  inversion Hrest as [| ? ? [Hm _] _]; subst. cbn. rewrite Hm. reflexivity.
Qed.

Lemma binSize_app bin r : binSize (bin ++ [r]) = binSize bin + CDwarfRange.count r.
Proof. unfold binSize. rewrite map_app. cbn [map]. apply sumZ_app. Qed.

Lemma dwarvesOfBin_app bin r : dwarvesOfBin (bin ++ [r]) = dwarvesOfBin bin ++ dwarvesOfRange r.
Proof. unfold dwarvesOfBin. rewrite flat_map_app. cbn. rewrite app_nil_r. reflexivity. Qed.

Lemma sumZ_counts_nonneg dcts : Forall binnable dcts -> 0 <= sumZ (map dctCount dcts).
Proof.
  intros Hd. apply sumZ_nonneg. apply Forall_fmap.
  eapply Forall_impl; [exact Hd |]. intros d [_ Hc]. cbn. lia.
Qed.

Lemma remaining_0 dcts : remaining dcts 0 = flat_map dwarvesOfDct dcts.
Proof.
  destruct dcts as [| d rest]; [reflexivity |].
  cbn [remaining flat_map]. rewrite Z.sub_0_r. reflexivity.
Qed.

Variable dwarvesPerBin : Z.
Hypothesis perBin_range : 0 < dwarvesPerBin < 2 ^ 31.

Lemma fillBin_spec (n : nat) :
  forall dcts dwarfOffset currentBin dwarvesInBin,
    Forall binnable dcts -> offsetOk dcts dwarfOffset ->
    (length dcts <= n)%nat ->
    0 <= dwarvesInBin <= dwarvesPerBin ->
    binSize currentBin = dwarvesInBin ->
    Forall (fun r => 0 <= CDwarfRange.count r) currentBin ->
    exists bin' dcts' offset',
      HiveMiner.fillBin n dwarvesPerBin dcts dwarfOffset currentBin dwarvesInBin
      = (bin', dcts', offset') /\
      dwarvesOfBin bin' ++ remaining dcts' offset'
      = dwarvesOfBin currentBin ++ remaining dcts dwarfOffset /\
      binSize bin' <= dwarvesPerBin /\
      Forall (fun r => 0 <= CDwarfRange.count r) bin' /\
      Forall binnable dcts' /\ offsetOk dcts' offset' /\
      toBin dcts' offset' <= toBin dcts dwarfOffset /\
      (dcts <> [] -> dwarvesInBin < dwarvesPerBin ->
       toBin dcts' offset' < toBin dcts dwarfOffset).
Proof.
  induction n as [| n IH]; intros dcts off bin inBin Hd Hoff Hlen Hin Hsize Hpos;
    subst inBin.
  - destruct dcts; [| cbn in Hlen; lia].
    exists bin, [], off. cbn. repeat split; try lia; try assumption. congruence.
  - destruct dcts as [| dct rest].
    { exists bin, [], off. cbn. repeat split; try lia; try assumption. congruence. }
    inversion Hd as [| ? ? [Hm Hc] Hrest]; subst.
    cbn [offsetOk] in Hoff. cbn [HiveMiner.fillBin].
    rewrite (i32_small (dwarvesPerBin - binSize bin)) by lia.
    rewrite (i32_small (dctCount dct - off)) by lia.
    destruct (dctCount dct - off <=? dwarvesPerBin - binSize bin) eqn:Hfit.
    + apply Z.leb_le in Hfit.
      rewrite (i32_small (binSize bin + (dctCount dct - off))) by lia.
      rewrite (nextMature_binnable rest Hrest).
      destruct (IH rest 0 (bin ++ [HiveMiner.rangeOf dct off (dctCount dct - off)])
                  (binSize bin + (dctCount dct - off)))
        as (bin' & dcts' & off' & Hrun & Hdw & Hsz & Hpos' & Hd' & Hoff' & Hle & _).
      * exact Hrest.
      * destruct rest as [| d' ?]; [exact I |].
        inversion Hrest as [| ? ? [_ Hc'] _]; subst. cbn. lia.
      * cbn in Hlen. lia.
      * lia.
      * rewrite binSize_app. reflexivity.
      * apply Forall_app. split; [exact Hpos |]. constructor; [cbn; lia | constructor].
      * exists bin', dcts', off'. split; [exact Hrun |].
        assert (Hrem : toBin rest 0 < toBin (dct :: rest) off).
        { unfold toBin. cbn [length map sumZ foldr].
          fold (sumZ (map dctCount rest)). lia. }
        split.
        { rewrite Hdw, dwarvesOfBin_app, <- app_assoc. f_equal.
          rewrite remaining_0. reflexivity. }
        repeat split; try assumption; try lia.
    + apply Z.leb_gt in Hfit.
      rewrite (i32_small (off + (dwarvesPerBin - binSize bin))) by lia.
      eexists _, _, _. split; [reflexivity |].
      split.
      { rewrite dwarvesOfBin_app, <- app_assoc. f_equal.
        cbn [remaining]. rewrite app_assoc. f_equal.
        unfold dwarvesOfRange. cbn. rewrite <- map_app. f_equal.
        rewrite <- seqZ_app by lia. f_equal. lia. }
      rewrite binSize_app. cbn.
      split; [lia |].
      split; [apply Forall_app; split; [exact Hpos |]; constructor; [cbn; lia | constructor] |].
      repeat split; try assumption; try lia.
      * unfold toBin. lia.
      * intros _ Hroom. unfold toBin. lia.
Qed.

Lemma toBin_positive dcts off :
  Forall binnable dcts -> offsetOk dcts off -> dcts <> [] -> 1 <= toBin dcts off.
Proof.
  intros Hd Hoff Hne. destruct dcts as [| d rest]; [contradiction |].
  inversion Hd as [| ? ? _ Hrest]; subst. cbn [offsetOk] in Hoff.
  pose proof (sumZ_counts_nonneg rest Hrest).
  unfold toBin. cbn [length map sumZ foldr]. fold (sumZ (map dctCount rest)). lia.
Qed.

Lemma binLoop_spec (fuel : nat) :
  forall dcts dwarfOffset dwarfBins,
    Forall binnable dcts -> offsetOk dcts dwarfOffset ->
    toBin dcts dwarfOffset <= Z.of_nat fuel ->
    exists bins,
      HiveMiner.binLoop fuel dwarvesPerBin dcts dwarfOffset dwarfBins
      = Some (dwarfBins ++ bins) /\
      flat_map dwarvesOfBin bins = remaining dcts dwarfOffset /\
      Forall (fun bin => binSize bin <= dwarvesPerBin
                         /\ Forall (fun r => 0 <= CDwarfRange.count r) bin) bins.
Proof.
  induction fuel as [| fuel IH]; intros dcts off bins Hd Hoff Hfuel.
  - destruct dcts as [| d rest].
    + exists []. cbn. rewrite app_nil_r. repeat split. constructor.
    + pose proof (toBin_positive (d :: rest) off Hd Hoff ltac:(discriminate)). lia.
  - destruct dcts as [| d rest].
    { exists []. cbn. rewrite app_nil_r. repeat split. constructor. }
    cbn [HiveMiner.binLoop].
    destruct (fillBin_spec (length (d :: rest)) (d :: rest) off [] 0 Hd Hoff
                ltac:(lia) ltac:(lia) eq_refl ltac:(constructor))
      as (bin' & dcts' & off' & Hrun & Hdw & Hsz & Hpos & Hd' & Hoff' & _ & Hless).
    rewrite Hrun.
    specialize (Hless ltac:(discriminate) ltac:(lia)).
    destruct (IH dcts' off' (bins ++ [bin']) Hd' Hoff' ltac:(lia))
      as (more & Hloop & Hdwarves & Hbins).
    exists (bin' :: more). split; [rewrite Hloop, <- app_assoc; reflexivity |].
    split.
    + cbn [flat_map]. rewrite Hdwarves. exact Hdw.
    + constructor; [split; assumption | exact Hbins].
Qed.

End Binning.

Lemma matureDcts_filter (l : list CDwarfCreationTransactionInfo.t) :
  forall dcts total,
    Forall (fun d => 0 <= dctCount d) l ->
    0 <= total ->
    total + sumZ (map dctCount (List.filter HiveMiner.isMature l)) < 2 ^ 31 ->
    foldl
      (fun '(dcts, totalDwarves) dct =>
         if HiveMiner.isMature dct
         then (dcts ++ [dct], Int.i32 (totalDwarves + dctCount dct))
         else (dcts, totalDwarves))
      (dcts, total) l
    = (dcts ++ List.filter HiveMiner.isMature l,
       total + sumZ (map dctCount (List.filter HiveMiner.isMature l))).
Proof.
  induction l as [| d l IH]; intros dcts total Hl Htot Hsum; cbn [foldl List.filter].
  - cbn. rewrite app_nil_r, Z.add_0_r. reflexivity.
  - inversion Hl as [| ? ? Hd Hrest]; subst.
    assert (Hnn : 0 <= sumZ (map dctCount (List.filter HiveMiner.isMature l))).
    { apply sumZ_nonneg. apply Forall_fmap. apply Forall_forall. intros x Hx.
      apply list_elem_of_In, filter_In in Hx as [Hx _].
      rewrite Forall_forall in Hrest. apply Hrest. apply list_elem_of_In. exact Hx. }
    cbn [List.filter] in Hsum.
    destruct (HiveMiner.isMature d) eqn:Hm.
    + cbn [map sumZ foldr] in Hsum.
      fold (sumZ (map dctCount (List.filter HiveMiner.isMature l))) in Hsum.
      rewrite i32_small by lia. rewrite IH; try assumption; try lia.
      rewrite <- app_assoc. cbn [app map sumZ foldr].
      fold (sumZ (map dctCount (List.filter HiveMiner.isMature l))).
      f_equal. lia.
    + apply IH; assumption.
Qed.

Lemma filter_binnable (l : list CDwarfCreationTransactionInfo.t) :
  Forall (fun d => 0 <= dctCount d) l ->
  sumZ (map dctCount (List.filter HiveMiner.isMature l)) < 2 ^ 31 ->
  Forall binnable (List.filter HiveMiner.isMature l).
Proof.
  induction l as [| d l IH]; intros Hl Hsum; cbn [List.filter]; [constructor |].
  inversion Hl as [| ? ? Hd Hrest]; subst.
  assert (Hnn : 0 <= sumZ (map dctCount (List.filter HiveMiner.isMature l))).
  { apply sumZ_nonneg. apply Forall_fmap. apply Forall_forall. intros x Hx.
    apply list_elem_of_In, filter_In in Hx as [Hx _].
    rewrite Forall_forall in Hrest. apply Hrest. apply list_elem_of_In. exact Hx. }
  cbn [List.filter] in Hsum.
  destruct (HiveMiner.isMature d) eqn:Hm.
  - cbn [map sumZ foldr] in Hsum.
    fold (sumZ (map dctCount (List.filter HiveMiner.isMature l))) in Hsum.
    constructor; [split; [exact Hm | lia] | apply IH; [exact Hrest | lia]].
  - apply IH; assumption.
Qed.

Lemma length_dwarvesOfBin (bin : list CDwarfRange.t) :
  Forall (fun r => 0 <= CDwarfRange.count r) bin ->
  Z.of_nat (length (dwarvesOfBin bin)) = binSize bin.
Proof.
  induction 1 as [| r bin Hr _ IH]; [reflexivity |].
  unfold dwarvesOfBin, binSize in *. cbn [flat_map map sumZ foldr].
  rewrite length_app, Nat2Z.inj_add, IH.
  unfold dwarvesOfRange. rewrite length_map, length_seqZ. fold (sumZ (map CDwarfRange.count bin)). lia.
Qed.

(** The bins that [BusyDwarves] hands to its threads hold every dwarf of
    every mature DCT exactly once and in order, and no bin holds more
    than [dwarvesPerBin] dwarves. *)
Theorem BusyDwarves_bins_partition_the_dwarves
    (potentialDcts : list CDwarfCreationTransactionInfo.t) (dwarvesPerBin : Z) :
  Forall (fun d => 0 <= dctCount d) potentialDcts ->
  sumZ (map dctCount (List.filter HiveMiner.isMature potentialDcts)) < 2 ^ 31 ->
  0 < dwarvesPerBin < 2 ^ 31 ->
  exists bins,
    HiveMiner.matureDcts potentialDcts
    = (List.filter HiveMiner.isMature potentialDcts,
       sumZ (map dctCount (List.filter HiveMiner.isMature potentialDcts))) /\
    HiveMiner.binDwarves dwarvesPerBin (HiveMiner.matureDcts potentialDcts).2
      (HiveMiner.matureDcts potentialDcts).1 = Some bins /\
    flat_map dwarvesOfBin bins
    = flat_map dwarvesOfDct (List.filter HiveMiner.isMature potentialDcts) /\
    Forall (fun bin => Z.of_nat (length (dwarvesOfBin bin)) <= dwarvesPerBin) bins.
Proof.
  intros Hcounts Hsum HperBin.
  assert (Hmature : HiveMiner.matureDcts potentialDcts
            = (List.filter HiveMiner.isMature potentialDcts,
               sumZ (map dctCount (List.filter HiveMiner.isMature potentialDcts)))).
  { unfold HiveMiner.matureDcts.
    rewrite (matureDcts_filter potentialDcts [] 0 Hcounts ltac:(lia) ltac:(lia)).
    reflexivity. }
  rewrite Hmature. cbn [fst snd].
  pose proof (filter_binnable potentialDcts Hcounts Hsum) as Hd.
  set (dcts := List.filter HiveMiner.isMature potentialDcts) in *.
  pose proof (sumZ_counts_nonneg dcts Hd) as Hnn.
  destruct (binLoop_spec dwarvesPerBin HperBin
              (S (length dcts + Z.to_nat (sumZ (map dctCount dcts)))) dcts 0 [] Hd)
    as (bins & Hrun & Hdw & Hbins).
  - destruct dcts as [| d rest]; [exact I |].
    inversion Hd as [| ? ? [_ Hc] _]; subst. cbn. lia.
  - unfold toBin. lia.
  - exists bins. split; [reflexivity |]. split; [exact Hrun |].
    split; [rewrite Hdw; apply remaining_0 |].
    eapply Forall_impl; [exact Hbins |]. intros bin [Hsz Hpos].
    rewrite length_dwarvesOfBin by exact Hpos. exact Hsz.
Qed.



Lemma BusyDwarves_bins_partition_the_dwarves_witness :
  exists bins,
    HiveMiner.matureDcts SampleHive.potentialDcts
    = (List.filter HiveMiner.isMature SampleHive.potentialDcts,
       sumZ (map dctCount (List.filter HiveMiner.isMature SampleHive.potentialDcts))) /\
    HiveMiner.binDwarves 3 (HiveMiner.matureDcts SampleHive.potentialDcts).2
      (HiveMiner.matureDcts SampleHive.potentialDcts).1 = Some bins /\
    flat_map dwarvesOfBin bins
    = flat_map dwarvesOfDct (List.filter HiveMiner.isMature SampleHive.potentialDcts) /\
    Forall (fun bin => Z.of_nat (length (dwarvesOfBin bin)) <= 3) bins.
Proof.
  apply (BusyDwarves_bins_partition_the_dwarves SampleHive.potentialDcts 3).
  - repeat constructor; vm_compute; intros Hc; discriminate Hc.
  - vm_compute. reflexivity.
  - vm_compute. split; reflexivity.
Defined.


(** With at least one core, [BusyDwarves] settles on at least one thread
    and at most one per core; a request between 1 and the number of cores
    is honoured, and -2 leaves one core free when there is more than
    one. *)
Theorem hiveThreadCount_bounds (arg coreCount : Z) :
  1 <= coreCount < 2 ^ 31 ->
  1 <= HiveMiner.hiveThreadCount arg coreCount <= coreCount /\
  (1 <= arg <= coreCount -> HiveMiner.hiveThreadCount arg coreCount = arg) /\
  (arg = -2 -> HiveMiner.hiveThreadCount arg coreCount = Z.max 1 (coreCount - 1)).
Proof.
  intros Hcores. unfold HiveMiner.hiveThreadCount.
  rewrite (i32_small (coreCount - 1)) by lia.
  destruct (arg =? -2) eqn:E2; [apply Z.eqb_eq in E2 | apply Z.eqb_neq in E2].
  { repeat split; lia. }
  destruct (arg <? 0) eqn:Eneg; [apply Z.ltb_lt in Eneg | apply Z.ltb_ge in Eneg];
    cbn [orb].
  { repeat split; lia. }
  destruct (coreCount <? arg) eqn:Ebig; [apply Z.ltb_lt in Ebig | apply Z.ltb_ge in Ebig].
  { repeat split; lia. }
  destruct (arg =? 0) eqn:E0; [apply Z.eqb_eq in E0 | apply Z.eqb_neq in E0].
  { repeat split; lia. }
  repeat split; lia.
Qed.

Lemma hiveThreadCount_bounds_witness :
  1 <= HiveMiner.hiveThreadCount (-2) 8 <= 8 /\
  (1 <= -2 <= 8 -> HiveMiner.hiveThreadCount (-2) 8 = -2) /\
  (-2 = -2 -> HiveMiner.hiveThreadCount (-2) 8 = Z.max 1 (8 - 1)).
Proof.
  apply (hiveThreadCount_bounds (-2) 8). lia.
Defined.


(** ** [CheckBin] *)

Section CheckBinProps.
Context `{Node}.
Variable stopRequested : Z -> bool.
Variable deterministicRandString : bytes.
Variable dwarfHashTarget : Z.

Lemma checkDwarves_spec (range : CDwarfRange.t) (n : nat) :
  forall i c,
    0 <= i -> i + Z.of_nat n < 2 ^ 31 -> 0 <= c -> c + Z.of_nat n < 2 ^ 31 ->
    match HiveMiner.checkDwarves stopRequested deterministicRandString dwarfHashTarget
            range n i c with
    | inl (HiveMiner.Solved r j) =>
        r = range /\ i <= j < i + Z.of_nat n /\
        HiveMiner.dwarfHashOf deterministicRandString (CDwarfRange.txid range) j
        < dwarfHashTarget /\
        Forall (misses deterministicRandString dwarfHashTarget) (map (pair (CDwarfRange.txid range)) (seqZ i (j - i)))
    | inl HiveMiner.Stopped =>
        exists c', c <= c' /\ Z.rem c' 1000 = 0 /\ stopRequested c' = true
    | inl HiveMiner.OutOfTasks => False
    | inr c' =>
        c' = c + Z.of_nat n /\
        Forall (misses deterministicRandString dwarfHashTarget) (map (pair (CDwarfRange.txid range)) (seqZ i (Z.of_nat n)))
    end.
Proof.
  induction n as [| n IH]; intros i c Hi Hin Hc Hcn; cbn [HiveMiner.checkDwarves].
  - split; [lia |]. constructor.
  - destruct ((Z.rem c 1000 =? 0) && stopRequested c) eqn:Hstop.
    { apply andb_true_iff in Hstop as [Hrem Hreq]. apply Z.eqb_eq in Hrem.
      exists c. repeat split; try assumption; lia. }
    destruct (HiveMiner.dwarfHashOf deterministicRandString (CDwarfRange.txid range) i
              <? dwarfHashTarget) eqn:Hhit.
    { apply Z.ltb_lt in Hhit. repeat split; try lia; try assumption.
      rewrite Z.sub_diag. constructor. }
    apply Z.ltb_ge in Hhit.
    rewrite (i32_small (i + 1)) by lia. rewrite (i32_small (c + 1)) by lia.
    specialize (IH (i + 1) (c + 1) ltac:(lia) ltac:(lia) ltac:(lia) ltac:(lia)).
    destruct (HiveMiner.checkDwarves _ _ _ _ n (i + 1) (c + 1)) as [[r j | |] | c'].
    + destruct IH as (Hr & Hj & Hlt & Hbefore).
      repeat split; try assumption; try lia.
      rewrite (seqZ_cons i (j - i)) by lia. cbn [map].
      constructor; [exact Hhit |].
      replace (Z.succ i) with (i + 1) by lia.
      replace (Z.pred (j - i)) with (j - (i + 1)) by lia. exact Hbefore.
    + destruct IH as (c' & Hle & Hrem & Hreq). exists c'. repeat split; try assumption; lia.
    + contradiction.
    + destruct IH as [Hc' Hall]. split; [lia |].
      rewrite (seqZ_cons i (Z.of_nat (S n))) by lia. cbn [map].
      constructor; [exact Hhit |].
      replace (Z.succ i) with (i + 1) by lia.
      replace (Z.pred (Z.of_nat (S n))) with (Z.of_nat n) by lia. exact Hall.
Qed.

Lemma binSize_cons r bin : binSize (r :: bin) = CDwarfRange.count r + binSize bin.
Proof. reflexivity. Qed.

Lemma binSize_nonneg bin : Forall rangeOk bin -> 0 <= binSize bin.
Proof.
  intros Hb. apply sumZ_nonneg. apply Forall_fmap.
  eapply Forall_impl; [exact Hb |]. intros r (_ & Hc & _). exact Hc.
Qed.

Lemma checkRanges_spec (bin : list CDwarfRange.t) :
  forall c,
    Forall rangeOk bin -> 0 <= c -> c + binSize bin < 2 ^ 31 ->
    match HiveMiner.checkRanges stopRequested deterministicRandString dwarfHashTarget
            bin c with
    | HiveMiner.Solved r j =>
        r ∈ bin /\
        CDwarfRange.offset r <= j < CDwarfRange.offset r + CDwarfRange.count r /\
        HiveMiner.dwarfHashOf deterministicRandString (CDwarfRange.txid r) j
        < dwarfHashTarget /\
        exists before after,
          dwarvesOfBin bin = before ++ (CDwarfRange.txid r, j) :: after /\
          Forall (misses deterministicRandString dwarfHashTarget) before
    | HiveMiner.Stopped =>
        exists c', c <= c' /\ Z.rem c' 1000 = 0 /\ stopRequested c' = true
    | HiveMiner.OutOfTasks => Forall (misses deterministicRandString dwarfHashTarget) (dwarvesOfBin bin)
    end.
Proof.
  induction bin as [| range rest IH]; intros c Hbin Hc Hsize;
    cbn [HiveMiner.checkRanges].
  - constructor.
  - inversion Hbin as [| ? ? (Hoff & Hcount & Hend) Hrest]; subst.
    rewrite binSize_cons in Hsize.
    pose proof (binSize_nonneg rest Hrest) as Hnn.
    rewrite (i32_small (CDwarfRange.offset range + CDwarfRange.count range)) by lia.
    replace (CDwarfRange.offset range + CDwarfRange.count range - CDwarfRange.offset range)
      with (CDwarfRange.count range) by lia.
    pose proof (checkDwarves_spec range (Z.to_nat (CDwarfRange.count range))
                  (CDwarfRange.offset range) c Hoff ltac:(lia) Hc ltac:(lia)) as Hrange.
    rewrite Z2Nat.id in Hrange by lia.
    destruct (HiveMiner.checkDwarves _ _ _ _ _ _ _) as [[r j | |] | c'].
    + destruct Hrange as (-> & Hj & Hlt & Hbefore).
      split; [left |]. split; [exact Hj |]. split; [exact Hlt |].
      exists (map (pair (CDwarfRange.txid range))
                (seqZ (CDwarfRange.offset range) (j - CDwarfRange.offset range))),
             (map (pair (CDwarfRange.txid range))
                (seqZ (j + 1) (CDwarfRange.offset range + CDwarfRange.count range - (j + 1)))
              ++ dwarvesOfBin rest).
      split; [| exact Hbefore].
      unfold dwarvesOfBin. cbn [flat_map]. fold (dwarvesOfBin rest).
      rewrite app_comm_cons, app_assoc. f_equal.
      unfold dwarvesOfRange.
      replace (CDwarfRange.count range)
        with ((j - CDwarfRange.offset range)
              + (CDwarfRange.offset range + CDwarfRange.count range - j)) at 1 by lia.
      rewrite seqZ_app by lia. rewrite map_app. f_equal.
      replace (CDwarfRange.offset range + (j - CDwarfRange.offset range)) with j by lia.
      rewrite (seqZ_cons j) by lia. cbn [map]. f_equal. f_equal. f_equal; lia.
    + exact Hrange.
    + contradiction.
    + destruct Hrange as [-> Hall].
      specialize (IH (c + CDwarfRange.count range) Hrest ltac:(lia) ltac:(lia)).
      destruct (HiveMiner.checkRanges _ _ _ rest _) as [r j | |].
      * destruct IH as (Hin & Hj & Hlt & before & after & Hsplit & Hbefore).
        split; [right; exact Hin |]. split; [exact Hj |]. split; [exact Hlt |].
        exists (dwarvesOfRange range ++ before), after. split.
        -- unfold dwarvesOfBin in *. cbn [flat_map]. rewrite Hsplit, app_assoc. reflexivity.
        -- apply Forall_app. split; assumption.
      * destruct IH as (c' & Hle & Hrem & Hreq). exists c'. repeat split; try assumption; lia.
      * unfold dwarvesOfBin. cbn [flat_map]. apply Forall_app. split; assumption.
Qed.

(** A solution that [CheckBin] writes out is a dwarf of one of the bin's
    ranges whose hash is below the target, and the first such dwarf of
    the bin: every dwarf before it was hashed and missed the target. *)
Theorem CheckBin_solution_is_first_hit (bin : list CDwarfRange.t)
    (solvingRange : CDwarfRange.t) (solvingDwarf : Z) :
  Forall rangeOk bin -> binSize bin < 2 ^ 31 ->
  HiveMiner.CheckBin stopRequested bin deterministicRandString dwarfHashTarget
  = HiveMiner.Solved solvingRange solvingDwarf ->
  solvingRange ∈ bin /\
  CDwarfRange.offset solvingRange <= solvingDwarf
    < CDwarfRange.offset solvingRange + CDwarfRange.count solvingRange /\
  HiveMiner.dwarfHashOf deterministicRandString (CDwarfRange.txid solvingRange) solvingDwarf
  < dwarfHashTarget /\
  exists before after,
    dwarvesOfBin bin = before ++ (CDwarfRange.txid solvingRange, solvingDwarf) :: after /\
    Forall (misses deterministicRandString dwarfHashTarget) before.
Proof.
  intros Hbin Hsize Hrun. unfold HiveMiner.CheckBin in Hrun.
  pose proof (checkRanges_spec bin 0 Hbin ltac:(lia) ltac:(lia)) as Hspec.
  rewrite Hrun in Hspec. exact Hspec.
Qed.

(** [CheckBin] gives up only when it finds a stop requested at a check
    count that is a multiple of 1000; left alone it hashes every dwarf
    of the bin, and runs out of tasks exactly when none of them meets
    the target. *)
Theorem CheckBin_checks_every_dwarf (bin : list CDwarfRange.t) :
  Forall rangeOk bin -> binSize bin < 2 ^ 31 ->
  (HiveMiner.CheckBin stopRequested bin deterministicRandString dwarfHashTarget
   = HiveMiner.Stopped ->
   exists checkCount,
     0 <= checkCount /\ Z.rem checkCount 1000 = 0 /\ stopRequested checkCount = true) /\
  (HiveMiner.CheckBin stopRequested bin deterministicRandString dwarfHashTarget
   = HiveMiner.OutOfTasks ->
   Forall (misses deterministicRandString dwarfHashTarget) (dwarvesOfBin bin)) /\
  ((forall checkCount, stopRequested checkCount = false) ->
   Forall (misses deterministicRandString dwarfHashTarget) (dwarvesOfBin bin) ->
   HiveMiner.CheckBin stopRequested bin deterministicRandString dwarfHashTarget
   = HiveMiner.OutOfTasks).
Proof.
  intros Hbin Hsize. unfold HiveMiner.CheckBin.
  pose proof (checkRanges_spec bin 0 Hbin ltac:(lia) ltac:(lia)) as Hspec.
  destruct (HiveMiner.checkRanges _ _ _ bin 0) as [r j | |].
  - split; [discriminate |]. split; [discriminate |].
    intros _ Hall. exfalso.
    destruct Hspec as (_ & _ & Hlt & before & after & Hsplit & _).
    rewrite Hsplit in Hall. apply Forall_app in Hall as [_ Hall].
    inversion Hall as [| ? ? Hmiss _]; subst. unfold misses in Hmiss. cbn in Hmiss. lia.
  - split; [intros _; exact Hspec |]. split; [discriminate |].
    intros Hnever _. destruct Hspec as (c' & _ & _ & Hreq). rewrite Hnever in Hreq.
    discriminate.
  - split; [discriminate |]. split; [intros _; exact Hspec |]. reflexivity.
Qed.

End CheckBinProps.

Lemma CheckBin_solution_is_first_hit_witness :
  HiveMiner.rangeOf (SampleHive.dct Byte.x61 5 "mature") 3 2 ∈ SampleHive.bin /\
  CDwarfRange.offset (HiveMiner.rangeOf (SampleHive.dct Byte.x61 5 "mature") 3 2) <= 3
    < CDwarfRange.offset (HiveMiner.rangeOf (SampleHive.dct Byte.x61 5 "mature") 3 2)
      + CDwarfRange.count (HiveMiner.rangeOf (SampleHive.dct Byte.x61 5 "mature") 3 2) /\
  @HiveMiner.dwarfHashOf Sample.node []
    (CDwarfRange.txid (HiveMiner.rangeOf (SampleHive.dct Byte.x61 5 "mature") 3 2)) 3 < 1 /\
  exists before after,
    dwarvesOfBin SampleHive.bin
    = before
      ++ (CDwarfRange.txid (HiveMiner.rangeOf (SampleHive.dct Byte.x61 5 "mature") 3 2), 3)
         :: after /\
    Forall (@misses Sample.node [] 1) before.
Proof.
  apply (@CheckBin_solution_is_first_hit Sample.node (fun _ => false) [] 1 SampleHive.bin).
  - repeat constructor; vm_compute; try reflexivity; intros Hc; discriminate Hc.
  - vm_compute. reflexivity.
  - vm_compute. reflexivity.
Defined.

Lemma CheckBin_checks_every_dwarf_witness :
  (@HiveMiner.CheckBin Sample.node (fun _ => false) SampleHive.bin [] 0
   = HiveMiner.Stopped ->
   exists checkCount,
     0 <= checkCount /\ Z.rem checkCount 1000 = 0 /\ false = true) /\
  (@HiveMiner.CheckBin Sample.node (fun _ => false) SampleHive.bin [] 0
   = HiveMiner.OutOfTasks ->
   Forall (@misses Sample.node [] 0) (dwarvesOfBin SampleHive.bin)) /\
  ((forall checkCount : Z, false = false) ->
   Forall (@misses Sample.node [] 0) (dwarvesOfBin SampleHive.bin) ->
   @HiveMiner.CheckBin Sample.node (fun _ => false) SampleHive.bin [] 0
   = HiveMiner.OutOfTasks).
Proof.
  apply (@CheckBin_checks_every_dwarf Sample.node (fun _ => false) [] 0 SampleHive.bin).
  - repeat constructor; vm_compute; try reflexivity; intros Hc; discriminate Hc.
  - vm_compute. reflexivity.
Defined.

(** ** The Hive proof script *)

Section ProofScript.
Context `{Node} `{MinerEnv}.

(** The proof script that [BusyDwarves] assembles from a 64-character
    txid and a 65-byte signature is 144 bytes long and has every field
    where [CheckHiveProof] reads it: the two opcodes at 0 and 1, the
    dwarf nonce at 3, the DCT height at 8, the community flag at 12
    (read back as given, [OP_TRUE] and [OP_FALSE] being different), the
    txid at 14 and the signature at 79. *)
Theorem hiveProofScript_layout (solvingDwarf dctHeight : Z) (communityContrib : bool)
    (txidVec messageProofVec : bytes) :
  length txidVec = 64%nat -> length messageProofVec = 65%nat ->
  OP_TRUE <> OP_0 ->
  exists script flag,
    HiveMiner.hiveProofScript solvingDwarf dctHeight communityContrib txidVec messageProofVec
    = Some script /\
    length script = 144%nat /\
    script !! 0%nat = Some OP_RETURN /\
    script !! 1%nat = Some OP_DWARF /\
    take 4 (drop 3 script) = WriteLE32 solvingDwarf /\
    take 4 (drop 8 script) = WriteLE32 dctHeight /\
    script !! 12%nat = Some flag /\
    bool_decide (flag = OP_TRUE) = communityContrib /\
    take 64 (drop 14 script) = txidVec /\
    take 65 (drop 79 script) = messageProofVec.
Proof.
  intros Htxid Hsig Hflag. unfold HiveMiner.hiveProofScript, pushData.
  rewrite Htxid, Hsig. cbn [length WriteLE32 Nat.ltb Nat.leb mbind option_bind].
  eexists. exists (if communityContrib then OP_TRUE else OP_0).
  split; [reflexivity |].
  unfold WriteLE32. cbn [app]. repeat split.
  - cbn [length]. rewrite length_app. cbn [length]. rewrite Htxid, Hsig. reflexivity.
  - destruct communityContrib; [apply bool_decide_true; reflexivity |].
    apply bool_decide_false. congruence.
  - cbn [drop]. rewrite <- Htxid. apply take_app_length.
  - do 14 rewrite skipn_cons.
    rewrite drop_app_ge by lia. rewrite Htxid.
    change (65 - 64)%nat with 1%nat. rewrite skipn_cons, drop_0.
    rewrite <- Hsig. apply firstn_all.
Qed.

End ProofScript.

Lemma hiveProofScript_layout_witness :
  exists script flag,
    @HiveMiner.hiveProofScript Sample.node Sample.minerEnv 7 3 true
      (replicate 64 Byte.x30) (replicate 65 Byte.x00) = Some script /\
    length script = 144%nat /\
    script !! 0%nat = Some (@OP_RETURN Sample.node) /\
    script !! 1%nat = Some (@OP_DWARF Sample.node) /\
    take 4 (drop 3 script) = WriteLE32 7 /\
    take 4 (drop 8 script) = WriteLE32 3 /\
    script !! 12%nat = Some flag /\
    bool_decide (flag = @OP_TRUE Sample.node) = true /\
    take 64 (drop 14 script) = replicate 64 Byte.x30 /\
    take 65 (drop 79 script) = replicate 65 Byte.x00.
Proof.
  apply (@hiveProofScript_layout Sample.node Sample.minerEnv).
  - reflexivity.
  - reflexivity.
  - discriminate.
Defined.

(** ** The RNG block of [MinerThread] *)

Section RngBlockProps.
Variable rng : RngParams.

(** [MinerThread] declares the list of burns and never fills it, so the
    votes total zero and the winning vote is a remainder by zero: on a
    tip whose height is a multiple of [nRNGBlockSpacing] (or with a
    spacing of zero) the RNG block path traps; on every other tip it
    does nothing. *)
Theorem rngBlock_divides_by_zero (tip : CBlockIndex) :
  - 2 ^ 31 < nHeight tip ->
  (RngBlock.rngBlock rng tip = Crash "integer division by zero" /\
   (nRNGBlockSpacing rng = 0 \/ Z.rem (nHeight tip) (nRNGBlockSpacing rng) = 0)) \/
  (RngBlock.rngBlock rng tip = Done None /\
   nRNGBlockSpacing rng <> 0 /\ Z.rem (nHeight tip) (nRNGBlockSpacing rng) <> 0).
Proof.
  intros Hheight. unfold RngBlock.rngBlock, RngBlock.selectWinner, rem32.
  destruct (nRNGBlockSpacing rng =? 0) eqn:Hzero.
  { apply Z.eqb_eq in Hzero. left. split; [reflexivity | left; exact Hzero]. }
  apply Z.eqb_neq in Hzero.
  replace (nHeight tip =? - 2 ^ 31) with false by (symmetry; apply Z.eqb_neq; lia).
  cbn [andb bind].
  destruct (Z.rem (nHeight tip) (nRNGBlockSpacing rng) =? 0) eqn:Hrem.
  - apply Z.eqb_eq in Hrem. left. split; [reflexivity | right; exact Hrem].
  - apply Z.eqb_neq in Hrem. right. repeat split; assumption.
Qed.

End RngBlockProps.

Lemma rngBlock_divides_by_zero_witness :
  (RngBlock.rngBlock
     {| nRNGBlockSpacing := 2; nBurnBlockConfirmations := 5;
        nMinBurnAmount := 1000; nBurnVoteRatio := 100 |}
     (Sample.blockAt 4 192 1000 240) = Crash "integer division by zero" /\
   (2 = 0 \/ Z.rem 4 2 = 0)) \/
  (RngBlock.rngBlock
     {| nRNGBlockSpacing := 2; nBurnBlockConfirmations := 5;
        nMinBurnAmount := 1000; nBurnVoteRatio := 100 |}
     (Sample.blockAt 4 192 1000 240) = Done None /\
   2 <> 0 /\ Z.rem 4 2 <> 0).
Proof.
  apply (rngBlock_divides_by_zero
           {| nRNGBlockSpacing := 2; nBurnBlockConfirmations := 5;
              nMinBurnAmount := 1000; nBurnVoteRatio := 100 |}
           (Sample.blockAt 4 192 1000 240)).
  vm_compute. reflexivity.
Defined.

(** ** The RandomX [ScanHash] *)

Ltac scan_stops_here :=
  exists 1; eexists; split; [lia |]; split; [reflexivity |]; cbn;
  repeat split; intros; first [ reflexivity | assumption | congruence ].

Section RandomXProps.
Context `{MinerEnv} `{RandomXEnv}.

Lemma RandomX_loop_agrees (fuel : nat) :
  (forall n, randomx_create_vm n = true) ->
  (forall b, randomx_calculate_hash b = GetPowHash b) ->
  forall pblock nNonce phash,
    RandomX.ScanHash_loop fuel pblock nNonce phash
    = Miner.ScanHash_loop fuel pblock nNonce phash.
Proof.
  intros Hvm Hhash. induction fuel as [| fuel IH]; intros pblock nNonce phash; [reflexivity |].
  cbn [RandomX.ScanHash_loop Miner.ScanHash_loop].
  rewrite Hvm, Hhash. cbn [negb]. rewrite IH. reflexivity.
Qed.

Lemma RandomX_loop_stops (fuel : nat) :
  forall (pblock : CBlock) (nNonce phash : Z),
    65536 - nNonce mod 65536 <= Z.of_nat fuel ->
    exists k r,
      1 <= k <= 65536 - nNonce mod 65536 /\
      RandomX.ScanHash_loop fuel pblock nNonce phash = Some r /\
      Miner.scanNonce r = Int.u32 (nNonce + k) /\
      (Miner.scanFound r = Done true ->
       randomx_create_vm (Miner.scanNonce r) = true /\
       Miner.scanHash r = randomx_calculate_hash (Miner.scanBlock r)) /\
      (Miner.scanFound r <> Done true -> Miner.scanHash r = phash).
Proof.
  induction fuel as [| fuel IH]; intros pblock nNonce phash Hfuel.
  - pose proof (Z.mod_pos_bound nNonce 65536 ltac:(lia)). lia.
  - pose proof (Z.mod_pos_bound nNonce 65536 ltac:(lia)) as Hmod.
    cbn [RandomX.ScanHash_loop].
    set (n1 := Int.u32 (nNonce + 1)).
    destruct (randomx_create_vm n1) eqn:Hvm; cbn [negb].
    2: { scan_stops_here. }
    destruct ((ByteAt _ 31 =? 0) && (ByteAt _ 30 =? 0)) eqn:Hhit.
    { scan_stops_here. }
    destruct (Z.land n1 65535 =? 0) eqn:Hwrap.
    { scan_stops_here. }
    apply Z.eqb_neq in Hwrap.
    destruct ((Z.land n1 4095 =? 0) && interruption_requested n1) eqn:Hint.
    { scan_stops_here. }
    assert (Hn1 : n1 mod 65536 = nNonce mod 65536 + 1).
    { unfold n1 in Hwrap. rewrite land_65535 in Hwrap.
      unfold n1, Int.u32, Int.wrap_u.
      change (2 ^ 32) with (65536 * 65536) at 1.
      rewrite Z.rem_mul_r by lia.
      rewrite Z.mul_comm, Z.mod_add by lia. rewrite Z.mod_mod by lia.
      rewrite Z.add_mod in Hwrap |- * by lia.
      change (1 mod 65536) with 1 in *.
      destruct (Z.eq_dec (nNonce mod 65536 + 1) 65536) as [E | E].
      - rewrite E in Hwrap. exfalso. apply Hwrap. reflexivity.
      - apply Z.mod_small. lia. }
    destruct (IH (setNonce pblock n1) n1 phash ltac:(lia))
      as (k & r & Hk & Hrun & Hn & Hout).
    exists (k + 1), r. split; [lia |]. split; [exact Hrun |].
    split; [| exact Hout].
    rewrite Hn. unfold n1. rewrite u32_add_u32. f_equal. lia.
Qed.

(** The RandomX [ScanHash] of [pow.cpp] returns from every starting nonce
    within 65536 nonces, with [*phash] written only when it returns true.
    It returns false at once, one nonce on, when no VM can be created.
    Where a VM is always created and the RandomX hash is the header's
    PoW hash, it is the [ScanHash] of [miner.cpp]. *)
Theorem RandomX_ScanHash_and_the_miners (pblock : CBlock) (nNonce phash : Z) :
  (exists k r,
     1 <= k <= 65536 /\
     RandomX.ScanHash pblock nNonce phash = Some r /\
     Miner.scanNonce r = Int.u32 (nNonce + k) /\
     (Miner.scanFound r = Done true ->
      randomx_create_vm (Miner.scanNonce r) = true /\
      Miner.scanHash r = randomx_calculate_hash (Miner.scanBlock r)) /\
     (Miner.scanFound r <> Done true -> Miner.scanHash r = phash)) /\
  (randomx_create_vm (Int.u32 (nNonce + 1)) = false ->
   RandomX.ScanHash pblock nNonce phash
   = Some {| Miner.scanFound := Done false;
             Miner.scanBlock := setNonce pblock (Int.u32 (nNonce + 1));
             Miner.scanNonce := Int.u32 (nNonce + 1); Miner.scanHash := phash |}) /\
  ((forall n, randomx_create_vm n = true) ->
   (forall b, randomx_calculate_hash b = GetPowHash b) ->
   RandomX.ScanHash pblock nNonce phash = Miner.ScanHash pblock nNonce phash).
Proof.
  split; [| split].
  - pose proof (Z.mod_pos_bound nNonce 65536 ltac:(lia)) as Hmod.
    destruct (RandomX_loop_stops (Z.to_nat 65536) pblock nNonce phash ltac:(lia))
      as (k & r & Hk & Hrun & Hrest).
    exists k, r. split; [lia |]. split; [exact Hrun | exact Hrest].
  - intros Hvm. unfold RandomX.ScanHash.
    change (Z.to_nat 65536) with (S (Z.to_nat 65535)).
    cbn [RandomX.ScanHash_loop]. rewrite Hvm. reflexivity.
  - intros Hvm Hhash. unfold RandomX.ScanHash, Miner.ScanHash.
    apply RandomX_loop_agrees; assumption.
Qed.

End RandomXProps.

(** ** The assertion of the package loop *)

Section LoopSafety.
Context `{Header} `{Node} `{MinerEnv} `{AssemblerEnv}.
Variable params : Params.

(** The mempool's two closures agree, and ancestors of ancestors are
    ancestors. *)
Hypothesis descendants_have_ancestors :
  forall a d, d ∈ CalculateDescendants a -> d = a \/ a ∈ CalculateMemPoolAncestors d.
Hypothesis ancestors_transitive :
  forall a b c, a ∈ CalculateMemPoolAncestors b -> b ∈ CalculateMemPoolAncestors c ->
                a ∈ CalculateMemPoolAncestors c.

Lemma modErase_sat Q it m : keysSat Q m -> keysSat Q (Assembler.modErase it m).
Proof.
  unfold keysSat, Assembler.modErase. rewrite !List.Forall_forall.
  intros Hm e He. apply List.filter_In in He as [He _]. apply Hm. exact He.
Qed.

Lemma modErase_gone it m : keysSat (fun k => k <> it) (Assembler.modErase it m).
Proof.
  unfold keysSat, Assembler.modErase. rewrite List.Forall_forall.
  intros e He. apply List.filter_In in He as [_ He].
  apply negb_true_iff, bool_decide_eq_false in He. exact He.
Qed.

Lemma modInsert_sat Q e m : Q (iter e) -> keysSat Q m -> keysSat Q (Assembler.modInsert e m).
Proof.
  intros He. unfold keysSat. induction m as [| x m IH]; intros Hm; simpl.
  - constructor; [exact He | constructor].
  - inversion Hm as [| ? ? Hx Hrest]; subst.
    destruct (CompareTxMemPoolEntryByAncestorFee e x).
    + constructor; [exact He | exact Hm].
    + constructor; [exact Hx | apply IH; exact Hrest].
Qed.

Lemma updateDescendant_sat Q A it acc desc :
  (desc ∉ A -> Q desc) -> keysSat Q acc.2 ->
  keysSat Q (Assembler.updateDescendant A it acc desc).2.
Proof.
  intros Hd Hm. unfold Assembler.updateDescendant.
  destruct (bool_decide (desc ∈ A)) eqn:HA; [exact Hm |].
  apply bool_decide_eq_false in HA.
  destruct acc as [n m]. cbn [snd] in *.
  destruct (Assembler.modFind desc m) as [e |] eqn:Hfind; cbn [snd].
  - apply modInsert_sat; [| apply modErase_sat; exact Hm].
    change (Q (iter e)).
    unfold Assembler.modFind in Hfind. apply List.find_some in Hfind as [He _].
    unfold keysSat in Hm. rewrite List.Forall_forall in Hm. apply Hm. exact He.
  - apply modInsert_sat; [exact (Hd HA) | exact Hm].
Qed.

Lemma foldl_sat {X} Q (f : Z * modset -> X -> Z * modset) (P : X -> Prop) (xs : list X) :
  (forall acc x, P x -> keysSat Q acc.2 -> keysSat Q (f acc x).2) ->
  Forall P xs -> forall acc, keysSat Q acc.2 -> keysSat Q (foldl f acc xs).2.
Proof.
  intros Hf Hxs. induction Hxs as [| x xs Hx _ IH]; intros acc Hacc; simpl.
  - exact Hacc.
  - apply IH. apply Hf; assumption.
Qed.

Lemma UpdatePackagesForAdded_sat Q A m :
  (forall a d, a ∈ A -> d ∈ CalculateDescendants a -> d ∉ A -> Q d) ->
  keysSat Q m -> keysSat Q (Assembler.UpdatePackagesForAdded A m).2.
Proof.
  intros Hnew Hm. unfold Assembler.UpdatePackagesForAdded.
  apply (foldl_sat Q _ (fun a => a ∈ A)); [| | exact Hm].
  - intros acc a Ha Hacc.
    apply (foldl_sat Q _ (fun d => d ∈ CalculateDescendants a)); [| | exact Hacc].
    + intros acc' d Hd Hacc'. apply updateDescendant_sat; [| exact Hacc'].
      intros HdA. exact (Hnew a d Ha Hd HdA).
    + apply List.Forall_forall. intros d Hd.
      apply elem_of_elements. apply list_elem_of_In. exact Hd.
  - apply List.Forall_forall. intros a Ha.
    apply elem_of_elements. apply list_elem_of_In. exact Ha.
Qed.

(** Adding the sorted package: the block gains exactly the entries, and
    the modified set loses them. *)
Lemma addAll_exact (entries : list txiter) :
  forall (s : Assembler.State) (m : modset) Q,
    keysSat Q m ->
    let r := foldl (fun '(s, m) e => (Assembler.AddToBlock s e, Assembler.modErase e m))
               (s, m) entries in
    keysSat (fun k => Q k /\ k ∉ entries) r.2 /\
    (forall x, x ∈ Assembler.inBlock r.1 <-> x ∈ entries \/ x ∈ Assembler.inBlock s).
Proof.
  induction entries as [| e es IH]; intros s m Q Hm; cbn [foldl].
  - split.
    + eapply Forall_impl; [exact Hm |]. intros x Hx. split; [exact Hx |]. 
      intros Hc. inversion Hc.
    + intros x. split; [intros Hx; right; exact Hx |].
      intros [Hx | Hx]; [inversion Hx | exact Hx].
  - destruct (IH (Assembler.AddToBlock s e) (Assembler.modErase e m)
                (fun k => Q k /\ k <> e)) as [Hk Hin].
    { pose proof (modErase_sat Q e m Hm) as Hsat.
      pose proof (modErase_gone e m) as Hgone.
      unfold keysSat in *. rewrite Forall_forall in *. intros x Hx. split; auto. }
    split.
    + eapply Forall_impl; [exact Hk |]. cbn beta. intros x [[Hq Hne] Hes].
      split; [exact Hq |]. intros Hc. apply elem_of_cons in Hc as [Hc | Hc]; auto.
    + intros x. rewrite Hin. cbn [Assembler.inBlock Assembler.AddToBlock].
      rewrite elem_of_union, elem_of_singleton, elem_of_cons. tauto.
Qed.

Lemma evaluatePackage_safe (l : Assembler.Loop) mi' it modit (fUsingModified : bool) :
  loopSafe l -> it ∉ Assembler.inBlock (Assembler.asm l) ->
  exists st,
    Assembler.evaluatePackage params l mi' it modit fUsingModified = Done st /\
    loopSafe (loopOf st).
Proof.
  intros [Hkeys Hclosed] Hit. unfold Assembler.evaluatePackage.
  rewrite (bool_decide_false _ Hit). cbn [negb assert bind].
  destruct (match fUsingModified, modit with
            | true, Some e => _ | _, _ => _ end) as [[packageSize packageFees] packageSigOpsCost].
  destruct (packageFees <? _).
  { eexists. split; [reflexivity |]. split; assumption. }
  assert (Hdrop : forall failed,
            loopSafe (Assembler.dropFailed l mi' it fUsingModified failed)).
  { intros failed. split; cbn; [| exact Hclosed].
    destruct fUsingModified; [| exact Hkeys].
    destruct (Assembler.mapModifiedTx l); [exact Hkeys |].
    cbn. rewrite drop_0. inversion Hkeys; assumption. }
  destruct (negb (Assembler.TestPackage _ _ _)).
  { destruct (_ && _); eexists; (split; [reflexivity | apply Hdrop]). }
  destruct (negb (Assembler.TestPackageTransactions _ _ _)).
  { eexists. split; [reflexivity | apply Hdrop]. }
  set (B := Assembler.inBlock (Assembler.asm l)) in *.
  set (pkg := {[it]} ∪ (CalculateMemPoolAncestors it ∖ B)).
  pose proof (addAll_exact (Assembler.SortForBlock pkg) (Assembler.asm l)
                (Assembler.mapModifiedTx l) (fun k => k ∉ B) Hkeys) as Hadd.
  cbn zeta in Hadd.
  destruct (foldl _ _ _) as [s' m'] eqn:Hfold. cbn [fst snd] in Hadd.
  destruct Hadd as [Hk Hblock].
  assert (Hsorted : forall x, x ∈ Assembler.SortForBlock pkg <-> x ∈ pkg).
  { intros x. unfold Assembler.SortForBlock. rewrite merge_sort_Permutation.
    apply elem_of_elements. }
  assert (Hpkg : forall x, x ∈ pkg -> x ∉ B).
  { intros x Hx. unfold pkg in Hx. apply elem_of_union in Hx as [Hx | Hx].
    - apply elem_of_singleton in Hx. subst x. exact Hit.
    - apply elem_of_difference in Hx as [_ Hx]. exact Hx. }
  assert (Hnew : forall x, x ∈ Assembler.inBlock s' <-> x ∈ pkg \/ x ∈ B).
  { intros x. rewrite Hblock, Hsorted. reflexivity. }
  assert (Hclosed' : ancestorClosed (Assembler.inBlock s')).
  { intros a d Hd Ha. apply Hnew. apply Hnew in Hd as [Hd | Hd].
    - assert (Hanc : a ∈ CalculateMemPoolAncestors it).
      { unfold pkg in Hd. apply elem_of_union in Hd as [Hd | Hd].
        - apply elem_of_singleton in Hd. subst d. exact Ha.
        - apply elem_of_difference in Hd as [Hd _].
          exact (ancestors_transitive a d it Ha Hd). }
      destruct (decide (a ∈ B)) as [HB | HB]; [right; exact HB | left].
      unfold pkg. apply elem_of_union. right. apply elem_of_difference. split; assumption.
    - right. exact (Hclosed a d Hd Ha). }
  pose proof (UpdatePackagesForAdded_sat (fun k => k ∉ Assembler.inBlock s') pkg m') as Hupd.
  destruct (Assembler.UpdatePackagesForAdded pkg m') as [updated m''].
  cbn [snd] in Hupd.
  eexists. split; [reflexivity |]. cbn [loopOf]. split; cbn; [| exact Hclosed'].
  apply Hupd.
  - intros a d Ha Hd HdA Hin. apply Hnew in Hin as [Hin | Hin]; [contradiction |].
    destruct (descendants_have_ancestors a d Hd) as [-> | Hanc].
    + exact (Hpkg a Ha Hin).
    + exact (Hpkg a Ha (Hclosed a d Hin Hanc)).
  - eapply Forall_impl; [exact Hk |]. cbn beta. intros e [HB Hs] Hin.
    apply Hnew in Hin as [Hin | Hin]; [| contradiction].
    apply Hs. apply Hsorted. exact Hin.
Qed.

Lemma step_safe (l : Assembler.Loop) :
  loopSafe l ->
  exists st, Assembler.addPackageTxs_step params l = Done st /\ loopSafe (loopOf st).
Proof.
  intros Hsafe. pose proof Hsafe as [Hkeys Hclosed]. unfold Assembler.addPackageTxs_step.
  destruct (Assembler.mi l) as [| it rest]; destruct (Assembler.mapModifiedTx l) as [| e m] eqn:Em.
  - eexists. split; [reflexivity | exact Hsafe].
  - apply evaluatePackage_safe; [exact Hsafe |]. inversion Hkeys; assumption.
  - destruct (Assembler.SkipMapTxEntry _ _ _ _) eqn:Hskip.
    + eexists. split; [reflexivity |]. split; cbn; [constructor | exact Hclosed].
    + apply evaluatePackage_safe; [exact Hsafe |].
      unfold Assembler.SkipMapTxEntry in Hskip.
      apply orb_false_iff in Hskip as [Hskip _]. apply orb_false_iff in Hskip as [_ Hskip].
      apply bool_decide_eq_false in Hskip. exact Hskip.
  - destruct (Assembler.SkipMapTxEntry _ _ _ _) eqn:Hskip.
    + eexists. split; [reflexivity |]. split; cbn; [exact Hkeys | exact Hclosed].
    + destruct (CompareTxMemPoolEntryByAncestorFee _ _).
      * apply evaluatePackage_safe; [exact Hsafe |]. inversion Hkeys; assumption.
      * apply evaluatePackage_safe; [exact Hsafe |].
        unfold Assembler.SkipMapTxEntry in Hskip.
        apply orb_false_iff in Hskip as [Hskip _]. apply orb_false_iff in Hskip as [_ Hskip].
        apply bool_decide_eq_false in Hskip. exact Hskip.
Qed.

Lemma loop_safe (fuel : nat) :
  forall (l : Assembler.Loop) r,
    loopSafe l ->
    Assembler.addPackageTxs_loop params fuel l = Some r ->
    exists l', r = Done l' /\ loopSafe l'.
Proof.
  induction fuel as [| fuel IH]; intros l r Hsafe Hrun; [discriminate |].
  cbn [Assembler.addPackageTxs_loop] in Hrun.
  destruct (step_safe l Hsafe) as (st & Hstep & Hst). rewrite Hstep in Hrun.
  destruct st as [l1 | l1]; cbn [loopOf] in Hst.
  - exact (IH l1 r Hst Hrun).
  - inversion Hrun. exists l1. split; [reflexivity | exact Hst].
Qed.

(** The assertion of the package loop, that its candidate is not yet in
    the block, never fails: on a mempool whose ancestor and descendant
    closures agree, started from a block that holds the ancestors of
    what it holds, [addPackageTxs] returns normally whenever it
    returns. *)
Theorem addPackageTxs_assertion_holds (fuel : nat) (s : Assembler.State)
    (nPackagesSelected nDescendantsUpdated : Z) (r : Exec Assembler.Loop) :
  ancestorClosed (Assembler.inBlock s) ->
  Assembler.addPackageTxs params fuel s nPackagesSelected nDescendantsUpdated = Some r ->
  exists l, r = Done l /\
            Forall (fun e => iter e ∉ Assembler.inBlock (Assembler.asm l))
              (Assembler.mapModifiedTx l).
Proof.
  intros Hclosed Hrun. unfold Assembler.addPackageTxs in Hrun.
  assert (Hsafe : loopSafe (Assembler.enterLoop s nPackagesSelected nDescendantsUpdated)).
  { unfold Assembler.enterLoop.
    pose proof (UpdatePackagesForAdded_sat (fun k => k ∉ Assembler.inBlock s)
                  (Assembler.inBlock s) []) as Hupd.
    destruct (Assembler.UpdatePackagesForAdded _ _) as [u m]. cbn [snd] in Hupd.
    split; cbn; [| exact Hclosed].
    apply Hupd; [| constructor]. intros a d _ _ Hd. exact Hd. }
  destruct (loop_safe fuel _ r Hsafe Hrun) as (l & -> & [Hkeys _]).
  exists l. split; [reflexivity | exact Hkeys].
Qed.

End LoopSafety.

Lemma addPackageTxs_assertion_holds_witness :
  exists r l,
    @Assembler.addPackageTxs Sample.node (Sample.assemblerEnv [1; 2; 3]%nat None)
      Sample.params 10 (@Assembler.resetBlock 0 3996000) 0 0 = Some r /\
    r = Done l /\
    Forall (fun e => iter e ∉ Assembler.inBlock (Assembler.asm l))
      (Assembler.mapModifiedTx l).
Proof.
  eexists.
  lazymatch goal with
  | |- exists l, ?run = Some ?r /\ _ =>
      assert (Hrun : run = Some r) by (vm_compute; reflexivity);
      destruct (@addPackageTxs_assertion_holds Sample.node
                  (Sample.assemblerEnv [1; 2; 3]%nat None) Sample.params
                  ltac:(intros a d Hd; left; cbn in Hd; apply elem_of_singleton in Hd; exact Hd)
                  ltac:(intros a b c Ha; cbn in Ha; apply elem_of_empty in Ha; contradiction)
                  10%nat (@Assembler.resetBlock 0 3996000) 0 0 r
                  ltac:(intros a d Hd; cbn in Hd; apply elem_of_empty in Hd; contradiction)
                  Hrun) as (l & Hl);
      exists l; split; [exact Hrun | exact Hl]
  end.
Defined.

(** ** [GetNetworkHiveInfo] *)

Section HiveInfoProps.
Context `{Header} `{Node} `{HiveInfo.Env}.
Variable params : Params.

(** [GetNetworkHiveInfo] applies the donation rule of [CheckHiveProof]:
    for a DCT that pays the community fund it goes on with the fee plus
    the donation exactly when the validator accepts the donation with
    that amount, and it skips the DCT, leaving counters and graph as they
    were, exactly when the validator rejects the donation. *)
Theorem GetNetworkHiveInfo_donation_rule (dwarfFeePaid donationAmount : Z) :
  HiveInfo.withDonation params dwarfFeePaid donationAmount
  = match Pow.checkDonationAmount params dwarfFeePaid donationAmount with
    | Done paid => Done (Some paid)
    | Reject _ => Done None
    | Crash why => Crash why
    | Raise what => Raise what
    end /\
  forall recalcGraph i blockHeight tipHeight totalDwarfLifespan dwarfCost acc tx o log,
    HiveInfo.IsDCT tx (GetScriptForAddress (dwarfCreationAddress params))
    = Some dwarfFeePaid ->
    vout tx !! 1%nat = Some o ->
    scriptPubKey o = GetScriptForAddress (hiveCommunityAddress params) ->
    nValue o = donationAmount ->
    Pow.checkDonationAmount params dwarfFeePaid donationAmount = Reject log ->
    HiveInfo.countTx params recalcGraph i blockHeight tipHeight totalDwarfLifespan
      dwarfCost acc tx = Done acc.
Proof.
  assert (Hrule : HiveInfo.withDonation params dwarfFeePaid donationAmount
            = match Pow.checkDonationAmount params dwarfFeePaid donationAmount with
              | Done paid => Done (Some paid)
              | Reject _ => Done None
              | Crash why => Crash why
              | Raise what => Raise what
              end).
  { unfold HiveInfo.withDonation, Pow.checkDonationAmount, rejectIf, div64.
    destruct (communityContribFactor params =? 0); [reflexivity |].
    destruct (_ && _); [reflexivity |]. cbn [bind].
    destruct (negb (donationAmount =? _)); reflexivity. }
  split; [exact Hrule |].
  intros recalcGraph i blockHeight tipHeight total dwarfCost acc tx o log
         Hdct Hout Hscript Hvalue Hreject.
  unfold HiveInfo.countTx. rewrite Hdct, Hout.
  rewrite (bool_decide_true _ Hscript). rewrite Hvalue, Hrule, Hreject. reflexivity.
Qed.

Lemma setPoint_length graph i f graph' :
  HiveInfo.setPoint graph i f = Done graph' -> length graph' = length graph.
Proof.
  unfold HiveInfo.setPoint. destruct (_ && _); [| discriminate].
  intros E; inversion E. apply length_alter.
Qed.

Lemma countTx_keeps (recalcGraph : bool) i blockHeight tipHeight total dwarfCost acc tx acc' :
  HiveInfo.countTx params recalcGraph i blockHeight tipHeight total dwarfCost acc tx
  = Done acc' ->
  HiveInfo.potentialLifespanRewards acc'.1 = HiveInfo.potentialLifespanRewards acc.1 /\
  (recalcGraph = false -> acc'.2 = acc.2).
Proof.
  unfold HiveInfo.countTx.
  destruct (HiveInfo.IsDCT tx _) as [fee |]; [| intros E; inversion E; auto].
  intros E. apply bind_Done in E as (paid & _ & E).
  destruct paid as [fee' |]; [| inversion E; auto].
  apply bind_Done in E as (q & _ & E).
  destruct acc as [c graph].
  destruct recalcGraph.
  - apply bind_Done in E as (graph' & _ & E). inversion E. cbn.
    split; [destruct (i <? _); reflexivity | discriminate].
  - inversion E. cbn. split; [destruct (i <? _); reflexivity | reflexivity].
Qed.

Lemma countTxs_keeps (recalcGraph : bool) i blockHeight tipHeight total dwarfCost txs :
  forall acc acc',
    HiveInfo.countTxs params recalcGraph i blockHeight tipHeight total dwarfCost txs acc
    = Done acc' ->
    HiveInfo.potentialLifespanRewards acc'.1 = HiveInfo.potentialLifespanRewards acc.1 /\
    (recalcGraph = false -> acc'.2 = acc.2).
Proof.
  induction txs as [| tx rest IH]; intros acc acc' E; cbn [HiveInfo.countTxs] in E.
  - inversion E. auto.
  - apply bind_Done in E as (acc1 & Hone & E).
    apply countTx_keeps in Hone as [Hr Hg]. apply IH in E as [Hr' Hg'].
    split; [congruence |]. intros Hoff. rewrite (Hg' Hoff). exact (Hg Hoff).
Qed.

Lemma scan_keeps (recalcGraph : bool) (n : nat) :
  forall i tipHeight total p acc ok acc',
    HiveInfo.scan params recalcGraph n i tipHeight total p acc = Done (ok, acc') ->
    HiveInfo.potentialLifespanRewards acc'.1 = HiveInfo.potentialLifespanRewards acc.1 /\
    (recalcGraph = false -> acc'.2 = acc.2).
Proof.
  induction n as [| n IH]; intros i tipHeight total p acc ok acc' E;
    cbn [HiveInfo.scan] in E.
  - inversion E. auto.
  - destruct p as [| b pprev]; [discriminate |].
    destruct (nHeight b <? _); [inversion E; auto |].
    destruct (_ && _); [inversion E; auto |].
    apply bind_Done in E as (counted & Hcounted & E).
    assert (Hblock : forall a, counted = Some a ->
              HiveInfo.potentialLifespanRewards a.1 = HiveInfo.potentialLifespanRewards acc.1
              /\ (recalcGraph = false -> a.2 = acc.2)).
    { intros a ->. destruct (negb (IsHiveMined params b)).
      - destruct (HiveInfo.ReadBlockFromDisk b) as [block |]; [| discriminate].
        apply bind_Done in Hcounted as (a' & Htxs & Hcounted). inversion Hcounted; subst a'.
        exact (countTxs_keeps _ _ _ _ _ _ _ _ _ Htxs).
      - inversion Hcounted. auto. }
    destruct counted as [a |]; [| inversion E; auto].
    destruct (Hblock a eq_refl) as [Hr Hg].
    destruct pprev as [| b' pprev'].
    + inversion E; subst. split; assumption.
    + apply IH in E as [Hr' Hg'].
      split; [congruence |]. intros Hoff. rewrite (Hg' Hoff). exact (Hg Hoff).
Qed.

(** Whenever [GetNetworkHiveInfo] returns: [potentialLifespanRewards] is
    the lifespan's subsidy divided by the typical spacing plus the Pop
    blocks per Hive block; without [recalcGraph] the graph is as it was;
    and during the initial block download the result is false with all
    four counters at zero. *)
Theorem GetNetworkHiveInfo_returned (tip : pindex)
    (dwarfPopGraph : list HiveInfo.CDwarfPopGraphPoint) (recalcGraph ok : bool)
    (c : HiveInfo.Counts) (graph : list HiveInfo.CDwarfPopGraphPoint) :
  HiveInfo.GetNetworkHiveInfo params tip dwarfPopGraph recalcGraph = Done (ok, (c, graph)) ->
  tip <> [] /\
  div64 (Int.i64 (dwarfLifespanBlocks params * HiveInfo.GetBlockSubsidyHive))
    (Int.i32 (HiveInfo.hiveBlockSpacingTargetTypical + HiveInfo.popBlocksPerHive))
  = Done (HiveInfo.potentialLifespanRewards c) /\
  (recalcGraph = false -> graph = dwarfPopGraph) /\
  (HiveInfo.IsInitialBlockDownload = true ->
   ok = false /\
   HiveInfo.immatureDwarves c = 0 /\ HiveInfo.immatureDCTs c = 0 /\
   HiveInfo.matureDwarves c = 0 /\ HiveInfo.matureDCTs c = 0).
Proof.
  unfold HiveInfo.GetNetworkHiveInfo. intros E.
  destruct (bool_decide (tip ≠ [])) eqn:Htip; [| discriminate].
  apply bool_decide_eq_true in Htip. cbn [assert bind] in E.
  apply bind_Done in E as (tipBlock & _ & E).
  apply bind_Done in E as (rewards & Hrewards & E).
  apply bind_Done in E as (g0 & Hclear & E).
  split; [exact Htip |].
  assert (Hg0 : recalcGraph = false -> g0 = dwarfPopGraph).
  { intros ->. inversion Hclear. reflexivity. }
  destruct HiveInfo.IsInitialBlockDownload.
  - inversion E; subst. cbn. split; [exact Hrewards |]. split; [exact Hg0 |].
    intros _. repeat split.
  - apply scan_keeps in E as [Hr Hg]. cbn [fst snd] in Hr, Hg.
    cbn [HiveInfo.potentialLifespanRewards] in Hr. rewrite Hr.
    split; [exact Hrewards |].
    split; [| discriminate].
    intros Hoff. rewrite (Hg Hoff). exact (Hg0 Hoff).
Qed.

End HiveInfoProps.

Lemma GetNetworkHiveInfo_returned_witness :
  exists ok c graph,
    @HiveInfo.GetNetworkHiveInfo Sample.header Sample.node SampleInfo.env Sample.params
      Sample.mixedChain SampleInfo.graph false = Done (ok, (c, graph)) /\
    Sample.mixedChain <> [] /\
    div64 (Int.i64 (dwarfLifespanBlocks Sample.params
                    * @HiveInfo.GetBlockSubsidyHive SampleInfo.env))
      (Int.i32 (@HiveInfo.hiveBlockSpacingTargetTypical SampleInfo.env
                + @HiveInfo.popBlocksPerHive SampleInfo.env))
    = Done (HiveInfo.potentialLifespanRewards c) /\
    (false = false -> graph = SampleInfo.graph) /\
    (@HiveInfo.IsInitialBlockDownload SampleInfo.env = true ->
     ok = false /\
     HiveInfo.immatureDwarves c = 0 /\ HiveInfo.immatureDCTs c = 0 /\
     HiveInfo.matureDwarves c = 0 /\ HiveInfo.matureDCTs c = 0).
Proof.
  do 3 eexists.
  lazymatch goal with
  | |- ?run = Done (?ok, (?c, ?graph)) /\ _ =>
      assert (Hrun : run = Done (ok, (c, graph))) by (vm_compute; reflexivity);
      split; [exact Hrun |];
      exact (@GetNetworkHiveInfo_returned Sample.header Sample.node SampleInfo.env
               Sample.params Sample.mixedChain SampleInfo.graph false ok c graph Hrun)
  end.
Defined.
